(** * A minimal CoAP endpoint: codec, dispatcher and resource store

    Shallow embedding of
    - [coap_server/server.c]               (volatile variant, module [Volatile]),
    - [coap_server/server_persist_clean.c] (persistent variant, module [Persist]),
    - [sensorDistancia/coap_min.h]         (the Arduino client, module [Client]),
    followed by the properties of the codec, of the dispatch table and of the
    file-backed store.

    Conventions.  A [uint8_t] is a [Z] in [0, 256); conversions to [uint8_t]
    and [uint16_t] are written out as [mod 256] and [mod 65536].  A pointer
    into the datagram ([p], with the fixed [end]) is the list of the bytes
    from [p] to [end], so [p >= end] reads [p = []] and [p + n > end] reads
    [length p < n].  A C string held in a [char] array is the list of its
    characters up to, and without, the terminating NUL.  [size_t] values are
    sizes of objects in memory and are far from wrapping; they are plain
    integers here.  The one [int] that the code computes from two others,
    the option delta of [add_option], is reduced to 32 bits. *)

From Stdlib Require Import String Ascii ZArith List Bool Lia.
Import ListNotations.
Open Scope Z_scope.

(** ** Bytes and C strings *)

Definition byte := Z.
Definition bytes := list byte.

(** The characters of a string literal. *)
Fixpoint str (s : string) : bytes :=
  match s with
  | EmptyString => []
  | String c s' => Z.of_nat (nat_of_ascii c) :: str s'
  end.

(** What [strlen], [strcmp], [strncat] and [%s] see of a [char] array: the
    characters before the first NUL. *)
Fixpoint cstr (s : bytes) : bytes :=
  match s with
  | [] => []
  | c :: s' => if c =? 0 then [] else c :: cstr s'
  end.

(** [snprintf(out, outsz, "%s", s)]: at most [outsz - 1] characters are kept. *)
Definition snprintf_s (outsz : nat) (s : bytes) : bytes := firstn (outsz - 1) s.

Definition bytes_eqb (a b : bytes) : bool :=
  if list_eq_dec Z.eq_dec a b then true else false.

Definition len (s : bytes) : Z := Z.of_nat (length s).

Definition LF : byte := 10.
Definition CR : byte := 13.
Definition SLASH : byte := 47.

(** ** Constants shared by the two servers *)

Definition COAP_VER : Z := 1.
Definition COAP_CON : Z := 0.
Definition COAP_NON : Z := 1.
Definition COAP_ACK : Z := 2.
Definition COAP_RST : Z := 3.
Definition COAP_GET : Z := 1.
Definition COAP_POST : Z := 2.
Definition COAP_PUT : Z := 3.
Definition COAP_204_CHANGED : Z := 68.   (* 0x44 *)
Definition COAP_205_CONTENT : Z := 69.   (* 0x45 *)
Definition COAP_404_NOTFOUND : Z := 132. (* 0x84 *)
Definition COAP_405_METHODNA : Z := 133. (* 0x85, server.c only *)
Definition COAP_500_INTERR : Z := 160.   (* 0xA0, server_persist_clean.c only *)
Definition OPT_URI_PATH : Z := 11.
Definition OPT_CONTENT_FORMAT : Z := 12.
Definition CF_TEXT_PLAIN : Z := 0.
Definition PAYLOAD_MARKER : Z := 255.

(** ** Results of the decoder

    [Ok r] is [return 0] with [*r] filled in, [Reject] is [return -1].
    [Undefined] marks an execution that leaves defined behaviour (the
    unchecked [strncat] of server.c writing past [uri_path[128]]). *)

Inductive outcome (A : Type) : Type :=
| Ok (a : A)
| Reject
| Undefined.
Arguments Ok {A} a.
Arguments Reject {A}.
Arguments Undefined {A}.

(** [coap_req_t].  [token] holds the [tkl] bytes copied from the datagram;
    [payload] is [None] for the NULL pointer, and [payload_len] is its
    length. *)
Record coap_req_t : Type := mk_req {
  type : Z;
  tkl : Z;
  code : Z;
  mid : Z;
  token : bytes;
  uri_path : bytes;
  payload : option bytes
}.

Definition payload_len (r : coap_req_t) : Z :=
  match payload r with
  | Some pl => len pl
  | None => 0
  end.

(** ** Option nibbles: [read_nibble_ext] (server.c:61) / [read_ext]
    (server_persist_clean.c:131)

    Returns the value, or -1, and the advanced pointer. *)
Definition read_nibble_ext (v : Z) (p : bytes) : Z * bytes :=
  if v <? 13 then (v, p)
  else if v =? 13 then
    match p with
    | [] => (-1, p)
    | b :: p' => (13 + b, p')
    end
  else if v =? 14 then
    match p with
    | b0 :: b1 :: p' => (269 + Z.lor (Z.shiftl b0 8) b1, p')
    | _ => (-1, p)
    end
  else (-1, p).

(** The head of one loop iteration: the option header byte and its two
    nibbles, resolved in this order. *)
Definition read_option_header (byte : Z) (p : bytes) : Z * Z * bytes :=
  let delta4 := Z.land (Z.shiftr byte 4) 15 in
  let len4 := Z.land byte 15 in
  let '(delta, p1) := read_nibble_ext delta4 p in
  let '(optlen, p2) := read_nibble_ext len4 p1 in
  (delta, optlen, p2).

(** ** The decoder, common to both servers

    The two [coap_parse] functions differ only in how a Uri-Path segment is
    appended to [uri_path]; that step is the section variable.  The loop
    consumes at least one byte per iteration, so [length p] iterations are
    enough: [fuel] never runs out when started that way (see
    [option_loop_fuel]). *)
Section Decoder.

Variable append_segment : bytes -> bytes -> option bytes.

Fixpoint option_loop (fuel : nat) (p : bytes) (last_opt : Z) (path : bytes)
  : outcome (bytes * bytes) :=
  match p with
  | [] => Ok (path, p)
  | byte :: p0 =>
    if byte =? PAYLOAD_MARKER then Ok (path, p)
    else
      match fuel with
      | O => Undefined
      | S fuel' =>
        let '(delta, optlen, p2) := read_option_header byte p0 in
        if (delta <? 0) || (optlen <? 0) then Reject
        else
          let optnum := last_opt + delta in
          if len p2 <? optlen then Reject
          else
            let n := Z.to_nat optlen in
            let appended :=
              if optnum =? OPT_URI_PATH
              then append_segment path (firstn n p2)
              else Some path in
            match appended with
            | None => Undefined
            | Some path' => option_loop fuel' (skipn n p2) optnum path'
            end
      end
  end.

Definition coap_parse_with (buf : bytes) : outcome coap_req_t :=
  if len buf <? 4 then Reject
  else
    let b0 := nth 0 buf 0 in
    let b1 := nth 1 buf 0 in
    let b2 := nth 2 buf 0 in
    let b3 := nth 3 buf 0 in
    let ver := Z.land (Z.shiftr b0 6) 3 in
    if negb (ver =? COAP_VER) then Reject
    else
      let r_type := Z.land (Z.shiftr b0 4) 3 in
      let r_tkl := Z.land b0 15 in
      let r_code := b1 in
      let r_mid := (Z.lor (Z.shiftl b2 8) b3) mod 65536 in
      if (len buf <? 4 + r_tkl) || (8 <? r_tkl) then Reject
      else
        let r_token := firstn (Z.to_nat r_tkl) (skipn 4 buf) in
        let p := skipn (4 + Z.to_nat r_tkl) buf in
        match option_loop (length p) p 0 [] with
        | Ok (path, p') =>
            let r_payload :=
              match p' with
              | b :: rest => if b =? PAYLOAD_MARKER then Some rest else None
              | [] => None
              end in
            Ok (mk_req r_type r_tkl r_code r_mid r_token path r_payload)
        | Reject => Reject
        | Undefined => Undefined
        end.

End Decoder.

(** ** The encoder, common to both servers *)

(** An [int] has 32 bits.  [to_int] is the value of an arithmetic result
    once it is held in an [int]: the result itself inside the range, and
    reduced modulo 2^32 outside it, which is what the compiled servers do
    where C leaves the overflow undefined. *)
Definition INT_MIN : Z := -2147483648.
Definition INT_MAX : Z := 2147483647.

Definition to_int (z : Z) : Z :=
  (z + 2147483648) mod 4294967296 - 2147483648.

(** [add_option] (server.c:126, server_persist_clean.c:182).  [last] and
    [number] are [int]s and so is their difference [delta]; [val] is the
    [vlen] bytes behind the (non-null) pointer.  The result is the returned
    [int] ([need], or -1), the bytes stored at [out], and the new [*last]. *)
Definition add_option (cap : Z) (last number : Z) (val : bytes)
  : Z * bytes * Z :=
  if cap <? 1 then (-1, [], last)
  else
    let delta := to_int (number - last) in
    let vlen := len val in
    let '(dl, dext) :=
      if delta <? 13 then (delta mod 256, [])
      else if delta <? 269 then (13, [(delta - 13) mod 256])
      else
        let D := delta - 269 in
        (14, [Z.land (Z.shiftr D 8) 255; Z.land D 255]) in
    let '(ll, lext) :=
      if vlen <? 13 then (vlen mod 256, [])
      else if vlen <? 269 then (13, [(vlen - 13) mod 256])
      else
        let L := vlen - 269 in
        (14, [Z.land (Z.shiftr L 8) 255; Z.land L 255]) in
    let need := 1 + len dext + len lext + vlen in
    if cap <? need then (-1, [], last)
    else
      (need,
       [(Z.lor (Z.shiftl dl 4) ll) mod 256] ++ dext ++ lext ++ val,
       number).

(** [build_response] (server.c:157) / [build_resp]
    (server_persist_clean.c:203).  [payload] is [None] for a NULL pointer and
    [plen] is its length.  The result is the returned [size_t] and the bytes
    stored in [out] below it. *)
Definition build_response (cap : Z) (req_type r_tkl : Z) (tok : bytes)
    (r_mid r_code : Z) (payload : option bytes) : Z * bytes :=
  if cap <? 4 + r_tkl then (0, [])
  else
    let ty := if req_type =? COAP_CON then COAP_ACK else COAP_NON in
    let out0 :=
      (Z.lor (Z.lor (Z.shiftl COAP_VER 6) (Z.shiftl ty 4)) (Z.land r_tkl 15))
        mod 256 in
    let out1 := r_code in
    let out2 := (Z.shiftr r_mid 8) mod 256 in
    let out3 := (Z.land r_mid 255) mod 256 in
    let out := [out0; out1; out2; out3] ++ firstn (Z.to_nat r_tkl) tok in
    let pos := 4 + r_tkl in
    let '(n, opt, _) :=
      add_option (cap - pos) 0 OPT_CONTENT_FORMAT [CF_TEXT_PLAIN] in
    if n <? 0 then (0, [])
    else
      let pos := pos + n in
      let out := out ++ opt in
      match payload with
      | Some pl =>
        if 0 <? len pl then
          if cap <? pos + 1 + len pl then (0, [])
          else (pos + 1 + len pl, out ++ [PAYLOAD_MARKER] ++ pl)
        else (pos, out)
      | None => (pos, out)
      end.

(** The request body as text (both [main]s): at most 1023 payload bytes,
    NUL-terminated, then read as a C string. *)
Definition body_of (req : coap_req_t) : bytes :=
  match payload req with
  | Some pl => if 0 <? len pl then cstr (firstn 1023 pl) else []
  | None => []
  end.

(** ** server.c *)
Module Volatile.

(** Lines 100-107: the segment goes through two [strncat]s, neither of
    which knows the size of [uri_path[128]]. *)
Definition uri_path_append (path seg : bytes) : option bytes :=
  if 0 <? len seg then
    let path1 :=
      if negb (bytes_eqb path []) && (len path <? 127)
      then path ++ [SLASH] else path in
    let path2 := path1 ++ cstr seg in
    if len path2 <? 128 then Some path2 else None
  else Some path.

Definition coap_parse : bytes -> outcome coap_req_t :=
  coap_parse_with uri_path_append.

(** [static char g_state[1024] = "NO_DATA"]. *)
Definition g_state_init : bytes := str "NO_DATA".

(** Lines 219-262 of [main]: from the decoded request and [g_state] to the
    new [g_state], the response code and [resp]. *)
Definition dispatch (g_state : bytes) (req : coap_req_t)
  : bytes * Z * bytes :=
  let method := code req in
  let path := uri_path req in
  let body := body_of req in
  if bytes_eqb path (str "echo") && (method =? COAP_POST) then
    (g_state, COAP_205_CONTENT, snprintf_s 1200 (str "echo: " ++ body))
  else if bytes_eqb path (str "sensor") then
    if method =? COAP_PUT then
      (snprintf_s 1024 body, COAP_204_CHANGED, snprintf_s 1200 (str "UPDATED"))
    else if method =? COAP_GET then
      (g_state, COAP_205_CONTENT, snprintf_s 1200 g_state)
    else
      (g_state, COAP_405_METHODNA, snprintf_s 1200 (str "METHOD_NOT_ALLOWED"))
  else
    (g_state, COAP_404_NOTFOUND, snprintf_s 1200 (str "NOT_FOUND")).

(** One iteration of the receive loop on a datagram of [n > 0] bytes:
    the new [g_state] and what is handed to [sendto], if anything. *)
Definition serve (g_state : bytes) (inbuf : bytes)
  : outcome (bytes * option bytes) :=
  match coap_parse inbuf with
  | Reject => Ok (g_state, None)
  | Undefined => Undefined
  | Ok req =>
    let '(g_state', rcode, resp) := dispatch g_state req in
    let '(outlen, outbuf) :=
      build_response 1500 (type req) (tkl req) (token req) (mid req)
                     rcode (Some resp) in
    Ok (g_state', if 0 <? outlen then Some outbuf else None)
  end.

End Volatile.

(** ** server_persist_clean.c *)
Module Persist.

(** [read_ext] is [read_nibble_ext] under another name, [add_option] and
    [build_resp] are [add_option] and [build_response] of server.c, and
    the loop of [coap_parse] is the same up to [append_uri_segment]. *)
Definition read_ext := read_nibble_ext.
Definition build_resp := build_response.

(** [append_uri_segment(dst, 128, seg, seglen)] (line 138). *)
Definition append_uri_segment (dst seg : bytes) : bytes :=
  let dstsz := 128 in
  let cur := len dst in
  let seglen := len seg in
  if seglen =? 0 then dst
  else
    let '(dst1, cur1) :=
      if negb (bytes_eqb dst []) && (cur <? dstsz - 1)
      then (dst ++ [SLASH], cur + 1) else (dst, cur) in
    let copy := if dstsz <=? cur1 + seglen then dstsz - 1 - cur1 else seglen in
    cstr (dst1 ++ firstn (Z.to_nat copy) seg).

Definition coap_parse : bytes -> outcome coap_req_t :=
  coap_parse_with (fun dst seg => Some (append_uri_segment dst seg)).

(** *** The two files

    [None] is a file that [fopen(path, "r")] cannot open. *)
Record files : Type := mk_files {
  CURR : option bytes;   (* COAP_CURRENTFILE *)
  DATA : option bytes    (* COAP_DATAFILE *)
}.

(** [rstrip] (line 73): drop the CR and LF characters at the end. *)
Definition is_crlf (c : Z) : bool := (c =? LF) || (c =? CR).

Fixpoint drop_crlf (s : bytes) : bytes :=
  match s with
  | [] => []
  | c :: s' => if is_crlf c then drop_crlf s' else s
  end.

Definition rstrip (s : bytes) : bytes := rev (drop_crlf (rev s)).

(** [fgets(line, size, f)]: up to [size - 1] characters, stopping after a
    line feed; [None] at end of file.  The second component is what is
    left to read. *)
Fixpoint fgets_chars (k : nat) (f : bytes) : bytes * bytes :=
  match k, f with
  | O, _ => ([], f)
  | _, [] => ([], [])
  | S k', c :: f' =>
    if c =? LF then ([c], f')
    else let '(l, r) := fgets_chars k' f' in (c :: l, r)
  end.

Definition fgets (size : nat) (f : bytes) : option (bytes * bytes) :=
  match f with
  | [] => None
  | _ => Some (fgets_chars (size - 1) f)
  end.

(** The [while (fgets ...)] loop of [read_last_line]; every iteration
    reads at least one character, so [length f] iterations reach the end
    of the file. *)
Fixpoint read_lines (fuel : nat) (f : bytes) (last : bytes) : bytes :=
  match fuel with
  | O => last
  | S fuel' =>
    match fgets 2048 f with
    | None => last
    | Some (line, f') =>
      let line := rstrip (cstr line) in
      read_lines fuel' f'
        (if bytes_eqb line [] then last else snprintf_s 2048 line)
    end
  end.

(** [read_last_line] (line 79): [Some out] for [return 1]. *)
Definition read_last_line (file : option bytes) (outsz : nat) : option bytes :=
  match file with
  | None => None
  | Some f =>
    let last := read_lines (length f) f [] in
    if bytes_eqb last [] then None else Some (snprintf_s outsz last)
  end.

Fixpoint is_prefix (a s : bytes) : bool :=
  match a, s with
  | [], _ => true
  | _ :: _, [] => false
  | x :: a', y :: s' => (x =? y) && is_prefix a' s'
  end.

(** [strstr]: the part of [hay] that starts at the first occurrence. *)
Fixpoint strstr (hay needle : bytes) : option bytes :=
  if is_prefix needle hay then Some hay
  else
    match hay with
    | [] => None
    | _ :: hay' => strstr hay' needle
    end.

(** [extract_state] (line 96); with [outsz = 0] nothing is stored. *)
Definition extract_state (line : bytes) (outsz : nat) : bytes :=
  if (outsz =? 0)%nat then []
  else
    let tag := str "payload=" in
    match strstr line tag with
    | Some p => snprintf_s outsz (skipn (length tag) p)
    | None => snprintf_s outsz line
    end.

(** *** Writing

    What the environment decides for one call: the timestamp that
    [strftime] produces, and the fate of each stdio call.  Output goes
    through the buffer of the stream: [fprintf] hands its output to the
    buffer, and may fail after a part of it was accepted; [fclose] writes
    out what the buffer holds, and may fail after a part of that reached
    the file.  The code tests the results of [fopen] and [fprintf]; it
    drops the result of [fclose] (lines 110 and 118). *)
Inductive fprintf_result : Type :=
| Printed
| PrintFailed (accepted : nat).

Inductive fclose_result : Type :=
| Closed
| CloseFailed (written : nat).

Record io_env : Type := mk_env {
  iso : bytes;
  fopen_current : bool;
  fprintf_current : fprintf_result;
  fclose_current : fclose_result;
  fopen_history : bool;
  fprintf_history : fprintf_result;
  fclose_history : fclose_result
}.

Inductive file_id : Type := CurrentFile | HistoryFile.

(** The stdio calls made, in order, each with its success. *)
Inductive io_event : Type :=
| EvFopen (f : file_id) (ok : bool)
| EvFprintf (f : file_id) (data : bytes) (ok : bool)
| EvFclose (f : file_id) (ok : bool).

Definition printed (r : fprintf_result) : bool :=
  match r with
  | Printed => true
  | PrintFailed _ => false
  end.

Definition closed (c : fclose_result) : bool :=
  match c with
  | Closed => true
  | CloseFailed _ => false
  end.

(** What a stream that was given [data] leaves in its file. *)
Definition stored (r : fprintf_result) (c : fclose_result) (data : bytes)
  : bytes :=
  let buffered :=
    match r with
    | Printed => data
    | PrintFailed k => firstn k data
    end in
  match c with
  | Closed => buffered
  | CloseFailed k => firstn k buffered
  end.

Definition file_contents (f : option bytes) : bytes :=
  match f with
  | Some s => s
  | None => []
  end.

(** [write_current_and_history] (line 105): the returned [int], the files
    afterwards and the stdio calls made. *)
Definition write_current_and_history (env : io_env) (fs : files)
    (value : bytes) : Z * files * list io_event :=
  if negb (fopen_current env) then
    (-1, fs, [EvFopen CurrentFile false])
  else
    (* "w": the file exists and is empty from here on *)
    let cur_line := value ++ [LF] in
    let fs1 :=
      mk_files (Some (stored (fprintf_current env) (fclose_current env)
                             cur_line))
               (DATA fs) in
    let tr1 := [EvFopen CurrentFile true;
                EvFprintf CurrentFile cur_line (printed (fprintf_current env));
                EvFclose CurrentFile (closed (fclose_current env))] in
    if negb (printed (fprintf_current env)) then (-1, fs1, tr1)
    else
      if negb (fopen_history env) then
        (-1, fs1, tr1 ++ [EvFopen HistoryFile false])
      else
        (* "a": output goes after what the file holds *)
        let hist_line := iso env ++ str " payload=" ++ value ++ [LF] in
        let fs2 :=
          mk_files (CURR fs1)
            (Some (file_contents (DATA fs1)
                   ++ stored (fprintf_history env) (fclose_history env)
                             hist_line)) in
        let tr2 := tr1 ++ [EvFopen HistoryFile true;
                           EvFprintf HistoryFile hist_line
                                     (printed (fprintf_history env));
                           EvFclose HistoryFile
                                    (closed (fclose_history env))] in
        if negb (printed (fprintf_history env)) then (-1, fs2, tr2)
        else (0, fs2, tr2).

(** Lines 255-297 of [main]. *)
Definition dispatch (env : io_env) (fs : files) (req : coap_req_t)
  : files * Z * bytes :=
  let body := body_of req in
  if (code req =? COAP_GET) && bytes_eqb (uri_path req) (str "sensor") then
    match read_last_line (CURR fs) 2048 with
    | Some line => (fs, COAP_205_CONTENT, snprintf_s 1200 line)
    | None =>
      match read_last_line (DATA fs) 2048 with
      | Some line =>
        let st := extract_state line 2048 in
        (fs, COAP_205_CONTENT, snprintf_s 1200 st)
      | None => (fs, COAP_205_CONTENT, snprintf_s 1200 (str "NO_DATA"))
      end
    end
  else if (code req =? COAP_POST) && bytes_eqb (uri_path req) (str "echo") then
    let '(rc, fs', _) := write_current_and_history env fs body in
    if rc =? 0 then
      (fs', COAP_205_CONTENT, snprintf_s 1200 (str "echo: " ++ body))
    else (fs', COAP_500_INTERR, snprintf_s 1200 (str "WRITE_FAIL"))
  else if (code req =? COAP_PUT) && bytes_eqb (uri_path req) (str "sensor") then
    let '(rc, fs', _) := write_current_and_history env fs body in
    if rc =? 0 then
      (fs', COAP_204_CHANGED, snprintf_s 1200 (str "UPDATED"))
    else (fs', COAP_500_INTERR, snprintf_s 1200 (str "WRITE_FAIL"))
  else
    (fs, COAP_404_NOTFOUND, snprintf_s 1200 (str "NOT_FOUND")).

(** One iteration of the receive loop. *)
Definition serve (env : io_env) (fs : files) (inbuf : bytes)
  : outcome (files * option bytes) :=
  match coap_parse inbuf with
  | Reject => Ok (fs, None)
  | Undefined => Undefined
  | Ok req =>
    let '(fs', rcode, resp) := dispatch env fs req in
    let '(outlen, outbuf) :=
      build_resp 1500 (type req) (tkl req) (token req) (mid req)
                 rcode (Some resp) in
    Ok (fs', if 0 <? outlen then Some outbuf else None)
  end.

End Persist.

(** ** coap_min.h: the client *)
Module Client.

(** The lambda [addOpt] of [buildPost]: the bytes stored at [p] and the
    new [last].  [len8] is the [uint8_t] argument. *)
Definition addOpt (last number : Z) (val : bytes) (len8 : Z) : bytes * Z :=
  let delta := (number - last) mod 65536 in
  ([(Z.lor (Z.shiftl delta 4) (Z.land len8 15)) mod 256]
     ++ firstn (Z.to_nat len8) val,
   number).

(** [buildPost] (line 7).  [path1] and [path2] are C strings or NULL,
    [json] is a C string; the result is the [p - out] bytes stored. *)
Definition buildPost (path1 path2 : option bytes) (json : bytes)
    (msgId : Z) : bytes :=
  let header :=
    [(Z.lor (Z.lor (Z.shiftl 1 6) (Z.shiftl COAP_CON 4)) 2) mod 256;
     2;
     (Z.shiftr msgId 8) mod 256;
     (Z.land msgId 255) mod 256] in
  let tok := [(Z.shiftr msgId 8) mod 256; (Z.land msgId 255) mod 256] in
  let last := 0 in
  let '(o1, last) :=
    match path1 with
    | Some (c :: s) => addOpt last 11 (c :: s) (len (c :: s) mod 256)
    | _ => ([], last)
    end in
  let '(o2, last) :=
    match path2 with
    | Some (c :: s) => addOpt last 11 (c :: s) (len (c :: s) mod 256)
    | _ => ([], last)
    end in
  let cf := 50 in
  let '(o3, _) := addOpt last 12 [cf] 1 in
  header ++ tok ++ o1 ++ o2 ++ o3 ++ [PAYLOAD_MARKER] ++ json.

(** [parseHeader] (line 45): [Some (type, code, msgId)] for [true] with the
    three references assigned, [None] for [false]. *)
Definition parseHeader (b : bytes) : option (Z * Z * Z) :=
  if len b <? 4 then None
  else if negb (Z.land (Z.shiftr (nth 0 b 0) 6) 3 =? 1) then None
  else
    let ty := Z.land (Z.shiftr (nth 0 b 0) 4) 3 in
    let hcode := nth 1 b 0 in
    let msgId := (Z.lor (Z.shiftl (nth 2 b 0) 8) (nth 3 b 0)) mod 65536 in
    Some (ty, hcode, msgId).

End Client.

(** * Vocabulary of the properties *)

(** The token length that byte 0 of a datagram declares. *)
Definition declared_tkl (buf : bytes) : Z := Z.land (nth 0 buf 0) 15.

(** The size of a complete response: header, token, the two bytes of the
    Content-Format option, and marker plus payload when there is one. *)
Definition response_length (r_tkl : Z) (payload : option bytes) : Z :=
  4 + r_tkl + 2 +
  match payload with
  | Some pl => if 0 <? len pl then 1 + len pl else 0
  | None => 0
  end.

(** The values at the edges of the three encodings of a nibble. *)
Definition boundary_values : list Z := [12; 13; 268; 269; 65536 + 268].

(** Decoding the first option of an encoded option list. *)
Definition decode_first_option (out : bytes) : option (Z * Z * bytes) :=
  match out with
  | [] => None
  | b :: p => Some (read_option_header b p)
  end.

(** The nibble and the extension bytes that [add_option] chooses for a
    delta or a length (its two [if] chains are this function). *)
Definition nibble_tier (x : Z) : Z * bytes :=
  if x <? 13 then (x mod 256, [])
  else if x <? 269 then (13, [(x - 13) mod 256])
  else
    let D := x - 269 in
    (14, [Z.land (Z.shiftr D 8) 255; Z.land D 255]).

(** The characters behind a [const char*] argument of the client; NULL and
    the empty string both stand for "no segment". *)
Definition seg_of (path : option bytes) : bytes :=
  match path with
  | Some s => s
  | None => []
  end.

(** A Uri-Path with one more segment: segments are joined with '/', and an
    empty segment adds nothing. *)
Definition join_segment (path seg : bytes) : bytes :=
  match seg, path with
  | [], _ => path
  | _, [] => seg
  | _, _ => path ++ [SLASH] ++ seg
  end.

(** A C string (no NUL inside) of at most 12 characters: what the one-byte
    option header of the client can describe. *)
Definition short_segment (s : bytes) : Prop :=
  len s <= 12 /\ Forall (fun c => c <> 0) s.

(** What [buildPost] emits for one of its two path arguments: nothing for
    NULL or "", an option 11 otherwise. *)
Definition client_segment (last : Z) (s : bytes) : bytes * Z :=
  match s with
  | [] => ([], last)
  | _ :: _ => Client.addOpt last 11 s (len s mod 256)
  end.

(** The two writes of [write_current_and_history].  The calls that the
    code tests, [fopen] and [fprintf], reported success: *)
Definition current_calls_ok (env : Persist.io_env) : bool :=
  Persist.fopen_current env && Persist.printed (Persist.fprintf_current env).

Definition history_calls_ok (env : Persist.io_env) : bool :=
  Persist.fopen_history env && Persist.printed (Persist.fprintf_history env).

(** The write succeeded: [fclose] too reported success, so that the whole
    output is in the file. *)
Definition current_write_ok (env : Persist.io_env) : bool :=
  current_calls_ok env && Persist.closed (Persist.fclose_current env).

Definition history_write_ok (env : Persist.io_env) : bool :=
  history_calls_ok env && Persist.closed (Persist.fclose_history env).

(** A write was attempted when its [fopen] was called. *)
Definition attempted (f : Persist.file_id) (tr : list Persist.io_event) : Prop :=
  exists ok, In (Persist.EvFopen f ok) tr.

(** *** Lines of a text file *)

(** A position where a line starts: the beginning of the file or just
    after a line feed. *)
Definition line_start (pre : bytes) : Prop :=
  pre = [] \/ exists q, pre = q ++ [LF].

(** Only line ends: CR and LF characters. *)
Definition blank (t : bytes) : Prop := Forall (fun c => c = LF \/ c = CR) t.

(** A non-empty line of text without its line end: no LF and no NUL
    inside, and no CR as last character. *)
Definition stripped_line (l : bytes) : Prop :=
  l <> [] /\ Forall (fun c => c <> LF /\ c <> 0) l /\
  forall u, l <> u ++ [CR].

(** [l] is the last non-empty line of the file: it starts a line, and only
    line ends (its own, and empty lines) come after it. *)
Definition last_line_is (content l : bytes) : Prop :=
  exists pre trailer,
    content = pre ++ l ++ trailer /\
    line_start pre /\ stripped_line l /\ blank trailer.

(** The file is missing or holds no non-empty line. *)
Definition no_line (file : option bytes) : Prop :=
  match file with
  | None => True
  | Some f => blank f
  end.

(** [s] occurs in [l]. *)
Definition contains (s l : bytes) : Prop := exists a b, l = a ++ s ++ b.

(** What [strftime] makes of "%Y-%m-%dT%H:%M:%SZ" in [iso[32]]: digits and
    the four separators. *)
Definition iso_timestamp (ts : bytes) : Prop :=
  (length ts < 32)%nat /\
  Forall (fun c => 48 <= c <= 57 \/ c = 45 \/ c = 84 \/ c = 58 \/ c = 90) ts.

(** A line of the history log, as [write_current_and_history] prints it. *)
Definition history_entry (ts value : bytes) : bytes :=
  ts ++ str " payload=" ++ value.

(** *** Runs of requests *)

(** The requests that store a value: PUT /sensor in server.c, and also
    POST /echo in server_persist_clean.c. *)
Definition volatile_writes (req : coap_req_t) : bool :=
  bytes_eqb (uri_path req) (str "sensor") && (code req =? COAP_PUT).

Definition persist_writes (req : coap_req_t) : bool :=
  ((code req =? COAP_POST) && bytes_eqb (uri_path req) (str "echo")) ||
  ((code req =? COAP_PUT) && bytes_eqb (uri_path req) (str "sensor")).

(** The state after a sequence of requests. *)
Definition volatile_run (g : bytes) (reqs : list coap_req_t) : bytes :=
  fold_left (fun g req => fst (fst (Volatile.dispatch g req))) reqs g.

Definition persist_run (fs : Persist.files)
    (steps : list (Persist.io_env * coap_req_t)) : Persist.files :=
  fold_left (fun fs step =>
               fst (fst (Persist.dispatch (fst step) fs (snd step))))
            steps fs.

(** *** Further vocabulary *)

(** A datagram is a list of [uint8_t] values. *)
Definition is_byte (b : Z) : Prop := 0 <= b < 256.

(** The type of the response to a request of type [req_type]. *)
Definition response_type (req_type : Z) : Z :=
  if req_type =? COAP_CON then COAP_ACK else COAP_NON.

(** The payload that a decoder finds behind a response body: none when the
    body is empty, since no marker is written then. *)
Definition response_payload (resp : bytes) : option bytes :=
  match resp with
  | [] => None
  | _ :: _ => Some resp
  end.

(** What [uri_path] holds at any time: a C string that fits the array. *)
Definition path_fits (path : bytes) : Prop :=
  (length path <= 127)%nat /\ Forall (fun c => c <> 0) path.

(** The history log only grows. *)
Definition extends (before after : option bytes) : Prop :=
  exists added,
    Persist.file_contents after = Persist.file_contents before ++ added.

(** *** Encoded options *)

(** The bytes of a list of options, each given by its number and its
    value, as [add_option] stores them one after the other from the running
    number [last]. *)
Fixpoint options_bytes (last : Z) (os : list (Z * bytes)) : bytes :=
  match os with
  | [] => []
  | (number, val) :: os' =>
    let '(_, out, last') := add_option (5 + len val) last number val in
    out ++ options_bytes last' os'
  end.

(** The options that the format can carry: numbers that do not decrease,
    and grow by at most 269 + 65535 a step, and values of at most
    269 + 65535 bytes. *)
Fixpoint options_in_range (last : Z) (os : list (Z * bytes)) : Prop :=
  match os with
  | [] => True
  | (number, val) :: os' =>
    0 <= number - last <= 65804 /\ len val <= 65804 /\
    options_in_range number os'
  end.

(** The path once the values of the Uri-Path options among [os] have been
    appended to [path], one after the other; [None] when an append leaves
    defined behaviour. *)
Fixpoint path_after (append_segment : bytes -> bytes -> option bytes)
    (path : bytes) (os : list (Z * bytes)) : option bytes :=
  match os with
  | [] => Some path
  | (number, val) :: os' =>
    match (if number =? OPT_URI_PATH
           then append_segment path val else Some path) with
    | Some path' => path_after append_segment path' os'
    | None => None
    end
  end.

(** The Uri-Path that a list of options spells, as [append_uri_segment]
    joins the values of its options 11. *)
Definition options_path (os : list (Z * bytes)) : bytes :=
  fold_left (fun path o =>
               if fst o =? OPT_URI_PATH
               then Persist.append_uri_segment path (snd o) else path)
            os [].

(** *** The request builder *)

(** What [buildPost] emits for its path arguments, generalised to a list of
    them: one [addOpt] for each argument that is not empty. *)
Fixpoint client_segments (last : Z) (segs : list bytes) : bytes * Z :=
  match segs with
  | [] => ([], last)
  | s :: segs' =>
    let '(o, last1) := client_segment last s in
    let '(os, last2) := client_segments last1 segs' in
    (o ++ os, last2)
  end.

(** [build_request] of the specification: the datagram of [buildPost], with
    the message type, the method, the token and the number of path
    arguments left open.  [buildPost] itself is the instance CON, POST,
    token = message id, two path arguments. *)
Definition build_request (ty method : Z) (tok : bytes) (msgId : Z)
    (segs : list bytes) (payload : bytes) : bytes :=
  let header :=
    [(Z.lor (Z.lor (Z.shiftl 1 6) (Z.shiftl ty 4)) (len tok)) mod 256;
     method;
     (Z.shiftr msgId 8) mod 256;
     (Z.land msgId 255) mod 256] in
  let '(opts, last) := client_segments 0 segs in
  let '(o3, _) := Client.addOpt last 12 [50] 1 in
  header ++ tok ++ opts ++ o3 ++ [PAYLOAD_MARKER] ++ payload.

(** The segments joined with '/'. *)
Definition joined_path (segs : list bytes) : bytes :=
  fold_left join_segment segs [].

(** * Properties *)

(** ** Basic facts *)

Lemma bytes_eqb_eq (a b : bytes) : bytes_eqb a b = true <-> a = b.
Proof.
  unfold bytes_eqb. destruct (list_eq_dec Z.eq_dec a b); split; congruence.
Qed.

Lemma bytes_eqb_refl (a : bytes) : bytes_eqb a a = true.
Proof. now apply bytes_eqb_eq. Qed.

Lemma bytes_eqb_neq (a b : bytes) : a <> b -> bytes_eqb a b = false.
Proof.
  intros H. unfold bytes_eqb. destruct (list_eq_dec Z.eq_dec a b); congruence.
Qed.

Lemma len_app (a b : bytes) : len (a ++ b) = len a + len b.
Proof. unfold len. rewrite length_app. lia. Qed.

Lemma len_cons (c : byte) (a : bytes) : len (c :: a) = 1 + len a.
Proof. unfold len. simpl length. lia. Qed.

Lemma len_nonneg (a : bytes) : 0 <= len a.
Proof. unfold len. lia. Qed.

Lemma snprintf_s_fits (n : nat) (s : bytes) :
  (length s < n)%nat -> snprintf_s n s = s.
Proof. intros H. unfold snprintf_s. apply firstn_all2. lia. Qed.

Lemma cstr_no_nul (s : bytes) : Forall (fun c => c <> 0) s -> cstr s = s.
Proof.
  induction 1 as [|c s Hc _ IH]; simpl; [reflexivity|].
  destruct (Z.eqb_spec c 0); [contradiction|]. now rewrite IH.
Qed.

Lemma cstr_is_cstring (s : bytes) : Forall (fun c => c <> 0) (cstr s).
Proof.
  induction s as [|c s IH]; simpl; [constructor|].
  destruct (Z.eqb_spec c 0); constructor; assumption.
Qed.

Lemma cstr_length (s : bytes) : (length (cstr s) <= length s)%nat.
Proof.
  induction s as [|c s IH]; simpl; [lia|].
  destruct (c =? 0); simpl; lia.
Qed.

(** The body handed to the handlers is a C string of at most 1023
    characters. *)
Lemma body_of_is_cstring (req : coap_req_t) :
  Forall (fun c => c <> 0) (body_of req).
Proof.
  unfold body_of. destruct (payload req) as [pl|]; [|constructor].
  destruct (0 <? len pl); [apply cstr_is_cstring | constructor].
Qed.

Lemma body_of_length (req : coap_req_t) : (length (body_of req) <= 1023)%nat.
Proof.
  unfold body_of. destruct (payload req) as [pl|]; [|simpl; lia].
  destruct (0 <? len pl); [|simpl; lia].
  pose proof (cstr_length (firstn 1023 pl)) as H1.
  pose proof (firstn_le_length 1023 pl) as H2.
  generalize dependent (cstr (firstn 1023 pl)).
  generalize dependent (firstn 1023 pl). intros; lia.
Qed.

(** ** C8: short buffers and bad token lengths *)

Section DecoderFacts.

Variable append_segment : bytes -> bytes -> option bytes.

Lemma coap_parse_with_too_short (buf : bytes) :
  (length buf < 4)%nat -> coap_parse_with append_segment buf = Reject.
Proof.
  intros H. unfold coap_parse_with.
  destruct (Z.ltb_spec (len buf) 4) as [_|Hge]; [reflexivity|].
  unfold len in Hge. lia.
Qed.

Lemma coap_parse_with_bad_tkl (buf : bytes) :
  8 < Z.land (nth 0 buf 0) 15 \/ len buf - 4 < Z.land (nth 0 buf 0) 15 ->
  coap_parse_with append_segment buf = Reject.
Proof.
  intros H. unfold coap_parse_with.
  destruct (len buf <? 4); [reflexivity|].
  destruct (negb _); [reflexivity|].
  destruct (Z.ltb_spec (len buf) (4 + Z.land (nth 0 buf 0) 15));
    [reflexivity|].
  destruct (Z.ltb_spec 8 (Z.land (nth 0 buf 0) 15)); [reflexivity|].
  lia.
Qed.

End DecoderFacts.

(** C8. [coap_parse] returns -1, in both servers, on every buffer of fewer
    than 4 bytes and on every buffer whose declared token length is above 8
    or above the number of bytes that follow the 4-byte header. *)
Theorem parse_rejects_short_and_bad_token_length (buf : bytes) :
  (length buf < 4)%nat \/
  8 < declared_tkl buf \/
  len buf - 4 < declared_tkl buf ->
  Volatile.coap_parse buf = Reject /\ Persist.coap_parse buf = Reject.
Proof.
  unfold Volatile.coap_parse, Persist.coap_parse, declared_tkl.
  intros [H|H]; split;
    solve [ now apply coap_parse_with_too_short
          | now apply coap_parse_with_bad_tkl ].
Qed.

Lemma parse_rejects_three_bytes :
  (length [64; 1; 0] < 4)%nat /\
  Volatile.coap_parse [64; 1; 0] = Reject /\
  Persist.coap_parse [64; 1; 0] = Reject.
Proof.
  split; [simpl; lia|].
  apply (parse_rejects_short_and_bad_token_length [64; 1; 0]).
  left. simpl. lia.
Defined.

(** A declared token length of 9, whatever follows. *)
Lemma parse_rejects_tkl_9 (b1 b2 b3 : byte) (rest : bytes) :
  Volatile.coap_parse (73 :: b1 :: b2 :: b3 :: rest) = Reject /\
  Persist.coap_parse (73 :: b1 :: b2 :: b3 :: rest) = Reject.
Proof.
  unfold Volatile.coap_parse, Persist.coap_parse.
  split; apply coap_parse_with_bad_tkl; left; simpl; lia.
Qed.

(** ** Values held in an [int] *)

Lemma to_int_small (z : Z) : INT_MIN <= z <= INT_MAX -> to_int z = z.
Proof.
  unfold INT_MIN, INT_MAX, to_int. intros H.
  rewrite Z.mod_small by lia. lia.
Qed.

(** ** C7: the response builder is all or nothing *)

Lemma add_option_content_format (cap : Z) :
  add_option cap 0 OPT_CONTENT_FORMAT [CF_TEXT_PLAIN] =
  if cap <? 2 then (-1, [], 0) else (2, [193; 0], 12).
Proof.
  unfold add_option.
  destruct (Z.ltb_spec cap 1) as [H|H].
  - destruct (Z.ltb_spec cap 2); [reflexivity|lia].
  - rewrite to_int_small by (unfold INT_MIN, INT_MAX, OPT_CONTENT_FORMAT; lia).
    change (OPT_CONTENT_FORMAT - 0 <? 13) with true.
    change (len [CF_TEXT_PLAIN] <? 13) with true.
    cbv iota.
    change (1 + len [] + len [] + len [CF_TEXT_PLAIN]) with 2.
    destruct (Z.ltb_spec cap 2); reflexivity.
Qed.

(** C7. For every capacity, token, code, message id and payload,
    [build_response] (and so [build_resp]) returns 0 and stores nothing to
    send as soon as the capacity is below the size of the complete
    response; and a result other than 0 is the size of the complete
    response, within the capacity, with the whole payload behind the
    marker. *)
Theorem build_response_all_or_nothing
    (cap req_type r_tkl : Z) (tok : bytes) (r_mid r_code : Z)
    (payload : option bytes) :
  let '(n, out) :=
    build_response cap req_type r_tkl tok r_mid r_code payload in
  (cap < response_length r_tkl payload -> n = 0 /\ out = []) /\
  (n <> 0 ->
     n = response_length r_tkl payload /\ n <= cap /\
     exists hdr,
       length hdr = 4%nat /\
       out = hdr ++ firstn (Z.to_nat r_tkl) tok ++ [193; 0] ++
             match payload with
             | Some (c :: pl) => PAYLOAD_MARKER :: c :: pl
             | _ => []
             end).
Proof.
  unfold build_response, response_length.
  destruct (Z.ltb_spec cap (4 + r_tkl)) as [Hc|Hc].
  { split; [auto | congruence]. }
  rewrite add_option_content_format.
  destruct (Z.ltb_spec (cap - (4 + r_tkl)) 2) as [Ho|Ho].
  { change (-1 <? 0) with true. cbv iota. split; [auto | congruence]. }
  change (2 <? 0) with false. cbv iota.
  set (hdr := [_; r_code; _; _]).
  destruct payload as [[|c pl]|].
  - change (0 <? len []) with false. cbv iota.
    split; [lia|]. intros _. split; [lia|]. split; [lia|].
    exists hdr. split; [reflexivity|]. now rewrite <- !app_assoc.
  - assert (Hp : 0 < len (c :: pl))
      by (rewrite len_cons; pose proof (len_nonneg pl); lia).
    destruct (Z.ltb_spec 0 (len (c :: pl))) as [_|]; [|lia].
    destruct (Z.ltb_spec cap (4 + r_tkl + 2 + 1 + len (c :: pl))) as [Hq|Hq].
    + split; [auto | congruence].
    + split; [lia|]. intros _. split; [lia|]. split; [lia|].
      exists hdr. split; [reflexivity|]. now rewrite <- !app_assoc.
  - split; [lia|]. intros _. split; [lia|]. split; [lia|].
    exists hdr. split; [reflexivity|]. now rewrite <- !app_assoc.
Qed.

Lemma build_response_all_or_nothing_witness :
  let '(n, out) :=
    build_response 8 COAP_CON 2 [18; 52] 4660 COAP_205_CONTENT
                   (Some (str "7")) in
  n = 0 /\ out = [].
Proof.
  pose proof (build_response_all_or_nothing
                8 COAP_CON 2 [18; 52] 4660 COAP_205_CONTENT
                (Some (str "7"))) as H.
  destruct (build_response 8 COAP_CON 2 [18; 52] 4660 COAP_205_CONTENT
                           (Some (str "7"))) as [n out].
  apply (proj1 H). unfold response_length. simpl. lia.
Defined.

Example build_response_too_small :
  build_response 9 COAP_CON 2 [18; 52] 4660 COAP_205_CONTENT (Some (str "7"))
    = (0, []).
Proof. reflexivity. Qed.

Example build_response_exact :
  build_response 10 COAP_CON 2 [18; 52] 4660 COAP_205_CONTENT (Some (str "7"))
    = (10, [98; 69; 18; 52; 18; 52; 193; 0; 255; 55]).
Proof. reflexivity. Qed.

(** ** C6: option nibbles at the tier boundaries *)

(** The header byte gives its two nibbles back. *)
Lemma nibbles_of_header (dl ll : Z) :
  0 <= dl < 16 -> 0 <= ll < 16 ->
  Z.land (Z.shiftr ((Z.lor (Z.shiftl dl 4) ll) mod 256) 4) 15 = dl /\
  Z.land ((Z.lor (Z.shiftl dl 4) ll) mod 256) 15 = ll.
Proof.
  intros Hd Hl.
  assert (Hd' : In dl (map Z.of_nat (seq 0 16))).
  { replace dl with (Z.of_nat (Z.to_nat dl)) by lia.
    apply in_map, in_seq. lia. }
  assert (Hl' : In ll (map Z.of_nat (seq 0 16))).
  { replace ll with (Z.of_nat (Z.to_nat ll)) by lia.
    apply in_map, in_seq. lia. }
  revert dl Hd' ll Hl' Hd Hl.
  assert (H : Forall (fun dl => Forall (fun ll =>
              Z.land (Z.shiftr ((Z.lor (Z.shiftl dl 4) ll) mod 256) 4) 15 = dl /\
              Z.land ((Z.lor (Z.shiftl dl 4) ll) mod 256) 15 = ll)
              (map Z.of_nat (seq 0 16))) (map Z.of_nat (seq 0 16))).
  { repeat constructor. }
  intros dl Hd ll Hl _ _.
  rewrite Forall_forall in H. specialize (H dl Hd).
  rewrite Forall_forall in H. exact (H ll Hl).
Qed.

(** A 16-bit value is the big-endian combination of its two bytes. *)
Lemma be16_bytes (D : Z) :
  0 <= D < 65536 ->
  Z.lor (Z.shiftl (Z.land (Z.shiftr D 8) 255) 8) (Z.land D 255) = D.
Proof.
  intros HD.
  change 255 with (Z.ones 8).
  apply Z.bits_inj'. intros n Hn.
  rewrite Z.lor_spec, Z.land_spec, Z.testbit_ones_nonneg by lia.
  destruct (Z.ltb_spec n 8) as [Hlt|Hge].
  - rewrite Z.shiftl_spec_low by lia. simpl. apply andb_true_r.
  - rewrite Z.shiftl_spec, Z.land_spec, Z.shiftr_spec by lia.
    rewrite Z.testbit_ones_nonneg by lia.
    replace (n - 8 + 8) with n by lia.
    rewrite andb_false_r, orb_false_r.
    destruct (Z.ltb_spec (n - 8) 8) as [Hlt|Hge2]; [apply andb_true_r|].
    rewrite andb_false_r. symmetry.
    destruct (Z.eq_dec D 0) as [->|Hnz]; [apply Z.bits_0|].
    apply Z.bits_above_log2; [lia|].
    assert (Z.log2 D < 16) by (apply Z.log2_lt_pow2; lia). lia.
Qed.

Lemma add_option_tiers (cap last number : Z) (val : bytes) :
  add_option cap last number val =
  if cap <? 1 then (-1, [], last)
  else
    let '(dl, dext) := nibble_tier (to_int (number - last)) in
    let '(ll, lext) := nibble_tier (len val) in
    let need := 1 + len dext + len lext + len val in
    if cap <? need then (-1, [], last)
    else (need, [(Z.lor (Z.shiftl dl 4) ll) mod 256] ++ dext ++ lext ++ val,
          number).
Proof. reflexivity. Qed.

Lemma read_nibble_ext_13 (b : byte) (p : bytes) :
  read_nibble_ext 13 (b :: p) = (13 + b, p).
Proof. reflexivity. Qed.

Lemma read_nibble_ext_14 (b0 b1 : byte) (p : bytes) :
  read_nibble_ext 14 (b0 :: b1 :: p) = (269 + Z.lor (Z.shiftl b0 8) b1, p).
Proof. reflexivity. Qed.

Lemma nibble_tier_decodes (x : Z) :
  0 <= x <= 65804 ->
  let '(nl, ext) := nibble_tier x in
  0 <= nl < 16 /\ 0 <= len ext <= 2 /\
  forall p, read_nibble_ext nl (ext ++ p) = (x, p).
Proof.
  intros Hx. unfold nibble_tier.
  destruct (Z.ltb_spec x 13) as [H13|H13].
  - rewrite Z.mod_small by lia. repeat split; try (unfold len; simpl; lia).
    intros p. unfold read_nibble_ext.
    destruct (Z.ltb_spec x 13); [reflexivity|lia].
  - destruct (Z.ltb_spec x 269) as [H269|H269].
    + rewrite Z.mod_small by lia. repeat split; try (unfold len; simpl; lia).
      intros p. cbn [app]. rewrite read_nibble_ext_13. f_equal. lia.
    + repeat split; try (unfold len; simpl; lia).
      intros p. cbn [app]. rewrite read_nibble_ext_14.
      rewrite be16_bytes by lia. f_equal. lia.
Qed.

(** Encoding an option and decoding what was stored gives the delta and the
    length back, for every delta and length up to 269 + 65535. *)
Lemma add_option_decodes (cap last number : Z) (val tail : bytes) :
  0 <= number - last <= 65804 ->
  len val <= 65804 ->
  5 + len val <= cap ->
  let '(need, out, last') := add_option cap last number val in
  need = len out /\ last' = number /\
  decode_first_option (out ++ tail) =
    Some (number - last, len val, val ++ tail).
Proof.
  intros Hd Hl Hcap. rewrite add_option_tiers.
  rewrite to_int_small by (unfold INT_MIN, INT_MAX; lia).
  pose proof (len_nonneg val) as Hv.
  destruct (Z.ltb_spec cap 1); [lia|].
  pose proof (nibble_tier_decodes (number - last) Hd) as HD.
  pose proof (nibble_tier_decodes (len val) (conj Hv Hl)) as HL.
  destruct (nibble_tier (number - last)) as [dl dext].
  destruct (nibble_tier (len val)) as [ll lext].
  destruct HD as (Hdl & Hdn & HD), HL as (Hll & Hln & HL).
  cbv zeta.
  destruct (Z.ltb_spec cap (1 + len dext + len lext + len val)); [lia|].
  split; [|split; [reflexivity|]].
  - rewrite !len_app. change (len [_]) with 1. lia.
  - cbn [app decode_first_option]. unfold read_option_header.
    destruct (nibbles_of_header dl ll Hdl Hll) as [-> ->].
    rewrite <- !app_assoc, HD, HL. reflexivity.
Qed.

(** C6. Each of 12, 13, 268, 269 and 65536 + 268, used as the delta of an
    option (with a value of any length up to 65804) or as the length of its
    value (with any delta up to 65804), comes back from the nibble decoder
    after [add_option] has encoded it; the decoder is then positioned on
    the option value. *)
Theorem option_nibble_boundaries_roundtrip (v : Z) :
  In v boundary_values ->
  (forall cap last val tail,
      len val <= 65804 -> 5 + len val <= cap ->
      let '(_, out, _) := add_option cap last (last + v) val in
      decode_first_option (out ++ tail) = Some (v, len val, val ++ tail)) /\
  (forall cap last delta val tail,
      0 <= delta <= 65804 -> len val = v -> 5 + v <= cap ->
      let '(_, out, _) := add_option cap last (last + delta) val in
      decode_first_option (out ++ tail) = Some (delta, v, val ++ tail)).
Proof.
  intros Hv.
  assert (Hr : 0 <= v <= 65804).
  { unfold boundary_values in Hv. simpl in Hv.
    repeat (destruct Hv as [<-|Hv]; [lia|]). contradiction. }
  split.
  - intros cap last val tail Hl Hcap.
    pose proof (add_option_decodes cap last (last + v) val tail) as H.
    replace (last + v - last) with v in H by lia.
    destruct (add_option cap last (last + v) val) as [[need out] last'].
    apply H; lia.
  - intros cap last delta val tail Hd Hl Hcap.
    pose proof (add_option_decodes cap last (last + delta) val tail) as H.
    replace (last + delta - last) with delta in H by lia.
    destruct (add_option cap last (last + delta) val) as [[need out] last'].
    rewrite Hl in H. apply H; lia.
Qed.

Lemma option_nibble_boundaries_roundtrip_witness :
  In 269 boundary_values /\
  (forall cap last val tail,
      len val <= 65804 -> 5 + len val <= cap ->
      let '(_, out, _) := add_option cap last (last + 269) val in
      decode_first_option (out ++ tail) = Some (269, len val, val ++ tail)) /\
  (forall cap last delta val tail,
      0 <= delta <= 65804 -> len val = 269 -> 5 + 269 <= cap ->
      let '(_, out, _) := add_option cap last (last + delta) val in
      decode_first_option (out ++ tail) = Some (delta, 269, val ++ tail)).
Proof.
  assert (H : In 269 boundary_values) by (simpl; tauto).
  split; [exact H|].
  exact (option_nibble_boundaries_roundtrip 269 H).
Defined.

Example add_option_delta_65804 :
  add_option 16 0 65804 [7] = (4, [225; 255; 255; 7], 65804) /\
  decode_first_option [225; 255; 255; 7] = Some (65804, 1, [7]).
Proof. split; reflexivity. Qed.

Example add_option_length_13 :
  add_option 32 11 12 (repeat 7 13) = (15, 29 :: 0 :: repeat 7 13, 12) /\
  decode_first_option (29 :: 0 :: repeat 7 13) = Some (1, 13, repeat 7 13).
Proof. split; reflexivity. Qed.

(** ** C1: the error rows of the dispatch table *)

Lemma volatile_sensor_other_method (g : bytes) (req : coap_req_t) :
  uri_path req = str "sensor" ->
  code req <> COAP_GET -> code req <> COAP_PUT ->
  Volatile.dispatch g req =
    (g, COAP_405_METHODNA, str "METHOD_NOT_ALLOWED").
Proof.
  intros Hp Hg Hu. unfold Volatile.dispatch. rewrite Hp.
  change (bytes_eqb (str "sensor") (str "echo")) with false.
  change (bytes_eqb (str "sensor") (str "sensor")) with true.
  cbv iota. cbn [andb].
  destruct (Z.eqb_spec (code req) COAP_PUT); [contradiction|].
  destruct (Z.eqb_spec (code req) COAP_GET); [contradiction|].
  reflexivity.
Qed.

Lemma volatile_unknown_path (g : bytes) (req : coap_req_t) :
  uri_path req <> str "echo" -> uri_path req <> str "sensor" ->
  Volatile.dispatch g req = (g, COAP_404_NOTFOUND, str "NOT_FOUND").
Proof.
  intros He Hs. unfold Volatile.dispatch.
  rewrite (bytes_eqb_neq _ _ He), (bytes_eqb_neq _ _ Hs). reflexivity.
Qed.

Lemma persist_sensor_other_method
    (env : Persist.io_env) (fs : Persist.files) (req : coap_req_t) :
  uri_path req = str "sensor" ->
  code req <> COAP_GET -> code req <> COAP_PUT ->
  Persist.dispatch env fs req = (fs, COAP_404_NOTFOUND, str "NOT_FOUND").
Proof.
  intros Hp Hg Hu. unfold Persist.dispatch. rewrite Hp.
  change (bytes_eqb (str "sensor") (str "echo")) with false.
  destruct (Z.eqb_spec (code req) COAP_GET); [contradiction|].
  destruct (Z.eqb_spec (code req) COAP_PUT); [contradiction|].
  rewrite andb_false_r. reflexivity.
Qed.

Lemma persist_unknown_path
    (env : Persist.io_env) (fs : Persist.files) (req : coap_req_t) :
  uri_path req <> str "echo" -> uri_path req <> str "sensor" ->
  Persist.dispatch env fs req = (fs, COAP_404_NOTFOUND, str "NOT_FOUND").
Proof.
  intros He Hs. unfold Persist.dispatch.
  rewrite (bytes_eqb_neq _ _ He), (bytes_eqb_neq _ _ Hs).
  rewrite !andb_false_r. reflexivity.
Qed.

(** C1, as the code has it.  For every decoded request: in server.c a
    request for "sensor" whose method is neither GET nor PUT is answered
    4.05 with body "METHOD_NOT_ALLOWED"; server_persist_clean.c has no 4.05
    answer and gives such a request 4.04 with body "NOT_FOUND"; and in both
    servers a request whose path is neither "echo" nor "sensor" is answered
    4.04 with body "NOT_FOUND".  No state changes in any of these cases. *)
Theorem dispatch_error_rows
    (g : bytes) (env : Persist.io_env) (fs : Persist.files)
    (req : coap_req_t) :
  (uri_path req = str "sensor" ->
   code req <> COAP_GET -> code req <> COAP_PUT ->
   Volatile.dispatch g req =
     (g, COAP_405_METHODNA, str "METHOD_NOT_ALLOWED") /\
   Persist.dispatch env fs req =
     (fs, COAP_404_NOTFOUND, str "NOT_FOUND")) /\
  (uri_path req <> str "echo" -> uri_path req <> str "sensor" ->
   Volatile.dispatch g req = (g, COAP_404_NOTFOUND, str "NOT_FOUND") /\
   Persist.dispatch env fs req = (fs, COAP_404_NOTFOUND, str "NOT_FOUND")).
Proof.
  split.
  - intros Hp Hg Hu. split.
    + now apply volatile_sensor_other_method.
    + now apply persist_sensor_other_method.
  - intros He Hs. split.
    + now apply volatile_unknown_path.
    + now apply persist_unknown_path.
Qed.

Lemma dispatch_error_rows_witness :
  let delete := mk_req COAP_CON 0 4 7 [] (str "sensor") None in
  let unknown := mk_req COAP_CON 0 COAP_GET 8 [] (str "unknown") None in
  let env := Persist.mk_env (str "2024-01-02T03:04:05Z")
                            true Persist.Printed Persist.Closed
                            true Persist.Printed Persist.Closed in
  let fs := Persist.mk_files None None in
  let g := str "NO_DATA" in
  (Volatile.dispatch g delete =
     (g, COAP_405_METHODNA, str "METHOD_NOT_ALLOWED") /\
   Persist.dispatch env fs delete =
     (fs, COAP_404_NOTFOUND, str "NOT_FOUND")) /\
  (Volatile.dispatch g unknown = (g, COAP_404_NOTFOUND, str "NOT_FOUND") /\
   Persist.dispatch env fs unknown =
     (fs, COAP_404_NOTFOUND, str "NOT_FOUND")).
Proof.
  intros delete unknown env fs g. split.
  - apply (proj1 (dispatch_error_rows g env fs delete));
      [reflexivity | discriminate | discriminate].
  - apply (proj2 (dispatch_error_rows g env fs unknown)); discriminate.
Defined.

(** DELETE /sensor, as the persistent server decodes and answers it: the
    datagram is CON, message id 7, code 0.04, Uri-Path "sensor". *)
Lemma persist_delete_sensor_is_not_found :
  let inbuf := [64; 4; 0; 7; 182; 115; 101; 110; 115; 111; 114] in
  let env := Persist.mk_env (str "2024-01-01T00:00:00Z")
                            true Persist.Printed Persist.Closed
                            true Persist.Printed Persist.Closed in
  let fs := Persist.mk_files None None in
  exists req,
    Persist.coap_parse inbuf = Ok req /\
    uri_path req = str "sensor" /\
    code req <> COAP_GET /\ code req <> COAP_PUT /\
    Persist.dispatch env fs req = (fs, COAP_404_NOTFOUND, str "NOT_FOUND") /\
    Persist.dispatch env fs req <>
      (fs, COAP_405_METHODNA, str "METHOD_NOT_ALLOWED").
Proof.
  eexists. split; [vm_compute; reflexivity|].
  repeat split; try discriminate. 
Qed.

(** ** The option loop *)

Lemma read_nibble_ext_length (v : Z) (p p' : bytes) (x : Z) :
  read_nibble_ext v p = (x, p') -> (length p' <= length p)%nat.
Proof.
  unfold read_nibble_ext.
  destruct (v <? 13); [intros [= _ <-]; lia|].
  destruct (v =? 13).
  { destruct p as [|b p0]; intros [= _ <-]; simpl; lia. }
  destruct (v =? 14); [|intros [= _ <-]; lia].
  destruct p as [|b0 [|b1 p0]]; intros [= _ <-]; simpl; lia.
Qed.

Lemma read_option_header_length (b : byte) (p p2 : bytes) (d l : Z) :
  read_option_header b p = (d, l, p2) -> (length p2 <= length p)%nat.
Proof.
  unfold read_option_header.
  destruct (read_nibble_ext _ p) as [d' p1] eqn:E1.
  destruct (read_nibble_ext _ p1) as [l' p2'] eqn:E2.
  intros [= _ _ <-].
  apply read_nibble_ext_length in E1, E2. lia.
Qed.

Lemma read_nibble_ext_app (v : Z) (p p' t : bytes) (x : Z) :
  read_nibble_ext v p = (x, p') -> 0 <= x ->
  read_nibble_ext v (p ++ t) = (x, p' ++ t).
Proof.
  unfold read_nibble_ext.
  destruct (v <? 13); [intros [= <- <-]; reflexivity|].
  destruct (v =? 13).
  { destruct p as [|b p0]; intros [= <- <-]; [lia | reflexivity]. }
  destruct (v =? 14); [|intros [= <- <-]; lia].
  destruct p as [|b0 [|b1 p0]]; intros [= <- <-]; try lia; reflexivity.
Qed.

Lemma read_option_header_app (b : byte) (p p2 t : bytes) (d l : Z) :
  read_option_header b p = (d, l, p2) -> 0 <= d -> 0 <= l ->
  read_option_header b (p ++ t) = (d, l, p2 ++ t).
Proof.
  unfold read_option_header.
  destruct (read_nibble_ext _ p) as [d' p1] eqn:E1.
  destruct (read_nibble_ext _ p1) as [l' p2'] eqn:E2.
  intros [= -> -> ->] Hd Hl.
  rewrite (read_nibble_ext_app _ _ _ t _ E1 Hd).
  rewrite (read_nibble_ext_app _ _ _ t _ E2 Hl). reflexivity.
Qed.

Section OptionLoopFacts.

Variable append_segment : bytes -> bytes -> option bytes.

Let loop := option_loop append_segment.

Lemma option_loop_nil (fuel : nat) (last : Z) (path : bytes) :
  loop fuel [] last path = Ok (path, []).
Proof. destruct fuel; reflexivity. Qed.

Lemma option_loop_marker (fuel : nat) (p : bytes) (last : Z) (path : bytes) :
  loop fuel (PAYLOAD_MARKER :: p) last path = Ok (path, PAYLOAD_MARKER :: p).
Proof. destruct fuel; reflexivity. Qed.

Lemma option_loop_step (fuel : nat) (b : byte) (p0 : bytes) (last : Z)
    (path : bytes) :
  b <> PAYLOAD_MARKER ->
  loop (S fuel) (b :: p0) last path =
  let '(delta, optlen, p2) := read_option_header b p0 in
  if (delta <? 0) || (optlen <? 0) then Reject
  else
    if len p2 <? optlen then Reject
    else
      match (if last + delta =? OPT_URI_PATH
             then append_segment path (firstn (Z.to_nat optlen) p2)
             else Some path) with
      | None => Undefined
      | Some path' =>
          loop fuel (skipn (Z.to_nat optlen) p2) (last + delta) path'
      end.
Proof.
  intros Hb. unfold loop. cbn [option_loop].
  destruct (Z.eqb_spec b PAYLOAD_MARKER); [contradiction|].
  destruct (read_option_header b p0) as [[d l] p2]. reflexivity.
Qed.

(** [length p] iterations are enough: more fuel changes nothing. *)
Lemma option_loop_fuel (fuel fuel' : nat) (p : bytes) (last : Z)
    (path : bytes) :
  (length p <= fuel)%nat -> (length p <= fuel')%nat ->
  loop fuel p last path = loop fuel' p last path.
Proof.
  revert fuel' p last path.
  induction fuel as [|fuel IH]; intros fuel' p last path H1 H2.
  - destruct p; [|simpl in H1; lia]. now rewrite !option_loop_nil.
  - destruct p as [|b p0]; [now rewrite !option_loop_nil|].
    destruct (Z.eq_dec b PAYLOAD_MARKER) as [->|Hb];
      [now rewrite !option_loop_marker|].
    destruct fuel' as [|fuel']; [simpl in H2; lia|].
    rewrite !option_loop_step by assumption.
    destruct (read_option_header b p0) as [[d l] p2] eqn:E.
    apply read_option_header_length in E.
    destruct (_ || _); [reflexivity|].
    destruct (len p2 <? l); [reflexivity|].
    destruct (if last + d =? OPT_URI_PATH then _ else _); [|reflexivity].
    pose proof (length_skipn (Z.to_nat l) p2).
    simpl in H1, H2. apply IH; lia.
Qed.

(** With that fuel the loop never stops for lack of it: if appending a
    segment is defined, so is the loop. *)
Lemma option_loop_defined (fuel : nat) (p : bytes) (last : Z)
    (path : bytes) :
  (forall path seg, append_segment path seg <> None) ->
  (length p <= fuel)%nat ->
  loop fuel p last path <> Undefined.
Proof.
  intros Happ. revert p last path.
  induction fuel as [|fuel IH]; intros p last path Hlen.
  - destruct p; [|simpl in Hlen; lia]. now rewrite option_loop_nil.
  - destruct p as [|b p0]; [now rewrite option_loop_nil|].
    destruct (Z.eq_dec b PAYLOAD_MARKER) as [->|Hb];
      [now rewrite option_loop_marker|].
    rewrite option_loop_step by assumption.
    destruct (read_option_header b p0) as [[d l] p2] eqn:E.
    apply read_option_header_length in E.
    destruct (_ || _); [discriminate|].
    destruct (len p2 <? l); [discriminate|].
    assert (Hs : (length (skipn (Z.to_nat l) p2) <= fuel)%nat).
    { rewrite length_skipn. simpl in Hlen. lia. }
    destruct (last + d =? OPT_URI_PATH).
    + destruct (append_segment path (firstn (Z.to_nat l) p2)) eqn:Ea;
        [now apply IH | now apply Happ in Ea].
    + now apply IH.
Qed.

(** The loop stops at the end of the buffer or on a marker. *)
Lemma option_loop_stops (fuel : nat) (p : bytes) (last : Z)
    (path path' p' : bytes) :
  loop fuel p last path = Ok (path', p') ->
  p' = [] \/ exists rest, p' = PAYLOAD_MARKER :: rest.
Proof.
  revert p last path.
  induction fuel as [|fuel IH]; intros p last path.
  - destruct p as [|b p0]; [rewrite option_loop_nil; intros [= _ <-]; now left|].
    unfold loop. cbn [option_loop].
    destruct (Z.eqb_spec b PAYLOAD_MARKER) as [->|]; [|discriminate].
    intros [= _ <-]. right. now exists p0.
  - destruct p as [|b p0]; [rewrite option_loop_nil; intros [= _ <-]; now left|].
    destruct (Z.eq_dec b PAYLOAD_MARKER) as [->|Hb].
    { rewrite option_loop_marker. intros [= _ <-]. right. now exists p0. }
    rewrite option_loop_step by assumption.
    destruct (read_option_header b p0) as [[d l] p2].
    destruct (_ || _); [discriminate|].
    destruct (len p2 <? l); [discriminate|].
    destruct (if last + d =? OPT_URI_PATH then _ else _); [|discriminate].
    apply IH.
Qed.

(** A marker put after a buffer that the loop consumed entirely is where
    the loop stops. *)
Lemma option_loop_final_marker (fuel : nat) (p : bytes) (last : Z)
    (path path' : bytes) :
  loop fuel p last path = Ok (path', []) ->
  loop (S fuel) (p ++ [PAYLOAD_MARKER]) last path =
    Ok (path', [PAYLOAD_MARKER]).
Proof.
  revert p last path.
  induction fuel as [|fuel IH]; intros p last path.
  - destruct p as [|b p0]; [rewrite option_loop_nil; intros [= <-]; reflexivity|].
    unfold loop. cbn [option_loop].
    destruct (b =? PAYLOAD_MARKER); discriminate.
  - destruct p as [|b p0]; [rewrite option_loop_nil; intros [= <-]; reflexivity|].
    destruct (Z.eq_dec b PAYLOAD_MARKER) as [->|Hb].
    { rewrite option_loop_marker. discriminate. }
    cbn [app]. rewrite !option_loop_step by assumption.
    destruct (read_option_header b p0) as [[d l] p2] eqn:E.
    destruct (Z.ltb_spec d 0) as [|Hd]; [discriminate|].
    destruct (Z.ltb_spec l 0) as [|Hl]; [discriminate|].
    cbn [orb].
    destruct (Z.ltb_spec (len p2) l) as [|Hlen]; [discriminate|].
    rewrite (read_option_header_app _ _ _ [PAYLOAD_MARKER] _ _ E Hd Hl).
    change ((d <? 0) || (l <? 0)) with (orb (d <? 0) (l <? 0)).
    destruct (Z.ltb_spec d 0); [lia|]. destruct (Z.ltb_spec l 0); [lia|].
    cbn [orb].
    rewrite len_app.
    destruct (Z.ltb_spec (len p2 + len [PAYLOAD_MARKER]) l);
      [unfold len in *; simpl in *; lia|].
    assert (Hn : (Z.to_nat l <= length p2)%nat) by (unfold len in Hlen; lia).
    rewrite firstn_app, skipn_app.
    replace (Z.to_nat l - length p2)%nat with 0%nat by lia.
    cbn [firstn skipn]. rewrite app_nil_r.
    destruct (if last + d =? OPT_URI_PATH then _ else _); [|discriminate].
    apply IH.
Qed.

End OptionLoopFacts.

(** ** A marker put after a decoded buffer *)

Section FinalMarker.

Variable append_segment : bytes -> bytes -> option bytes.

Lemma nth_app_front (i : nat) (pre t : bytes) :
  (i < length pre)%nat -> nth i (pre ++ t) 0 = nth i pre 0.
Proof. intros H. now apply app_nth1. Qed.

Lemma skipn_app_front (n : nat) (l t : bytes) :
  (n <= length l)%nat -> skipn n (l ++ t) = skipn n l ++ t.
Proof.
  intros H. rewrite skipn_app.
  replace (n - length l)%nat with 0%nat by lia. reflexivity.
Qed.

Lemma firstn_app_front (n : nat) (l t : bytes) :
  (n <= length l)%nat -> firstn n (l ++ t) = firstn n l.
Proof.
  intros H. rewrite firstn_app.
  replace (n - length l)%nat with 0%nat by lia.
  rewrite firstn_O. apply app_nil_r.
Qed.

Lemma coap_parse_with_final_marker (pre : bytes) (r : coap_req_t) :
  coap_parse_with append_segment pre = Ok r ->
  payload r = None ->
  coap_parse_with append_segment (pre ++ [PAYLOAD_MARKER]) =
    Ok (mk_req (type r) (tkl r) (code r) (mid r) (token r) (uri_path r)
               (Some [])).
Proof.
  unfold coap_parse_with.
  destruct (Z.ltb_spec (len pre) 4) as [|H4]; [discriminate|].
  assert (H4' : (4 <= length pre)%nat) by (unfold len in H4; lia).
  rewrite len_app.
  destruct (Z.ltb_spec (len pre + len [PAYLOAD_MARKER]) 4) as [Hc|_];
    [change (len [PAYLOAD_MARKER]) with 1 in Hc; lia|].
  rewrite !nth_app_front by lia.
  destruct (negb _); [discriminate|].
  set (k := Z.land (nth 0 pre 0) 15).
  destruct (Z.ltb_spec (len pre) (4 + k)) as [|Hk]; [discriminate|].
  destruct (Z.ltb_spec 8 k) as [|Hk8]; [discriminate|].
  cbn [orb].
  destruct (Z.ltb_spec (len pre + len [PAYLOAD_MARKER]) (4 + k)) as [Hc|_];
    [change (len [PAYLOAD_MARKER]) with 1 in Hc; lia|].
  cbn [orb].
  assert (Hk0 : 0 <= k) by (apply Z.land_nonneg; right; lia).
  assert (Hkn : (4 + Z.to_nat k <= length pre)%nat)
    by (unfold len in Hk; lia).
  rewrite !skipn_app_front by lia.
  rewrite firstn_app_front by (rewrite length_skipn; lia).
  set (p := skipn (4 + Z.to_nat k) pre).
  rewrite length_app. change (length [PAYLOAD_MARKER]) with 1%nat.
  rewrite Nat.add_1_r.
  destruct (option_loop append_segment (length p) p 0 [])
    as [[path p']| |] eqn:E; try discriminate.
  intros [= <-] Hpl. cbn [payload] in Hpl.
  destruct (option_loop_stops _ _ _ _ _ _ _ E) as [->|[rest ->]].
  - rewrite (option_loop_final_marker _ _ _ _ _ _ E). reflexivity.
  - change (PAYLOAD_MARKER =? PAYLOAD_MARKER) with true in Hpl.
    discriminate.
Qed.

End FinalMarker.

(** The smallest instance: a header and a marker. *)
Example parse_header_and_marker :
  Volatile.coap_parse [64; 1; 0; 0; 255] =
    Ok (mk_req 0 0 1 0 [] [] (Some [])) /\
  Persist.coap_parse [64; 1; 0; 0; 255] =
    Ok (mk_req 0 0 1 0 [] [] (Some [])).
Proof. split; reflexivity. Qed.

(** A last byte 0xFF that is the value of an option is not a marker: the
    payload is then absent, and an option that announces more bytes than
    are left is still an error. *)
Example parse_last_byte_inside_option :
  Volatile.coap_parse [64; 1; 0; 0; 17; 255] =
    Ok (mk_req 0 0 1 0 [] [] None) /\
  Volatile.coap_parse [64; 1; 0; 0; 18; 255] = Reject.
Proof. split; reflexivity. Qed.

(** The persistent server's decoder, whose segment append is bounded,
    always returns: 0 or -1. *)
Lemma persist_coap_parse_returns (buf : bytes) :
  Persist.coap_parse buf <> Undefined.
Proof.
  unfold Persist.coap_parse, coap_parse_with.
  destruct (len buf <? 4); [discriminate|].
  destruct (negb _); [discriminate|].
  destruct (_ || _); [discriminate|].
  match goal with
  | |- context [option_loop ?a ?f ?p ?l ?q] =>
      pose proof (option_loop_defined a f p l q) as H;
      destruct (option_loop a f p l q) as [[path p']| |]
  end; try discriminate.
  exfalso. apply H; [discriminate | apply Nat.le_refl | reflexivity].
Qed.

(** ** C2: what the client builds, the servers decode *)

Lemma land_15_small (l : Z) : 0 <= l < 16 -> Z.land l 15 = l.
Proof.
  intros H. change 15 with (Z.ones 4). rewrite Z.land_ones by lia.
  apply Z.mod_small. change (2 ^ 4) with 16. lia.
Qed.

Lemma to_nat_len (s : bytes) : Z.to_nat (len s) = length s.
Proof. unfold len. apply Nat2Z.id. Qed.

Lemma addOpt_short (last number : Z) (val : bytes) :
  0 <= number - last <= 12 -> len val <= 12 ->
  Client.addOpt last number val (len val mod 256) =
    ((Z.lor (Z.shiftl (number - last) 4) (len val)) mod 256 :: val, number).
Proof.
  intros Hd Hl. pose proof (len_nonneg val) as H0.
  unfold Client.addOpt.
  rewrite (Z.mod_small (number - last)) by lia.
  rewrite (Z.mod_small (len val)) by lia.
  rewrite land_15_small by lia.
  rewrite to_nat_len, firstn_all. reflexivity.
Qed.

Section ShortOptions.

Variable append_segment : bytes -> bytes -> option bytes.

(** What both servers do with a segment as long as [uri_path] has room. *)
Hypothesis append_segment_joins : forall path seg,
  Forall (fun c => c <> 0) path -> Forall (fun c => c <> 0) seg ->
  len path + len seg < 127 ->
  append_segment path seg = Some (join_segment path seg).

(** One option whose delta and length both fit their nibble. *)
Lemma option_loop_short_option (fuel : nat) (d : Z) (val rest : bytes)
    (last : Z) (path : bytes) :
  0 <= d <= 12 -> len val <= 12 ->
  (length (val ++ rest) < fuel)%nat ->
  option_loop append_segment fuel
    ((Z.lor (Z.shiftl d 4) (len val)) mod 256 :: val ++ rest) last path =
  match (if last + d =? OPT_URI_PATH
         then append_segment path val else Some path) with
  | None => Undefined
  | Some path' =>
      option_loop append_segment (length rest) rest (last + d) path'
  end.
Proof.
  intros Hd Hl Hfuel. pose proof (len_nonneg val) as H0.
  destruct fuel as [|fuel]; [lia|].
  destruct (nibbles_of_header d (len val)) as [Hn1 Hn2]; [lia|lia|].
  rewrite option_loop_step.
  2:{ intros Hb. rewrite Hb in Hn2. change (Z.land PAYLOAD_MARKER 15) with 15 in Hn2. lia. }
  unfold read_option_header. rewrite Hn1, Hn2.
  unfold read_nibble_ext.
  destruct (Z.ltb_spec d 13); [|lia].
  destruct (Z.ltb_spec (len val) 13); [|lia].
  destruct (Z.ltb_spec d 0); [lia|].
  destruct (Z.ltb_spec (len val) 0); [lia|].
  cbn [orb]. rewrite len_app.
  destruct (Z.ltb_spec (len val + len rest) (len val));
    [pose proof (len_nonneg rest); lia|].
  rewrite !to_nat_len.
  rewrite firstn_app_front, firstn_all by lia.
  rewrite skipn_app, skipn_all, Nat.sub_diag. cbn [skipn app].
  destruct (if last + d =? OPT_URI_PATH then _ else _); [|reflexivity].
  apply option_loop_fuel; [|lia].
  rewrite length_app in Hfuel. lia.
Qed.

Lemma be16_of_msgId (msgId : Z) :
  0 <= msgId < 65536 ->
  (Z.shiftr msgId 8) mod 256 = Z.shiftr msgId 8 /\
  (Z.land msgId 255) mod 256 = Z.land msgId 255 /\
  Z.lor (Z.shiftl (Z.shiftr msgId 8) 8) (Z.land msgId 255) mod 65536 = msgId.
Proof.
  intros H.
  assert (H8 : 0 <= Z.shiftr msgId 8 < 256).
  { rewrite Z.shiftr_div_pow2 by lia. change (2 ^ 8) with 256.
    split; [apply Z.div_pos; lia | apply Z.div_lt_upper_bound; lia]. }
  assert (Hl : 0 <= Z.land msgId 255 < 256).
  { change 255 with (Z.ones 8). rewrite Z.land_ones by lia.
    apply Z.mod_pos_bound. reflexivity. }
  repeat split; [now apply Z.mod_small | now apply Z.mod_small |].
  pose proof (be16_bytes msgId H) as E.
  change 255 with (Z.ones 8) in E at 1.
  rewrite (Z.land_ones (Z.shiftr msgId 8)) in E by lia.
  change (2 ^ 8) with 256 in E. rewrite (Z.mod_small _ _ H8) in E.
  rewrite E. now apply Z.mod_small.
Qed.

Lemma join_segment_cstring (path seg : bytes) :
  Forall (fun c => c <> 0) path -> Forall (fun c => c <> 0) seg ->
  Forall (fun c => c <> 0) (join_segment path seg).
Proof.
  intros Hp Hs. unfold join_segment.
  destruct seg as [|c seg]; [assumption|].
  destruct path as [|c' path]; [assumption|].
  apply Forall_app. split; [assumption|].
  apply Forall_app. split; [|assumption].
  repeat constructor. discriminate.
Qed.

Lemma coap_parse_with_frame (b0 b1 b2 b3 : byte) (tok p : bytes) :
  Z.land (Z.shiftr b0 6) 3 = COAP_VER ->
  Z.land b0 15 = len tok -> len tok <= 8 ->
  coap_parse_with append_segment (b0 :: b1 :: b2 :: b3 :: tok ++ p) =
  match option_loop append_segment (length p) p 0 [] with
  | Ok (path, p') =>
      Ok (mk_req (Z.land (Z.shiftr b0 4) 3) (len tok) b1
                 ((Z.lor (Z.shiftl b2 8) b3) mod 65536) tok path
                 match p' with
                 | b :: rest =>
                     if b =? PAYLOAD_MARKER then Some rest else None
                 | [] => None
                 end)
  | Reject => Reject
  | Undefined => Undefined
  end.
Proof.
  intros Hver Htkl H8. unfold coap_parse_with.
  pose proof (len_nonneg tok) as Ht. pose proof (len_nonneg p) as Hp.
  rewrite !len_cons, len_app.
  destruct (Z.ltb_spec (1 + (1 + (1 + (1 + (len tok + len p))))) 4); [lia|].
  cbn [nth]. rewrite Hver, Htkl.
  change (negb (COAP_VER =? COAP_VER)) with false. cbv iota.
  destruct (Z.ltb_spec (1 + (1 + (1 + (1 + (len tok + len p)))))
                       (4 + len tok)); [lia|].
  destruct (Z.ltb_spec 8 (len tok)); [lia|].
  cbn [orb]. rewrite to_nat_len.
  change (skipn 4 (b0 :: b1 :: b2 :: b3 :: tok ++ p)) with (tok ++ p).
  change (skipn (4 + length tok) (b0 :: b1 :: b2 :: b3 :: tok ++ p))
    with (skipn (length tok) (tok ++ p)).
  rewrite firstn_app_front, firstn_all by lia.
  rewrite skipn_app, skipn_all, Nat.sub_diag. reflexivity.
Qed.

Lemma buildPost_unfold (path1 path2 : option bytes) (json : bytes)
    (msgId : Z) :
  Client.buildPost path1 path2 json msgId =
  let cs1 := client_segment 0 (seg_of path1) in
  let cs2 := client_segment (snd cs1) (seg_of path2) in
  66 :: 2 :: (Z.shiftr msgId 8) mod 256 :: (Z.land msgId 255) mod 256 ::
    [(Z.shiftr msgId 8) mod 256; (Z.land msgId 255) mod 256] ++
    (fst cs1 ++ fst cs2 ++
     fst (Client.addOpt (snd cs2) 12 [50] 1) ++ PAYLOAD_MARKER :: json).
Proof.
  destruct path1 as [[|c1 t1]|], path2 as [[|c2 t2]|]; reflexivity.
Qed.

(** The loop over what the client emits for one path argument. *)
Lemma option_loop_client_segment (fuel : nat) (last : Z) (s rest path : bytes) :
  last = 0 \/ last = 11 ->
  short_segment s ->
  Forall (fun c => c <> 0) path -> len path + len s < 127 ->
  (length (fst (client_segment last s) ++ rest) <= fuel)%nat ->
  option_loop append_segment fuel
              (fst (client_segment last s) ++ rest) last path =
  option_loop append_segment (length rest) rest
              (snd (client_segment last s)) (join_segment path s) /\
  (snd (client_segment last s) = 0 \/ snd (client_segment last s) = 11).
Proof.
  intros Hlast [Hl Hc] Hp Hroom Hfuel.
  destruct s as [|c t] eqn:Es.
  - cbn [client_segment fst snd app] in *. split; [|assumption].
    unfold join_segment. apply option_loop_fuel; lia.
  - rewrite <- Es in *. assert (Hne : s <> []) by (subst s; discriminate).
    assert (Ecs : client_segment last s =
                  ((Z.lor (Z.shiftl (11 - last) 4) (len s)) mod 256 :: s, 11)).
    { subst s. unfold client_segment. apply addOpt_short; [lia|assumption]. }
    rewrite Ecs in *. cbn [fst snd app] in *. split; [|now right].
    rewrite option_loop_short_option by (cbn [length] in Hfuel; lia).
    replace (last + (11 - last)) with OPT_URI_PATH by (unfold OPT_URI_PATH; lia).
    change (OPT_URI_PATH =? OPT_URI_PATH) with true. cbv iota.
    rewrite append_segment_joins by assumption. reflexivity.
Qed.

(** The loop over the Content-Format option that closes the options. *)
Lemma option_loop_client_cf (fuel : nat) (last : Z) (json path : bytes) :
  last = 0 \/ last = 11 ->
  (length (fst (Client.addOpt last 12 [50%Z] 1%Z) ++ PAYLOAD_MARKER :: json)
     <= fuel)%nat ->
  option_loop append_segment fuel
    (fst (Client.addOpt last 12 [50] 1) ++ PAYLOAD_MARKER :: json) last path
  = Ok (path, PAYLOAD_MARKER :: json).
Proof.
  intros Hlast Hfuel.
  assert (E : Client.addOpt last 12 [50] 1 =
              ((Z.lor (Z.shiftl (12 - last) 4) (len [50])) mod 256 :: [50],
               12))
    by (destruct Hlast; subst last; reflexivity).
  rewrite E in *. cbn [fst] in *.
  change ((?b :: [50]) ++ ?r) with (b :: [50] ++ r) in *.
  rewrite option_loop_short_option;
    [ | lia | change (len [50]) with 1; lia | cbn [length app] in *; lia ].
  replace (last + (12 - last) =? OPT_URI_PATH) with false
    by (unfold OPT_URI_PATH; symmetry; apply Z.eqb_neq; lia).
  apply option_loop_marker.
Qed.

Lemma join_segment_grows (path seg : bytes) :
  len path <= len (join_segment path seg).
Proof.
  unfold join_segment. pose proof (len_nonneg seg).
  destruct seg as [|c seg]; [lia|].
  destruct path as [|c' path]; [change (len []) with 0; lia|].
  rewrite !len_app. change (len [SLASH]) with 1. lia.
Qed.

Lemma fold_join_grows (segs : list bytes) (path : bytes) :
  len path <= len (fold_left join_segment segs path).
Proof.
  revert path. induction segs as [|s segs IH]; intros path; [cbn; lia|].
  cbn [fold_left]. pose proof (join_segment_grows path s).
  specialize (IH (join_segment path s)). lia.
Qed.

(** The loop over what the client emits for a list of path arguments. *)
Lemma option_loop_client_segments (segs : list bytes) :
  forall (fuel : nat) (last : Z) (rest path : bytes),
    last = 0 \/ last = 11 ->
    Forall short_segment segs ->
    Forall (fun c => c <> 0) path ->
    len (fold_left join_segment segs path) <= 127 ->
    (length (fst (client_segments last segs) ++ rest) <= fuel)%nat ->
    option_loop append_segment fuel
                (fst (client_segments last segs) ++ rest) last path =
    option_loop append_segment (length rest) rest
                (snd (client_segments last segs))
                (fold_left join_segment segs path) /\
    (snd (client_segments last segs) = 0 \/
     snd (client_segments last segs) = 11).
Proof.
  induction segs as [|s segs IH];
    intros fuel last rest path Hlast Hsegs Hpath Hroom Hfuel.
  - cbn [client_segments fst snd app fold_left] in *.
    split; [apply option_loop_fuel; lia | assumption].
  - apply Forall_cons_iff in Hsegs. destruct Hsegs as [Hs Hsegs].
    cbn [fold_left] in Hroom.
    assert (Hs1 : len path + len s < 127 \/ s = []).
    { destruct s as [|c t]; [now right|]. left.
      destruct Hs as [Hl _].
      destruct path as [|c' path']; [change (len []) with 0; lia|].
      pose proof (fold_join_grows segs (join_segment (c' :: path') (c :: t)))
        as Hg.
      change (join_segment (c' :: path') (c :: t))
        with ((c' :: path') ++ [SLASH] ++ c :: t) in Hg at 1.
      rewrite !len_app in Hg. change (len [SLASH]) with 1 in Hg. lia. }
    cbn [client_segments] in *.
    destruct (client_segment last s) as [o last1] eqn:E1.
    destruct (client_segments last1 segs) as [os last2] eqn:E2.
    cbn [fst snd] in *. rewrite <- app_assoc in *.
    assert (Hstep :
              option_loop append_segment fuel (o ++ os ++ rest) last path =
              option_loop append_segment (length (os ++ rest)) (os ++ rest)
                          last1 (join_segment path s) /\
              (last1 = 0 \/ last1 = 11)).
    { destruct Hs1 as [Hs1| ->].
      - pose proof (option_loop_client_segment fuel last s (os ++ rest) path
                      Hlast Hs Hpath Hs1) as H.
        rewrite E1 in H. cbn [fst snd] in H. apply H. exact Hfuel.
      - cbn [client_segment] in E1. injection E1 as <- <-.
        cbn [app] in *. unfold join_segment.
        split; [apply option_loop_fuel; lia | assumption]. }
    destruct Hstep as [-> Hlast1].
    pose proof (IH (length (os ++ rest)) last1 rest (join_segment path s)
                   Hlast1 Hsegs) as H.
    rewrite E2 in H. cbn [fst snd] in H. apply H.
    + apply join_segment_cstring; [assumption | apply Hs].
    + assumption.
    + apply Nat.le_refl.
Qed.

(** The header byte of a request gives its three fields back. *)
Lemma request_header_byte (ty k : Z) :
  0 <= ty <= 3 -> 0 <= k <= 15 ->
  let b0 := (Z.lor (Z.lor (Z.shiftl 1 6) (Z.shiftl ty 4)) k) mod 256 in
  Z.land (Z.shiftr b0 6) 3 = COAP_VER /\
  Z.land (Z.shiftr b0 4) 3 = ty /\
  Z.land b0 15 = k.
Proof.
  intros Hty Hk.
  assert (Hk' : In k (map Z.of_nat (seq 0 16))).
  { replace k with (Z.of_nat (Z.to_nat k)) by lia. apply in_map, in_seq. lia. }
  assert (Hty' : ty = 0 \/ ty = 1 \/ ty = 2 \/ ty = 3) by lia.
  destruct Hty' as [->|[->|[->| ->]]]; cbn [map seq] in Hk';
    repeat (destruct Hk' as [<-|Hk']; [repeat split; reflexivity|]);
    contradiction.
Qed.

Lemma build_request_unfold (ty method : Z) (tok : bytes) (msgId : Z)
    (segs : list bytes) (payload : bytes) :
  build_request ty method tok msgId segs payload =
  (Z.lor (Z.lor (Z.shiftl 1 6) (Z.shiftl ty 4)) (len tok)) mod 256 ::
  method :: (Z.shiftr msgId 8) mod 256 :: (Z.land msgId 255) mod 256 ::
  tok ++
  (fst (client_segments 0 segs) ++
   fst (Client.addOpt (snd (client_segments 0 segs)) 12 [50] 1) ++
   PAYLOAD_MARKER :: payload).
Proof.
  unfold build_request.
  destruct (client_segments 0 segs) as [opts last].
  cbn [fst snd Client.addOpt app]. reflexivity.
Qed.

Lemma build_request_decodes (ty method : Z) (tok : bytes) (msgId : Z)
    (segs : list bytes) (payload : bytes) :
  0 <= ty <= 3 -> len tok <= 8 -> 0 <= msgId < 65536 ->
  Forall short_segment segs -> len (joined_path segs) <= 127 ->
  coap_parse_with append_segment
                  (build_request ty method tok msgId segs payload) =
    Ok (mk_req ty (len tok) method msgId tok (joined_path segs)
               (Some payload)).
Proof.
  intros Hty Htok Hm Hsegs Hroom.
  pose proof (len_nonneg tok) as Ht0.
  destruct (be16_of_msgId msgId Hm) as (Ehi & Elo & Emid).
  destruct (request_header_byte ty (len tok)) as (Hver & Htype & Htkl);
    [lia | lia |].
  rewrite build_request_unfold, Ehi, Elo.
  rewrite coap_parse_with_frame by assumption.
  edestruct (option_loop_client_segments segs) as [-> Hlast];
    [ left; reflexivity | exact Hsegs | constructor | exact Hroom
    | apply Nat.le_refl | ].
  rewrite option_loop_client_cf by (auto using Nat.le_refl).
  change (PAYLOAD_MARKER =? PAYLOAD_MARKER) with true. cbv iota.
  rewrite Htype, Emid. reflexivity.
Qed.

End ShortOptions.

Lemma volatile_append_joins (path seg : bytes) :
  Forall (fun c => c <> 0) path -> Forall (fun c => c <> 0) seg ->
  len path + len seg < 127 ->
  Volatile.uri_path_append path seg = Some (join_segment path seg).
Proof.
  intros Hp Hs Hroom. unfold Volatile.uri_path_append, join_segment.
  pose proof (len_nonneg path) as H0.
  destruct seg as [|c seg]; [reflexivity|].
  rewrite len_cons in *. pose proof (len_nonneg seg) as H1.
  destruct (Z.ltb_spec 0 (1 + len seg)); [|lia].
  rewrite (cstr_no_nul _ Hs).
  destruct path as [|c' path].
  - change (negb (bytes_eqb [] []) && (len [] <? 127)) with false. cbv iota.
    cbn [app]. rewrite len_cons.
    destruct (Z.ltb_spec (1 + len seg) 128); [reflexivity|lia].
  - rewrite bytes_eqb_neq by discriminate.
    destruct (Z.ltb_spec (len (c' :: path)) 127); [|lia].
    cbn [negb andb]. rewrite <- app_assoc.
    set (p := c' :: path) in *.
    match goal with
    | |- context [?a <? 128] =>
        destruct (Z.ltb_spec a 128) as [|Hbig]; [reflexivity|]
    end.
    rewrite !len_app, !len_cons in Hbig. change (len []) with 0 in Hbig. lia.
Qed.

Lemma persist_append_joins (path seg : bytes) :
  Forall (fun c => c <> 0) path -> Forall (fun c => c <> 0) seg ->
  len path + len seg < 127 ->
  Some (Persist.append_uri_segment path seg) = Some (join_segment path seg).
Proof.
  intros Hp Hs Hroom. f_equal.
  unfold Persist.append_uri_segment, join_segment.
  pose proof (len_nonneg path) as H0.
  destruct seg as [|c seg]; [reflexivity|].
  set (s := c :: seg) in *.
  assert (Hpos : 0 < len s)
    by (subst s; rewrite len_cons; pose proof (len_nonneg seg); lia).
  destruct (Z.eqb_spec (len s) 0); [lia|].
  destruct path as [|c' path].
  - change (negb (bytes_eqb [] []) && (len [] <? 128 - 1)) with false.
    cbv iota. change (len []) with 0 in *.
    destruct (Z.leb_spec 128 (0 + len s)); [lia|].
    rewrite to_nat_len, firstn_all. cbn [app]. now apply cstr_no_nul.
  - rewrite bytes_eqb_neq by discriminate.
    destruct (Z.ltb_spec (len (c' :: path)) (128 - 1)); [|lia].
    cbn [negb andb].
    destruct (Z.leb_spec 128 (len (c' :: path) + 1 + len s)); [lia|].
    rewrite to_nat_len, firstn_all, <- app_assoc.
    apply cstr_no_nul. apply Forall_app. split; [assumption|].
    constructor; [discriminate | assumption].
Qed.

Lemma buildPost_is_build_request (path1 path2 : option bytes) (json : bytes)
    (msgId : Z) :
  0 <= msgId < 65536 ->
  Client.buildPost path1 path2 json msgId =
  build_request COAP_CON COAP_POST [Z.shiftr msgId 8; Z.land msgId 255]
                msgId [seg_of path1; seg_of path2] json.
Proof.
  intros Hm. destruct (be16_of_msgId msgId Hm) as (Ehi & Elo & _).
  rewrite buildPost_unfold, build_request_unfold. cbv zeta.
  rewrite Ehi, Elo. cbn [client_segments].
  destruct (client_segment 0 (seg_of path1)) as [o1 l1]. cbn [fst snd].
  destruct (client_segment l1 (seg_of path2)) as [o2 l2]. cbn [fst snd].
  rewrite app_nil_r, <- !app_assoc. reflexivity.
Qed.




(** A segment of 16 characters: the nibble is 0, the segment is read as
    further options, and the decoded path is empty. *)
Example client_post_segment_16_lost :
  let dgram :=
    Client.buildPost (Some (str "aaaaaaaaaaaaaaaa")) (Some (str "x"))
                     (str "{}") 4660 in
  Volatile.coap_parse dgram =
    Ok (mk_req COAP_CON 2 COAP_POST 4660 [18; 52] [] (Some (str "{}"))).
Proof. reflexivity. Qed.

(** ** C3: the two writes of the persistent store *)

Lemma stored_prefix (r : Persist.fprintf_result) (c : Persist.fclose_result)
    (data : bytes) :
  exists k, Persist.stored r c data = firstn k data.
Proof.
  destruct r as [|k], c as [|j]; cbn [Persist.stored].
  - exists (length data). now rewrite firstn_all.
  - now exists j.
  - now exists k.
  - exists (Nat.min j k). apply firstn_firstn.
Qed.

Lemma stored_all (r : Persist.fprintf_result) (c : Persist.fclose_result)
    (data : bytes) :
  Persist.printed r = true -> Persist.closed c = true ->
  Persist.stored r c data = data.
Proof. destruct r, c; try discriminate. reflexivity. Qed.

Lemma attempted_here (f : Persist.file_id) (ok : bool)
    (tr : list Persist.io_event) :
  In (Persist.EvFopen f ok) tr -> attempted f tr.
Proof. intros H. now exists ok. Qed.

Ltac not_attempted :=
  let ok := fresh "ok" in
  let H := fresh "H" in
  intros [ok H]; cbn [In app] in H;
  repeat (destruct H as [H|H]; [discriminate|]); exact H.

Ltac stored_is_prefix :=
  match goal with
  | |- exists k, Some (_ ++ Persist.stored ?r ?c ?d) = _ =>
      let k := fresh "k" in
      destruct (stored_prefix r c d) as [k ->]; now exists k
  | |- exists k, Some (Persist.stored ?r ?c ?d) = _ =>
      let k := fresh "k" in
      destruct (stored_prefix r c d) as [k ->]; now exists k
  end.

(** C3, as the code has it.  [write_current_and_history] always attempts
    the overwrite of the current-state file, and attempts the append to the
    history log exactly when [fopen] and [fprintf] reported success for the
    overwrite.  It returns -1 exactly when [fopen] or [fprintf] reported a
    failure for a write that it attempted, and 0 otherwise: what [fclose]
    reports plays no part.  The files afterwards: the current-state file is
    untouched when it could not be opened, and otherwise holds a prefix of
    the new line, the whole line when the write succeeded up to [fclose] -
    whatever happens to the append (no rollback); the history log is
    untouched when the append was not attempted or the log could not be
    opened, and otherwise grows by a prefix of the new entry, the whole
    entry when that write succeeded up to [fclose]. *)
Theorem write_current_then_history
    (env : Persist.io_env) (fs : Persist.files) (value : bytes) :
  let '(rc, fs', tr) := Persist.write_current_and_history env fs value in
  let cur_line := value ++ [LF] in
  let hist_line := Persist.iso env ++ str " payload=" ++ value ++ [LF] in
  (attempted Persist.CurrentFile tr /\
   (attempted Persist.HistoryFile tr <-> current_calls_ok env = true)) /\
  ((rc = 0 \/ rc = -1) /\
   (rc = -1 <->
      current_calls_ok env = false \/ history_calls_ok env = false)) /\
  ((Persist.fopen_current env = false ->
      Persist.CURR fs' = Persist.CURR fs) /\
   (Persist.fopen_current env = true ->
      exists k, Persist.CURR fs' = Some (firstn k cur_line)) /\
   (current_write_ok env = true -> Persist.CURR fs' = Some cur_line)) /\
  ((current_calls_ok env = false \/ Persist.fopen_history env = false ->
      Persist.DATA fs' = Persist.DATA fs) /\
   (current_calls_ok env = true -> Persist.fopen_history env = true ->
      exists k,
        Persist.DATA fs' =
          Some (Persist.file_contents (Persist.DATA fs) ++
                firstn k hist_line)) /\
   (current_calls_ok env = true -> history_write_ok env = true ->
      Persist.DATA fs' =
        Some (Persist.file_contents (Persist.DATA fs) ++ hist_line))).
Proof.
  unfold Persist.write_current_and_history, current_write_ok,
    history_write_ok, current_calls_ok, history_calls_ok.
  destruct (Persist.fopen_current env).
  2:{ cbn [negb andb]. cbv zeta.
      repeat split; intros; try discriminate; auto;
        try solve [ eapply attempted_here; left; reflexivity
                  | exfalso; revert H; not_attempted ]. }
  destruct (Persist.printed (Persist.fprintf_current env)) eqn:Pc.
  2:{ cbn [negb andb]. cbv zeta. cbn [Persist.CURR Persist.DATA].
      repeat split; intros; try discriminate; auto;
        try solve [ eapply attempted_here; left; reflexivity
                  | exfalso; revert H; not_attempted
                  | stored_is_prefix ]. }
  destruct (Persist.fopen_history env).
  2:{ cbn [negb andb]. cbv zeta. cbn [Persist.CURR Persist.DATA].
      repeat split; intros; try discriminate; auto;
        try solve [ eapply attempted_here; left; reflexivity
                  | eapply attempted_here; cbn [app In]; do 3 right; left;
                    reflexivity
                  | exfalso; revert H; not_attempted
                  | stored_is_prefix
                  | now rewrite stored_all ]. }
  destruct (Persist.printed (Persist.fprintf_history env)) eqn:Ph;
    cbn [negb andb]; cbv zeta; cbn [Persist.CURR Persist.DATA];
    repeat split; intros; try discriminate; auto;
      try solve [ eapply attempted_here; left; reflexivity
                | eapply attempted_here; cbn [app In]; do 3 right; left;
                  reflexivity
                | destruct H; discriminate
                | stored_is_prefix
                | now rewrite stored_all
                | now rewrite !stored_all ].
Qed.

Lemma write_current_then_history_witness :
  let env := Persist.mk_env (str "2024-01-02T03:04:05Z")
                            true Persist.Printed Persist.Closed
                            false Persist.Printed Persist.Closed in
  let fs := Persist.mk_files (Some (str "5" ++ [LF])) None in
  current_write_ok env = true /\
  Persist.CURR (snd (fst (Persist.write_current_and_history env fs (str "7"))))
    = Some (str "7" ++ [LF]) /\
  fst (fst (Persist.write_current_and_history env fs (str "7"))) = -1.
Proof.
  intros env fs.
  pose proof (write_current_then_history env fs (str "7")) as H.
  destruct (Persist.write_current_and_history env fs (str "7"))
    as [[rc fs'] tr].
  destruct H as (_ & (_ & Hrc) & (_ & _ & Hcur) & _).
  split; [reflexivity|]. split.
  - apply Hcur. reflexivity.
  - apply Hrc. right. reflexivity.
Defined.

(** Two calls that the claim as written does not allow.  When the
    current-state file cannot be opened, the append is not attempted and the
    history log is left alone.  And when every [fopen] and [fprintf]
    succeeds but nothing reaches the disk at [fclose], both writes have
    failed - both files are empty - and the function returns 0. *)
Lemma write_skips_append_and_misses_fclose :
  let fs := Persist.mk_files (Some (str "5" ++ [LF])) (Some []) in
  (let env := Persist.mk_env (str "2024-01-01T00:00:00Z")
                             false Persist.Printed Persist.Closed
                             true Persist.Printed Persist.Closed in
   let '(rc, fs', tr) := Persist.write_current_and_history env fs (str "7") in
   rc = -1 /\ fs' = fs /\
   tr = [Persist.EvFopen Persist.CurrentFile false] /\
   ~ attempted Persist.HistoryFile tr) /\
  (let env := Persist.mk_env (str "2024-01-01T00:00:00Z")
                             true Persist.Printed (Persist.CloseFailed 0)
                             true Persist.Printed (Persist.CloseFailed 0) in
   let '(rc, fs', tr) := Persist.write_current_and_history env fs (str "7") in
   rc = 0 /\ fs' = Persist.mk_files (Some []) (Some []) /\
   attempted Persist.CurrentFile tr /\ attempted Persist.HistoryFile tr).
Proof.
  cbn. repeat split.
  - intros [ok H]. simpl in H. destruct H as [H|[]]. discriminate.
  - exists true. simpl. auto.
  - exists true. simpl. auto 10.
Qed.

(** No rollback: the overwrite stays when the append fails. *)
Example write_history_failure_keeps_current :
  let env := Persist.mk_env (str "2024-01-01T00:00:00Z")
                            true Persist.Printed Persist.Closed
                            false Persist.Printed Persist.Closed in
  let fs := Persist.mk_files (Some (str "5" ++ [LF])) None in
  fst (Persist.write_current_and_history env fs (str "7")) =
    (-1, Persist.mk_files (Some (str "7" ++ [LF])) None).
Proof. reflexivity. Qed.

(** A partial flush: [fclose] wrote two of the four characters of the new
    line, and the call still returns 0. *)
Example write_partial_flush_returns_0 :
  let env := Persist.mk_env (str "2024-01-01T00:00:00Z")
                            true Persist.Printed (Persist.CloseFailed 2)
                            true Persist.Printed Persist.Closed in
  let fs := Persist.mk_files None None in
  fst (Persist.write_current_and_history env fs (str "7.5")) =
    (0, Persist.mk_files
          (Some (str "7."))
          (Some (str "2024-01-01T00:00:00Z payload=7.5" ++ [LF]))).
Proof. reflexivity. Qed.

(** ** The last line of a file *)

Lemma is_crlf_true (c : byte) :
  Persist.is_crlf c = true <-> c = LF \/ c = CR.
Proof.
  unfold Persist.is_crlf. rewrite orb_true_iff, !Z.eqb_eq. reflexivity.
Qed.

Lemma drop_crlf_blank_app (t x : bytes) :
  blank t -> Persist.drop_crlf (t ++ x) = Persist.drop_crlf x.
Proof.
  induction 1 as [|c t Hc _ IH]; [reflexivity|].
  cbn [app Persist.drop_crlf].
  apply is_crlf_true in Hc. now rewrite Hc.
Qed.

Lemma blank_rev (t : bytes) : blank t -> blank (rev t).
Proof. unfold blank. apply Forall_rev. Qed.

Lemma rstrip_app_blank (l t : bytes) :
  blank t -> Persist.rstrip (l ++ t) = Persist.rstrip l.
Proof.
  intros Ht. unfold Persist.rstrip.
  now rewrite rev_app_distr, drop_crlf_blank_app by now apply blank_rev.
Qed.

Lemma rstrip_blank (t : bytes) : blank t -> Persist.rstrip t = [].
Proof. intros Ht. now rewrite <- (app_nil_l t), rstrip_app_blank. Qed.

Lemma blank_cstring (t : bytes) : blank t -> Forall (fun c => c <> 0) t.
Proof.
  apply Forall_impl. intros c [->| ->]; discriminate.
Qed.

Lemma fgets_chars_split (k : nat) (f ch r : bytes) :
  Persist.fgets_chars k f = (ch, r) -> f = ch ++ r.
Proof.
  revert f ch r. induction k as [|k IH]; intros f ch r.
  - destruct f; intros [= <- <-]; reflexivity.
  - destruct f as [|c f]; [intros [= <- <-]; reflexivity|].
    cbn [Persist.fgets_chars].
    destruct (c =? LF); [intros [= <- <-]; reflexivity|].
    destruct (Persist.fgets_chars k f) as [l r'] eqn:E.
    intros [= <- <-]. cbn [app]. f_equal. now apply IH.
Qed.

Lemma fgets_chars_progress (k : nat) (c : byte) (f ch r : bytes) :
  Persist.fgets_chars (S k) (c :: f) = (ch, r) ->
  (length r <= length f)%nat.
Proof.
  cbn [Persist.fgets_chars].
  destruct (c =? LF); [intros [= _ <-]; lia|].
  destruct (Persist.fgets_chars k f) as [l r'] eqn:E.
  intros [= _ <-]. apply fgets_chars_split in E.
  subst f. rewrite length_app. lia.
Qed.

(** Reading across a line that fits the buffer takes the whole line and
    possibly some of what follows. *)
Lemma fgets_chars_line (k : nat) (l t : bytes) :
  Forall (fun c => c <> LF /\ c <> 0) l -> (length l <= k)%nat ->
  exists t1 t2,
    Persist.fgets_chars k (l ++ t) = (l ++ t1, t2) /\ t = t1 ++ t2.
Proof.
  intros Hl. revert k.
  induction Hl as [|c l [Hc _] _ IH]; intros k Hk.
  - cbn [app]. destruct (Persist.fgets_chars k t) as [ch r] eqn:E.
    exists ch, r. split; [reflexivity|]. now apply fgets_chars_split in E.
  - destruct k as [|k]; [simpl in Hk; lia|].
    cbn [app Persist.fgets_chars].
    destruct (Z.eqb_spec c LF); [contradiction|].
    destruct (IH k) as (t1 & t2 & E & Ht); [simpl in Hk; lia|].
    rewrite E. now exists t1, t2.
Qed.

(** Reading from a line start inside [pre] stays inside [pre] and ends at a
    line start again. *)
Lemma fgets_chars_within (k : nat) (q tail : bytes) :
  exists ch r,
    Persist.fgets_chars (S k) ((q ++ [LF]) ++ tail) = (ch, r ++ tail) /\
    line_start r /\ (length r <= length q)%nat.
Proof.
  revert k. induction q as [|c q IH]; intros k.
  - exists [LF], []. repeat split; [now left | simpl; lia].
  - cbn [app Persist.fgets_chars].
    destruct (c =? LF).
    + exists [c], (q ++ [LF]).
      repeat split; [right; now exists q | rewrite length_app; simpl; lia].
    + destruct k as [|k].
      * cbn [Persist.fgets_chars]. exists [c], (q ++ [LF]).
        repeat split; [right; now exists q | rewrite length_app; simpl; lia].
      * destruct (IH k) as (ch & r & E & Hr & Hlen).
        rewrite E. exists (c :: ch), r. repeat split; [assumption|simpl; lia].
Qed.

Lemma read_lines_nil (fuel : nat) (last : bytes) :
  Persist.read_lines fuel [] last = last.
Proof. destruct fuel; reflexivity. Qed.

Lemma read_lines_cons (fuel : nat) (c : byte) (f last : bytes) :
  Persist.read_lines (S fuel) (c :: f) last =
  let '(ch, r) := Persist.fgets_chars 2047 (c :: f) in
  let line := Persist.rstrip (cstr ch) in
  Persist.read_lines fuel r
    (if bytes_eqb line [] then last else snprintf_s 2048 line).
Proof.
  cbn [Persist.read_lines Persist.fgets].
  change (2048 - 1)%nat with 2047%nat.
  destruct (Persist.fgets_chars 2047 (c :: f)) as [ch r]. reflexivity.
Qed.

(** [length f] iterations read the whole file. *)
Lemma read_lines_fuel (fuel fuel' : nat) (f last : bytes) :
  (length f <= fuel)%nat -> (length f <= fuel')%nat ->
  Persist.read_lines fuel f last = Persist.read_lines fuel' f last.
Proof.
  revert fuel' f last.
  induction fuel as [|fuel IH]; intros fuel' f last H1 H2.
  - destruct f; [|simpl in H1; lia]. now rewrite !read_lines_nil.
  - destruct f as [|c f]; [now rewrite !read_lines_nil|].
    destruct fuel' as [|fuel']; [simpl in H2; lia|].
    rewrite !read_lines_cons.
    destruct (Persist.fgets_chars 2047 (c :: f)) as [ch r] eqn:E.
    apply fgets_chars_progress in E. simpl in H1, H2.
    apply IH; lia.
Qed.

(** Empty lines leave [last] as it is. *)
Lemma read_lines_blank (fuel : nat) (t last : bytes) :
  blank t -> Persist.read_lines fuel t last = last.
Proof.
  revert t last. induction fuel as [|fuel IH]; intros t last Ht;
    [reflexivity|].
  destruct t as [|c t]; [reflexivity|].
  rewrite read_lines_cons.
  destruct (Persist.fgets_chars 2047 (c :: t)) as [ch r] eqn:E.
  apply fgets_chars_split in E. rewrite E in Ht.
  apply Forall_app in Ht. destruct Ht as [Hch Hr].
  cbv zeta. rewrite (cstr_no_nul _ (blank_cstring _ Hch)).
  rewrite (rstrip_blank _ Hch), bytes_eqb_refl. now apply IH.
Qed.

(** Everything before a line start is read without touching what follows. *)
Lemma read_lines_skip (n : nat) :
  forall pre tail last,
    (length pre <= n)%nat -> line_start pre ->
    exists last',
      Persist.read_lines (length (pre ++ tail)) (pre ++ tail) last =
      Persist.read_lines (length tail) tail last'.
Proof.
  induction n as [|n IH]; intros pre tail last Hn Hpre.
  - destruct pre; [|simpl in Hn; lia]. now exists last.
  - destruct Hpre as [->|[q ->]]; [now exists last|].
    destruct (fgets_chars_within 2046 q tail) as (ch & r & E & Hr & Hlen).
    assert (Hc : exists c f, (q ++ [LF]) ++ tail = c :: f)
      by (destruct q; cbn; eauto).
    destruct Hc as (c & f & Ecf).
    assert (Hlenf : length ((q ++ [LF]) ++ tail) = S (length f))
      by now rewrite Ecf.
    rewrite Hlenf. rewrite Ecf in *. rewrite read_lines_cons, E.
    cbv zeta.
    rewrite length_app in Hn. simpl in Hn.
    destruct (IH r tail
                (if bytes_eqb (Persist.rstrip (cstr ch)) [] then last
                 else snprintf_s 2048 (Persist.rstrip (cstr ch))))
      as [last' E']; [lia | assumption |].
    exists last'. rewrite <- E'.
    apply read_lines_fuel; [|lia].
    apply (f_equal (@length byte)) in Ecf.
    rewrite !length_app in *. simpl in *. lia.
Qed.

(** [rstrip] leaves a string that does not end in CR or LF as it is. *)
Lemma rstrip_id (l : bytes) :
  (forall u c, l = u ++ [c] -> c <> LF /\ c <> CR) -> Persist.rstrip l = l.
Proof.
  intros H. unfold Persist.rstrip.
  destruct (rev l) as [|c w] eqn:E; [now rewrite <- (rev_involutive l), E|].
  assert (El : l = rev w ++ [c]) by now rewrite <- (rev_involutive l), E.
  destruct (H _ _ El) as [H1 H2].
  cbn [Persist.drop_crlf]. unfold Persist.is_crlf.
  destruct (Z.eqb_spec c LF); [contradiction|].
  destruct (Z.eqb_spec c CR); [contradiction|].
  cbn [orb]. now rewrite <- E, rev_involutive.
Qed.

Lemma stripped_line_rstrip (l : bytes) :
  stripped_line l -> Persist.rstrip l = l.
Proof.
  intros (_ & Hl & Hcr). apply rstrip_id. intros u c E. split.
  - rewrite E in Hl. apply Forall_app in Hl. destruct Hl as [_ Hl].
    inversion Hl as [|? ? [Hc _] _]. exact Hc.
  - intros ->. exact (Hcr u E).
Qed.

Lemma stripped_line_app_blank (l t : bytes) :
  stripped_line l -> blank t ->
  Persist.rstrip (cstr (l ++ t)) = l.
Proof.
  intros Hsl Ht. pose proof Hsl as (Hne & Hl & _).
  rewrite cstr_no_nul.
  - rewrite rstrip_app_blank by assumption. now apply stripped_line_rstrip.
  - apply Forall_app. split; [|now apply blank_cstring].
    eapply Forall_impl; [|exact Hl]. now intros c [_ H].
Qed.

Lemma read_lines_step (f last : bytes) :
  f <> [] ->
  Persist.read_lines (length f) f last =
  let '(ch, r) := Persist.fgets_chars 2047 f in
  let line := Persist.rstrip (cstr ch) in
  Persist.read_lines (length r) r
    (if bytes_eqb line [] then last else snprintf_s 2048 line).
Proof.
  destruct f as [|c f]; [contradiction|]. intros _.
  cbn [length]. rewrite read_lines_cons.
  destruct (Persist.fgets_chars 2047 (c :: f)) as [ch r] eqn:E.
  apply fgets_chars_progress in E.
  apply read_lines_fuel; lia.
Qed.

(** The loop of [read_last_line] ends with the last non-empty line. *)
Lemma read_lines_last_line (content l : bytes) :
  last_line_is content l -> (length l <= 2047)%nat ->
  Persist.read_lines (length content) content [] = l.
Proof.
  intros (pre & trailer & -> & Hpre & Hl & Ht) Hlen.
  destruct (read_lines_skip (length pre) pre (l ++ trailer) []
                            (Nat.le_refl _) Hpre) as [last' ->].
  pose proof Hl as (Hne & Hchars & Hs).
  rewrite read_lines_step by (destruct l; [contradiction | discriminate]).
  destruct (fgets_chars_line 2047 l trailer Hchars Hlen) as (t1 & t2 & E & Et).
  rewrite E. cbv zeta.
  rewrite Et in Ht. apply Forall_app in Ht. destruct Ht as [Ht1 Ht2].
  rewrite stripped_line_app_blank by assumption.
  rewrite bytes_eqb_neq by assumption.
  rewrite read_lines_blank by assumption.
  apply snprintf_s_fits. lia.
Qed.

Lemma read_last_line_last (content l : bytes) :
  last_line_is content l -> (length l <= 2047)%nat ->
  Persist.read_last_line (Some content) 2048 = Some l.
Proof.
  intros H Hlen. unfold Persist.read_last_line.
  rewrite (read_lines_last_line _ _ H Hlen).
  destruct H as (_ & _ & _ & _ & (Hne & _) & _).
  rewrite bytes_eqb_neq by assumption.
  f_equal. apply snprintf_s_fits. lia.
Qed.

Lemma read_last_line_none (file : option bytes) :
  no_line file -> Persist.read_last_line file 2048 = None.
Proof.
  destruct file as [f|]; [|reflexivity].
  intros H. unfold Persist.read_last_line.
  now rewrite read_lines_blank.
Qed.

(** ** [strstr] and [extract_state] *)

Lemma is_prefix_app (a b : bytes) : Persist.is_prefix a (a ++ b) = true.
Proof.
  induction a as [|x a IH]; [reflexivity|].
  cbn [app Persist.is_prefix]. now rewrite Z.eqb_refl.
Qed.

Lemma is_prefix_true (a s : bytes) :
  Persist.is_prefix a s = true -> exists b, s = a ++ b.
Proof.
  revert s. induction a as [|x a IH]; intros s; [now exists s|].
  destruct s as [|y s]; [discriminate|].
  cbn [Persist.is_prefix]. rewrite andb_true_iff, Z.eqb_eq.
  intros [-> H]. destruct (IH _ H) as [b ->]. now exists b.
Qed.

Lemma strstr_none (hay needle : bytes) :
  ~ contains needle hay -> Persist.strstr hay needle = None.
Proof.
  unfold contains. induction hay as [|c hay IH]; intros H.
  - cbn [Persist.strstr].
    destruct (Persist.is_prefix needle []) eqn:E; [|reflexivity].
    apply is_prefix_true in E. destruct E as [b E].
    exfalso. apply H. exists [], b. exact E.
  - cbn [Persist.strstr].
    destruct (Persist.is_prefix needle (c :: hay)) eqn:E.
    + apply is_prefix_true in E. destruct E as [b E].
      exfalso. apply H. exists [], b. exact E.
    + apply IH. intros (a & b & ->). apply H. now exists (c :: a), b.
Qed.

(** The first occurrence is the one that no 'p' precedes. *)
Lemma strstr_payload_tag (pre val : bytes) :
  Forall (fun c => c <> 112) pre ->
  Persist.strstr (pre ++ str "payload=" ++ val) (str "payload=") =
    Some (str "payload=" ++ val).
Proof.
  induction 1 as [|c pre Hc _ IH].
  - cbn [app]. destruct (str "payload=" ++ val) as [|x s] eqn:E;
      [discriminate|].
    cbn [Persist.strstr]. rewrite <- E. now rewrite is_prefix_app.
  - cbn [app Persist.strstr].
    change (str "payload=") with (112 :: str "ayload=") at 1.
    cbn [Persist.is_prefix].
    destruct (Z.eqb_spec 112 c); [congruence|]. cbn [andb]. exact IH.
Qed.

Lemma extract_state_no_tag (l : bytes) :
  ~ contains (str "payload=") l -> (length l < 2048)%nat ->
  Persist.extract_state l 2048 = l.
Proof.
  intros H Hlen. unfold Persist.extract_state.
  change (2048 =? 0)%nat with false. cbv iota.
  rewrite strstr_none by assumption. now apply snprintf_s_fits.
Qed.

Lemma extract_state_history_entry (ts val : bytes) :
  iso_timestamp ts -> (length val < 2048)%nat ->
  Persist.extract_state (history_entry ts val) 2048 = val.
Proof.
  intros [_ Hts] Hlen. unfold Persist.extract_state, history_entry.
  change (2048 =? 0)%nat with false. cbv iota.
  change (str " payload=") with ([32] ++ str "payload=").
  rewrite <- app_assoc, (app_assoc ts [32]).
  rewrite strstr_payload_tag.
  - rewrite skipn_app, skipn_all, Nat.sub_diag. cbn [app skipn].
    now apply snprintf_s_fits.
  - apply Forall_app. split; [|repeat constructor; discriminate].
    eapply Forall_impl; [|exact Hts]. intros c Hc. cbv beta in Hc. lia.
Qed.

(** ** GET /sensor on the persistent store *)

Section PersistGet.

Variables (env : Persist.io_env) (fs : Persist.files) (req : coap_req_t).
Hypothesis req_get : code req = COAP_GET.
Hypothesis req_sensor : uri_path req = str "sensor".

Lemma persist_get_unfold :
  Persist.dispatch env fs req =
  match Persist.read_last_line (Persist.CURR fs) 2048 with
  | Some line => (fs, COAP_205_CONTENT, snprintf_s 1200 line)
  | None =>
    match Persist.read_last_line (Persist.DATA fs) 2048 with
    | Some line =>
        (fs, COAP_205_CONTENT,
         snprintf_s 1200 (Persist.extract_state line 2048))
    | None => (fs, COAP_205_CONTENT, str "NO_DATA")
    end
  end.
Proof.
  unfold Persist.dispatch. rewrite req_get, req_sensor. reflexivity.
Qed.

Lemma persist_get_current (content l : bytes) :
  Persist.CURR fs = Some content -> last_line_is content l ->
  (length l < 1200)%nat ->
  Persist.dispatch env fs req = (fs, COAP_205_CONTENT, l).
Proof.
  intros Hc Hl Hlen. rewrite persist_get_unfold, Hc.
  rewrite (read_last_line_last _ _ Hl) by lia.
  now rewrite snprintf_s_fits.
Qed.

Lemma persist_get_history (content l : bytes) :
  no_line (Persist.CURR fs) ->
  Persist.DATA fs = Some content -> last_line_is content l ->
  (length l <= 2047)%nat ->
  Persist.dispatch env fs req =
    (fs, COAP_205_CONTENT, snprintf_s 1200 (Persist.extract_state l 2048)).
Proof.
  intros Hn Hc Hl Hlen. rewrite persist_get_unfold.
  rewrite (read_last_line_none _ Hn), Hc.
  now rewrite (read_last_line_last _ _ Hl) by lia.
Qed.

Lemma persist_get_no_data :
  no_line (Persist.CURR fs) -> no_line (Persist.DATA fs) ->
  Persist.dispatch env fs req = (fs, COAP_205_CONTENT, str "NO_DATA").
Proof.
  intros Hc Hd. rewrite persist_get_unfold.
  now rewrite (read_last_line_none _ Hc), (read_last_line_none _ Hd).
Qed.

Lemma persist_get_code :
  snd (fst (Persist.dispatch env fs req)) = COAP_205_CONTENT /\
  fst (fst (Persist.dispatch env fs req)) = fs.
Proof.
  rewrite persist_get_unfold.
  destruct (Persist.read_last_line (Persist.CURR fs) 2048);
    [split; reflexivity|].
  destruct (Persist.read_last_line (Persist.DATA fs) 2048);
    split; reflexivity.
Qed.

End PersistGet.

(** GET /sensor answers with at most 1199 characters: [resp] has 1200. *)
Lemma persist_get_current_cut
    (env : Persist.io_env) (fs : Persist.files) (req : coap_req_t)
    (content l : bytes) :
  code req = COAP_GET -> uri_path req = str "sensor" ->
  Persist.CURR fs = Some content -> last_line_is content l ->
  (length l <= 2047)%nat ->
  Persist.dispatch env fs req = (fs, COAP_205_CONTENT, firstn 1199 l).
Proof.
  intros Hg Hs Hc Hl Hlen. rewrite persist_get_unfold by assumption.
  rewrite Hc, (read_last_line_last _ _ Hl) by lia. reflexivity.
Qed.

Lemma persist_get_history_cut
    (env : Persist.io_env) (fs : Persist.files) (req : coap_req_t)
    (content l : bytes) :
  code req = COAP_GET -> uri_path req = str "sensor" ->
  no_line (Persist.CURR fs) ->
  Persist.DATA fs = Some content -> last_line_is content l ->
  (length l <= 2047)%nat ->
  Persist.dispatch env fs req =
    (fs, COAP_205_CONTENT, firstn 1199 (Persist.extract_state l 2048)).
Proof.
  intros Hg Hs Hn Hd Hl Hlen.
  now rewrite (persist_get_history env fs req Hg Hs content l Hn Hd Hl Hlen).
Qed.

Lemma history_entry_length (ts value : bytes) :
  length (history_entry ts value) = (length ts + 9 + length value)%nat.
Proof.
  unfold history_entry. rewrite !length_app.
  change (length (str " payload=")) with 9%nat. lia.
Qed.

(** C5, as the code has it.  GET /sensor on the persistent server always
    answers 2.05 and leaves the files alone.  Take text files whose last
    non-empty line holds no NUL and at most 2047 characters, the room of
    [line[2048]].  The body is then the last non-empty line of the
    current-state file, without its line end, when there is one; otherwise,
    when the last non-empty line of the history log is an entry
    "<timestamp> payload=<value>", it is <value>; and when neither file has
    a line it is "NO_DATA".  In each case the body is cut to the 1199
    characters that [resp[1200]] holds, so that a line or value is returned
    whole exactly when it is shorter than 1200 characters. *)
Theorem read_current_cascade
    (env : Persist.io_env) (fs : Persist.files) (req : coap_req_t) :
  code req = COAP_GET -> uri_path req = str "sensor" ->
  (snd (fst (Persist.dispatch env fs req)) = COAP_205_CONTENT /\
   fst (fst (Persist.dispatch env fs req)) = fs) /\
  (forall content l,
      Persist.CURR fs = Some content -> last_line_is content l ->
      (length l <= 2047)%nat ->
      Persist.dispatch env fs req = (fs, COAP_205_CONTENT, firstn 1199 l) /\
      ((length l < 1200)%nat ->
       Persist.dispatch env fs req = (fs, COAP_205_CONTENT, l))) /\
  (forall content ts value,
      no_line (Persist.CURR fs) ->
      Persist.DATA fs = Some content ->
      last_line_is content (history_entry ts value) ->
      iso_timestamp ts ->
      (length (history_entry ts value) <= 2047)%nat ->
      Persist.dispatch env fs req =
        (fs, COAP_205_CONTENT, firstn 1199 value) /\
      ((length value < 1200)%nat ->
       Persist.dispatch env fs req = (fs, COAP_205_CONTENT, value))) /\
  (no_line (Persist.CURR fs) -> no_line (Persist.DATA fs) ->
   Persist.dispatch env fs req = (fs, COAP_205_CONTENT, str "NO_DATA")).
Proof.
  intros Hg Hs. split; [now apply persist_get_code|].
  split; [|split; [|now apply persist_get_no_data]].
  - intros content l Hc Hl Hlen.
    rewrite (persist_get_current_cut env fs req content l) by assumption.
    split; [reflexivity|]. intros Hshort.
    rewrite firstn_all2 by lia. reflexivity.
  - intros content ts value Hn Hd Hl Hts Hlen.
    rewrite (persist_get_history_cut env fs req content _ Hg Hs Hn Hd Hl Hlen).
    rewrite history_entry_length in Hlen.
    rewrite extract_state_history_entry by (assumption || lia).
    split; [reflexivity|]. intros Hshort.
    rewrite firstn_all2 by lia. reflexivity.
Qed.

Ltac not_ending_in_cr :=
  let u := fresh "u" in
  let E := fresh "E" in
  intros u E; apply (f_equal (@rev byte)) in E;
  rewrite rev_app_distr in E; simpl in E; discriminate E.

Ltac concrete_blank :=
  repeat (apply Forall_cons;
          [solve [left; reflexivity | right; reflexivity]|]);
  apply Forall_nil.

Ltac concrete_line :=
  split; [discriminate|];
  split; [repeat constructor; discriminate | not_ending_in_cr].

Lemma read_current_cascade_witness :
  let env := Persist.mk_env (str "2024-01-02T03:04:05Z")
                            true Persist.Printed Persist.Closed
                            true Persist.Printed Persist.Closed in
  let req := mk_req COAP_CON 0 COAP_GET 7 [] (str "sensor") None in
  let fs1 := Persist.mk_files (Some (str "7" ++ [CR; LF; LF])) None in
  let fs2 := Persist.mk_files
               (Some [LF])
               (Some (str "2024-01-01T00:00:00Z payload=5" ++ [LF])) in
  Persist.dispatch env fs1 req = (fs1, COAP_205_CONTENT, str "7") /\
  Persist.dispatch env fs2 req = (fs2, COAP_205_CONTENT, str "5").
Proof.
  intros env req fs1 fs2.
  destruct (read_current_cascade env fs1 req eq_refl eq_refl)
    as (_ & H1 & _ & _).
  destruct (read_current_cascade env fs2 req eq_refl eq_refl)
    as (_ & _ & H2 & _).
  split.
  - apply (H1 (str "7" ++ [CR; LF; LF]) (str "7"));
      [reflexivity | | simpl; lia | simpl; lia].
    exists [], [CR; LF; LF]. split; [reflexivity|].
    split; [now left|]. split; [concrete_line|].
    concrete_blank.
  - apply (H2 (str "2024-01-01T00:00:00Z payload=5" ++ [LF])
              (str "2024-01-01T00:00:00Z") (str "5")).
    + unfold no_line, fs2, Persist.CURR. concrete_blank.
    + reflexivity.
    + exists [], [LF]. split; [reflexivity|].
      split; [now left|]. split; [concrete_line|].
      concrete_blank.
    + split; [simpl; lia|].
      simpl (str _).
      repeat (apply Forall_cons; [lia|]). apply Forall_nil.
    + simpl; lia.
    + simpl; lia.
Defined.

(** Three current-state files whose last line GET /sensor does not return:
    a line of 1500 characters is answered with its first 1199; a line with
    a NUL inside is answered up to the NUL; and of a line of 2052
    characters, which [fgets] reads in two pieces, the second piece is
    answered. *)
Lemma get_sensor_cuts_the_last_line :
  let env := Persist.mk_env (str "2024-01-02T03:04:05Z")
                            true Persist.Printed Persist.Closed
                            true Persist.Printed Persist.Closed in
  let req := mk_req COAP_CON 0 COAP_GET 7 [] (str "sensor") None in
  let answer content :=
    snd (Persist.dispatch env (Persist.mk_files (Some content) None) req) in
  answer (repeat 97 1500 ++ [LF]) = repeat 97 1199 /\
  answer (str "ab" ++ [0] ++ str "cd" ++ [LF]) = str "ab" /\
  answer (repeat 97 2047 ++ str "bcdef" ++ [LF]) = str "bcdef".
Proof. vm_compute. repeat split. Qed.

(** ** C10: empty lines at the end, and history lines without the tag *)

Lemma last_line_is_app_blank (content l empty : bytes) :
  last_line_is content l -> blank empty -> last_line_is (content ++ empty) l.
Proof.
  intros (pre & trailer & -> & Hpre & Hl & Ht) He.
  exists pre, (trailer ++ empty). repeat split; try assumption.
  - now rewrite <- !app_assoc.
  - apply Hl.
  - apply Hl.
  - apply Hl.
  - now apply Forall_app.
Qed.

(** C10, as the code has it.  Take a text file whose last non-empty line
    holds no NUL and at most 2047 characters, the room of [line[2048]].
    [read_last_line] returns that line, without its CR/LF, and empty lines
    after it change nothing; and when that line of the history log does not
    contain "payload=" (the current-state file having no line),
    [extract_state] keeps the whole line and GET /sensor answers 2.05 with
    it, cut to the 1199 characters that [resp[1200]] holds - the whole line
    when it is shorter than 1200 characters. *)
Theorem read_last_line_skips_empty_lines :
  (forall content l,
      last_line_is content l -> (length l <= 2047)%nat ->
      Persist.read_last_line (Some content) 2048 = Some l /\
      forall empty,
        blank empty ->
        Persist.read_last_line (Some (content ++ empty)) 2048 = Some l) /\
  (forall env fs req content l,
      code req = COAP_GET -> uri_path req = str "sensor" ->
      no_line (Persist.CURR fs) ->
      Persist.DATA fs = Some content -> last_line_is content l ->
      ~ contains (str "payload=") l -> (length l <= 2047)%nat ->
      Persist.extract_state l 2048 = l /\
      Persist.dispatch env fs req = (fs, COAP_205_CONTENT, firstn 1199 l) /\
      ((length l < 1200)%nat ->
       Persist.dispatch env fs req = (fs, COAP_205_CONTENT, l))).
Proof.
  split.
  - intros content l Hl Hlen. split; [now apply read_last_line_last|].
    intros empty He. apply read_last_line_last; [|assumption].
    now apply last_line_is_app_blank.
  - intros env fs req content l Hg Hs Hn Hd Hl Htag Hlen.
    assert (E : Persist.extract_state l 2048 = l)
      by (apply extract_state_no_tag; [assumption|lia]).
    split; [exact E|].
    rewrite (persist_get_history_cut env fs req content l Hg Hs Hn Hd Hl Hlen).
    rewrite E. split; [reflexivity|]. intros Hshort.
    rewrite firstn_all2 by lia. reflexivity.
Qed.

Lemma read_last_line_skips_empty_lines_witness :
  let content := str "first" ++ [LF] ++ str "no tag here" ++ [CR; LF; LF; CR; LF] in
  let fs := Persist.mk_files None (Some content) in
  let env := Persist.mk_env (str "2024-01-02T03:04:05Z")
                            true Persist.Printed Persist.Closed
                            true Persist.Printed Persist.Closed in
  let req := mk_req COAP_CON 0 COAP_GET 7 [] (str "sensor") None in
  last_line_is content (str "no tag here") /\
  Persist.read_last_line (Some content) 2048 = Some (str "no tag here") /\
  Persist.dispatch env fs req = (fs, COAP_205_CONTENT, str "no tag here").
Proof.
  intros content fs env req.
  assert (Hl : last_line_is content (str "no tag here")).
  { exists (str "first" ++ [LF]), [CR; LF; LF; CR; LF].
    split; [reflexivity|].
    split; [right; now exists (str "first")|].
    split; [concrete_line|]. concrete_blank. }
  assert (Hlen : (length (str "no tag here") <= 2047)%nat) by (simpl; lia).
  assert (Htag : ~ contains (str "payload=") (str "no tag here")).
  { intros (a & b & E).
    assert (Hs : Persist.strstr (str "no tag here") (str "payload=") = None)
      by reflexivity.
    rewrite E in Hs.
    clear E. induction a as [|x a IH].
    - cbn [app] in Hs.
      destruct (str "payload=" ++ b) as [|y s] eqn:Eb; [discriminate|].
      cbn [Persist.strstr] in Hs. rewrite <- Eb, is_prefix_app in Hs.
      discriminate.
    - cbn [app Persist.strstr] in Hs.
      destruct (Persist.is_prefix _ _); [discriminate|]. now apply IH. }
  split; [exact Hl|].
  destruct read_last_line_skips_empty_lines as [H1 H2].
  split; [exact (proj1 (H1 content _ Hl Hlen))|].
  apply (H2 env fs req content (str "no tag here"));
    try reflexivity; try assumption; simpl; lia.
Defined.

(** Three files whose last non-empty line [read_last_line] does not return
    whole: of a line of 2052 characters, which [fgets] reads in two pieces,
    it returns the second piece; a line with a NUL inside is returned up to
    the NUL; and a history line of 1500 characters without "payload=" is
    answered by GET /sensor with its first 1199 characters. *)
Lemma read_last_line_cuts_the_line :
  let env := Persist.mk_env (str "2024-01-02T03:04:05Z")
                            true Persist.Printed Persist.Closed
                            true Persist.Printed Persist.Closed in
  let req := mk_req COAP_CON 0 COAP_GET 7 [] (str "sensor") None in
  Persist.read_last_line
    (Some (repeat 97 2047 ++ str "bcdef" ++ [LF; LF])) 2048 =
    Some (str "bcdef") /\
  Persist.read_last_line
    (Some (str "ab" ++ [0] ++ str "cd" ++ [LF; LF])) 2048 =
    Some (str "ab") /\
  snd (Persist.dispatch env
         (Persist.mk_files None (Some (repeat 120 1500 ++ [LF; LF]))) req) =
    repeat 120 1199.
Proof. vm_compute. repeat split. Qed.

(** ** C4: a stored value is what GET /sensor returns *)

Lemma volatile_readonly (g : bytes) (req : coap_req_t) :
  volatile_writes req = false -> fst (fst (Volatile.dispatch g req)) = g.
Proof.
  unfold volatile_writes, Volatile.dispatch. intros H.
  destruct (bytes_eqb (uri_path req) (str "echo") && (code req =? COAP_POST));
    [reflexivity|].
  destruct (bytes_eqb (uri_path req) (str "sensor")); [|reflexivity].
  cbn [andb] in H. rewrite H.
  destruct (code req =? COAP_GET); reflexivity.
Qed.

Lemma volatile_run_readonly (g : bytes) (reqs : list coap_req_t) :
  Forall (fun req => volatile_writes req = false) reqs ->
  volatile_run g reqs = g.
Proof.
  unfold volatile_run. induction 1 as [|req reqs H _ IH]; [reflexivity|].
  cbn [fold_left]. now rewrite volatile_readonly.
Qed.

Lemma persist_readonly (env : Persist.io_env) (fs : Persist.files)
    (req : coap_req_t) :
  persist_writes req = false ->
  fst (fst (Persist.dispatch env fs req)) = fs.
Proof.
  unfold persist_writes, Persist.dispatch. intros H.
  apply orb_false_elim in H. destruct H as [H1 H2]. rewrite H1, H2.
  destruct ((code req =? COAP_GET) && _); [|reflexivity].
  destruct (Persist.read_last_line (Persist.CURR fs) 2048); [reflexivity|].
  destruct (Persist.read_last_line (Persist.DATA fs) 2048); reflexivity.
Qed.

Lemma persist_run_readonly (fs : Persist.files)
    (steps : list (Persist.io_env * coap_req_t)) :
  Forall (fun step => persist_writes (snd step) = false) steps ->
  persist_run fs steps = fs.
Proof.
  unfold persist_run. induction 1 as [|step steps H _ IH]; [reflexivity|].
  cbn [fold_left]. now rewrite persist_readonly.
Qed.

Lemma volatile_put (g : bytes) (put : coap_req_t) :
  uri_path put = str "sensor" -> code put = COAP_PUT ->
  Volatile.dispatch g put = (body_of put, COAP_204_CHANGED, str "UPDATED").
Proof.
  intros Hp Hc. unfold Volatile.dispatch. rewrite Hp, Hc.
  change (bytes_eqb (str "sensor") (str "echo")) with false.
  change (bytes_eqb (str "sensor") (str "sensor")) with true.
  cbn [andb]. change (COAP_PUT =? COAP_PUT) with true. cbv iota.
  rewrite snprintf_s_fits by (pose proof (body_of_length put); lia).
  reflexivity.
Qed.

Lemma volatile_get (g : bytes) (get : coap_req_t) :
  uri_path get = str "sensor" -> code get = COAP_GET ->
  (length g < 1200)%nat ->
  Volatile.dispatch g get = (g, COAP_205_CONTENT, g).
Proof.
  intros Hp Hc Hlen. unfold Volatile.dispatch. rewrite Hp, Hc.
  change (bytes_eqb (str "sensor") (str "echo")) with false.
  change (bytes_eqb (str "sensor") (str "sensor")) with true.
  cbn [andb]. change (COAP_GET =? COAP_PUT) with false.
  change (COAP_GET =? COAP_GET) with true. cbv iota.
  now rewrite snprintf_s_fits.
Qed.

(** The files after a call that returned 0: both [fprintf]s succeeded, and
    each file holds what its [fclose] wrote out. *)
Lemma write_ok_files (env : Persist.io_env) (fs fs' : Persist.files)
    (value : bytes) (tr : list Persist.io_event) :
  Persist.write_current_and_history env fs value = (0, fs', tr) ->
  current_calls_ok env = true /\ history_calls_ok env = true /\
  fs' = Persist.mk_files
          (Some (Persist.stored (Persist.fprintf_current env)
                                (Persist.fclose_current env)
                                (value ++ [LF])))
          (Some (Persist.file_contents (Persist.DATA fs) ++
                 Persist.stored (Persist.fprintf_history env)
                                (Persist.fclose_history env)
                                (Persist.iso env ++ str " payload=" ++
                                 value ++ [LF]))).
Proof.
  unfold Persist.write_current_and_history, current_calls_ok,
    history_calls_ok.
  destruct (Persist.fopen_current env); [|discriminate].
  destruct (Persist.printed (Persist.fprintf_current env)); [|discriminate].
  destruct (Persist.fopen_history env); [|discriminate].
  destruct (Persist.printed (Persist.fprintf_history env)); [|discriminate].
  cbn [negb andb Persist.CURR Persist.DATA]. now intros [= <- _].
Qed.

Lemma persist_put_success (env : Persist.io_env) (fs fs' : Persist.files)
    (put : coap_req_t) :
  uri_path put = str "sensor" -> code put = COAP_PUT ->
  Persist.dispatch env fs put = (fs', COAP_204_CHANGED, str "UPDATED") ->
  current_calls_ok env = true /\ history_calls_ok env = true /\
  fs' = Persist.mk_files
          (Some (Persist.stored (Persist.fprintf_current env)
                                (Persist.fclose_current env)
                                (body_of put ++ [LF])))
          (Some (Persist.file_contents (Persist.DATA fs) ++
                 Persist.stored (Persist.fprintf_history env)
                                (Persist.fclose_history env)
                                (Persist.iso env ++ str " payload=" ++
                                 body_of put ++ [LF]))).
Proof.
  intros Hp Hc. unfold Persist.dispatch. rewrite Hp, Hc.
  change (COAP_PUT =? COAP_GET) with false.
  change (COAP_PUT =? COAP_POST) with false.
  change (COAP_PUT =? COAP_PUT) with true.
  change (bytes_eqb (str "sensor") (str "sensor")) with true.
  cbn [andb].
  destruct (Persist.write_current_and_history env fs (body_of put))
    as [[rc fs1] tr] eqn:E.
  destruct (Z.eqb_spec rc 0) as [->|]; [|discriminate].
  intros [= <-]. exact (write_ok_files _ _ _ _ _ E).
Qed.

Lemma history_entry_empty_stripped (ts : bytes) :
  iso_timestamp ts -> stripped_line (history_entry ts []).
Proof.
  intros [_ Hts]. unfold history_entry. rewrite app_nil_r.
  split; [destruct ts; discriminate|]. split.
  - apply Forall_app. split.
    + eapply Forall_impl; [|exact Hts]. unfold LF. intros c Hc.
      cbv beta in Hc. lia.
    + repeat (apply Forall_cons; [split; discriminate|]). apply Forall_nil.
  - intros u E. apply (f_equal (fun l => last l 0)) in E.
    change (str " payload=") with (str " payload" ++ [61]) in E.
    rewrite app_assoc, !last_last in E. discriminate E.
Qed.

(** GET /sensor on files whose current-state file holds the line of [v]:
    a non-empty [v] is read from that file, and the empty [v] from the
    history entry behind it. *)
Lemma persist_get_after_put (env' : Persist.io_env) (fs' : Persist.files)
    (old ts v : bytes) (get : coap_req_t) :
  code get = COAP_GET -> uri_path get = str "sensor" ->
  Forall (fun c => c <> 0) v -> (length v <= 1023)%nat ->
  ~ In LF v -> (forall u, v <> u ++ [CR]) ->
  Persist.CURR fs' = Some (v ++ [LF]) ->
  v <> [] \/
    (iso_timestamp ts /\ line_start old /\
     Persist.DATA fs' = Some (old ++ ts ++ str " payload=" ++ v ++ [LF])) ->
  Persist.dispatch env' fs' get = (fs', COAP_205_CONTENT, v).
Proof.
  intros Hg Hs Hnul Hlen Hlf Hcr Hcur Hcase.
  destruct (list_eq_dec Z.eq_dec v []) as [->|Hne].
  - destruct Hcase as [|(Hts & Hold & Hdata)]; [contradiction|].
    assert (Hl : last_line_is (old ++ ts ++ str " payload=" ++ [] ++ [LF])
                              (history_entry ts [])).
    { exists old, [LF]. split.
      - unfold history_entry. now rewrite <- !app_assoc.
      - split; [assumption|].
        split; [now apply history_entry_empty_stripped|].
        apply Forall_cons; [now left | apply Forall_nil]. }
    assert (Hn : no_line (Persist.CURR fs')).
    { rewrite Hcur. cbn [no_line app].
      apply Forall_cons; [now left | apply Forall_nil]. }
    rewrite (persist_get_history env' fs' get Hg Hs _ _ Hn Hdata Hl).
    + rewrite extract_state_history_entry by (assumption || simpl; lia).
      reflexivity.
    + unfold history_entry. destruct Hts as [Hts _].
      rewrite !length_app. simpl. lia.
  - apply (persist_get_current env' fs' get Hg Hs (v ++ [LF]) v);
      [assumption | | lia].
    exists [], [LF]. split; [reflexivity|]. split; [now left|]. split.
    + split; [assumption|]. split; [|assumption].
      rewrite Forall_forall in *. intros x Hx. split; [|now apply Hnul].
      intros ->. contradiction.
    + apply Forall_cons; [now left | apply Forall_nil].
Qed.

(** C4, as the code has it.  After a PUT /sensor with body text [v] that is
    answered 2.04 "UPDATED", and any number of requests that store nothing,
    GET /sensor is answered 2.05 with body [v]: in server.c for every [v];
    in server_persist_clean.c, which keeps the value as a line of text in a
    file, when the line was written out completely as the current-state
    file was closed (the server does not look at what [fclose] reports), for
    every [v] without a line feed and not ending in a carriage return - the
    empty [v] being read back from the history log, when the entry was
    written out completely and the log ended at a line end before the
    PUT. *)
Theorem put_then_get_returns_value :
  (forall g put between get,
      uri_path put = str "sensor" -> code put = COAP_PUT ->
      Forall (fun req => volatile_writes req = false) between ->
      uri_path get = str "sensor" -> code get = COAP_GET ->
      let v := body_of put in
      exists g',
        Volatile.dispatch g put = (g', COAP_204_CHANGED, str "UPDATED") /\
        Volatile.dispatch (volatile_run g' between) get =
          (g', COAP_205_CONTENT, v)) /\
  (forall env fs fs' put between env' get,
      uri_path put = str "sensor" -> code put = COAP_PUT ->
      Persist.dispatch env fs put = (fs', COAP_204_CHANGED, str "UPDATED") ->
      Persist.closed (Persist.fclose_current env) = true ->
      Forall (fun step => persist_writes (snd step) = false) between ->
      uri_path get = str "sensor" -> code get = COAP_GET ->
      let v := body_of put in
      ~ In LF v -> (forall u, v <> u ++ [CR]) ->
      v <> [] \/
        (Persist.closed (Persist.fclose_history env) = true /\
         iso_timestamp (Persist.iso env) /\
         line_start (Persist.file_contents (Persist.DATA fs))) ->
      Persist.dispatch env' (persist_run fs' between) get =
        (fs', COAP_205_CONTENT, v)).
Proof.
  split.
  - intros g put between get Hp Hc Hb Hgp Hgc v.
    exists v. split; [now apply volatile_put|].
    rewrite volatile_run_readonly by assumption.
    apply volatile_get; try assumption.
    pose proof (body_of_length put). subst v. lia.
  - intros env fs fs' put between env' get Hp Hc Hput Hcl Hb Hgp Hgc v
           Hlf Hcr Hcase.
    rewrite persist_run_readonly by assumption.
    destruct (persist_put_success _ _ _ _ Hp Hc Hput) as (Hcc & Hhc & Efs).
    unfold current_calls_ok in Hcc. apply andb_prop in Hcc.
    unfold history_calls_ok in Hhc. apply andb_prop in Hhc.
    apply (persist_get_after_put env' fs'
             (Persist.file_contents (Persist.DATA fs)) (Persist.iso env));
      try assumption.
    + apply body_of_is_cstring.
    + apply body_of_length.
    + rewrite Efs. cbn [Persist.CURR]. f_equal.
      apply stored_all; [apply Hcc | exact Hcl].
    + destruct Hcase as [Hne|(Hcl' & Hts & Hold)]; [now left|].
      right. split; [assumption|]. split; [assumption|].
      rewrite Efs. cbn [Persist.DATA]. do 2 f_equal.
      apply stored_all; [apply Hhc | exact Hcl'].
Qed.

Lemma put_then_get_returns_value_witness :
  let put := mk_req COAP_CON 0 COAP_PUT 1 [] (str "sensor")
                    (Some (str "23.5")) in
  let get := mk_req COAP_CON 0 COAP_GET 2 [] (str "sensor") None in
  let other := mk_req COAP_NON 0 COAP_GET 3 [] (str "unknown") None in
  let env := Persist.mk_env (str "2024-01-02T03:04:05Z")
                            true Persist.Printed Persist.Closed
                            true Persist.Printed (Persist.CloseFailed 7) in
  let fs := Persist.mk_files None None in
  let fs' := Persist.mk_files
               (Some (str "23.5" ++ [LF]))
               (Some (str "2024-01")) in
  (exists g',
      Volatile.dispatch (str "NO_DATA") put =
        (g', COAP_204_CHANGED, str "UPDATED") /\
      Volatile.dispatch (volatile_run g' [other; get]) get =
        (g', COAP_205_CONTENT, str "23.5")) /\
  Persist.dispatch env fs put = (fs', COAP_204_CHANGED, str "UPDATED") /\
  Persist.dispatch env (persist_run fs' [(env, other); (env, get)]) get =
    (fs', COAP_205_CONTENT, str "23.5").
Proof.
  intros put get other env fs fs'.
  destruct put_then_get_returns_value as [HV HP].
  split; [|split; [reflexivity|]].
  - apply (HV (str "NO_DATA") put [other; get] get); try reflexivity.
    repeat (apply Forall_cons; [reflexivity|]). apply Forall_nil.
  - apply (HP env fs fs' put [(env, other); (env, get)] env get);
      try reflexivity.
    + repeat (apply Forall_cons; [reflexivity|]). apply Forall_nil.
    + simpl. intros [H|[H|[H|[H|[]]]]]; discriminate H.
    + intros u E. apply (f_equal (fun l => last l 0)) in E.
      rewrite last_last in E. discriminate E.
    + left. discriminate.
Defined.

(** Two PUTs that the persistent server answers 2.04 "UPDATED" and whose
    value the next GET /sensor does not return.  A body with a line feed
    inside comes back as its last line only.  And when nothing reaches the
    disk as the files are closed, the value is lost: the next GET answers
    "NO_DATA". *)
Lemma persist_put_then_get_differs :
  let get := mk_req COAP_CON 0 COAP_GET 2 [] (str "sensor") None in
  let fs := Persist.mk_files None None in
  (let v := str "a" ++ [LF] ++ str "b" in
   let put := mk_req COAP_CON 0 COAP_PUT 1 [] (str "sensor") (Some v) in
   let env := Persist.mk_env (str "2024-01-02T03:04:05Z")
                             true Persist.Printed Persist.Closed
                             true Persist.Printed Persist.Closed in
   exists fs',
     body_of put = v /\
     Persist.dispatch env fs put = (fs', COAP_204_CHANGED, str "UPDATED") /\
     Persist.dispatch env fs' get = (fs', COAP_205_CONTENT, str "b") /\
     str "b" <> v) /\
  (let v := str "23.5" in
   let put := mk_req COAP_CON 0 COAP_PUT 1 [] (str "sensor") (Some v) in
   let env := Persist.mk_env (str "2024-01-02T03:04:05Z")
                             true Persist.Printed (Persist.CloseFailed 0)
                             true Persist.Printed (Persist.CloseFailed 0) in
   exists fs',
     body_of put = v /\
     Persist.dispatch env fs put = (fs', COAP_204_CHANGED, str "UPDATED") /\
     Persist.dispatch env fs' get = (fs', COAP_205_CONTENT, str "NO_DATA") /\
     str "NO_DATA" <> v).
Proof.
  split.
  - eexists. split; [reflexivity|]. split; [reflexivity|].
    split; [reflexivity | discriminate].
  - eexists. split; [reflexivity|]. split; [reflexivity|].
    split; [reflexivity | discriminate].
Qed.

(** The same with a body that ends in CR LF. *)
Example persist_put_crlf_get_stripped :
  let v := str "23.5" ++ [CR; LF] in
  let put := mk_req COAP_CON 0 COAP_PUT 1 [] (str "sensor") (Some v) in
  let get := mk_req COAP_CON 0 COAP_GET 2 [] (str "sensor") None in
  let env := Persist.mk_env (str "2024-01-02T03:04:05Z")
                            true Persist.Printed Persist.Closed
                            true Persist.Printed Persist.Closed in
  let fs' := fst (fst (Persist.dispatch env (Persist.mk_files None None) put)) in
  snd (Persist.dispatch env fs' get) = str "23.5".
Proof. reflexivity. Qed.

(** The empty body comes back from the history log. *)
Example persist_put_empty_get_empty :
  let put := mk_req COAP_CON 0 COAP_PUT 1 [] (str "sensor") None in
  let get := mk_req COAP_CON 0 COAP_GET 2 [] (str "sensor") None in
  let env := Persist.mk_env (str "2024-01-02T03:04:05Z")
                            true Persist.Printed Persist.Closed
                            true Persist.Printed Persist.Closed in
  let fs := Persist.mk_files (Some (str "7" ++ [LF]))
                             (Some (str "2024-01-01T00:00:00Z payload=7" ++ [LF])) in
  let fs' := fst (fst (Persist.dispatch env fs put)) in
  Persist.CURR fs' = Some [LF] /\
  snd (Persist.dispatch env fs' get) = [].
Proof. split; reflexivity. Qed.


(** ** The receive loop on whole datagrams

    The rows of the dispatch table, from the bytes received to the bytes
    sent: CON requests with an empty token, answered by ACKs that repeat the
    message id and carry Content-Format 0. *)

Example serve_post_echo :
  Volatile.serve Volatile.g_state_init
    ([64; 2; 0; 1; 180] ++ str "echo" ++ [255] ++ str "hi") =
  Ok (str "NO_DATA", Some ([96; 69; 0; 1; 193; 0; 255] ++ str "echo: hi")).
Proof. reflexivity. Qed.

Example serve_put_then_get :
  Volatile.serve Volatile.g_state_init
    ([64; 3; 0; 2; 182] ++ str "sensor" ++ [255] ++ str "23.5") =
  Ok (str "23.5", Some ([96; 68; 0; 2; 193; 0; 255] ++ str "UPDATED")) /\
  Volatile.serve (str "23.5") ([64; 1; 0; 3; 182] ++ str "sensor") =
  Ok (str "23.5", Some ([96; 69; 0; 3; 193; 0; 255] ++ str "23.5")).
Proof. split; reflexivity. Qed.

Example serve_ignores_bad_version :
  Volatile.serve (str "23.5") ([0; 1; 0; 3; 182] ++ str "sensor") =
  Ok (str "23.5", None).
Proof. reflexivity. Qed.

(** The persistent server stores the body of POST /echo as well, and
    answers 5.00 "WRITE_FAIL" when the history log cannot be opened. *)
Example persist_serve_post_echo :
  let env := Persist.mk_env (str "2024-01-02T03:04:05Z")
                            true Persist.Printed Persist.Closed
                            true Persist.Printed Persist.Closed in
  Persist.serve env (Persist.mk_files None None)
    ([64; 2; 0; 1; 180] ++ str "echo" ++ [255] ++ str "hi") =
  Ok (Persist.mk_files
        (Some (str "hi" ++ [LF]))
        (Some (str "2024-01-02T03:04:05Z payload=hi" ++ [LF])),
      Some ([96; 69; 0; 1; 193; 0; 255] ++ str "echo: hi")).
Proof. reflexivity. Qed.

Example persist_serve_write_fail :
  let env := Persist.mk_env (str "2024-01-02T03:04:05Z")
                            true Persist.Printed Persist.Closed
                            false Persist.Printed Persist.Closed in
  Persist.serve env (Persist.mk_files None None)
    ([64; 3; 0; 2; 182] ++ str "sensor" ++ [255] ++ str "23.5") =
  Ok (Persist.mk_files (Some (str "23.5" ++ [LF])) None,
      Some ([96; 160; 0; 2; 193; 0; 255] ++ str "WRITE_FAIL")).
Proof. reflexivity. Qed.

(** Two updates in a row: the current-state file holds the second value
    and the history log both, in order. *)
Example persist_two_updates :
  let env1 := Persist.mk_env (str "2024-01-02T03:04:05Z")
                             true Persist.Printed Persist.Closed
                             true Persist.Printed Persist.Closed in
  let env2 := Persist.mk_env (str "2024-01-02T03:04:06Z")
                             true Persist.Printed Persist.Closed
                             true Persist.Printed Persist.Closed in
  let '(_, fs1, _) :=
    Persist.write_current_and_history env1 (Persist.mk_files None None)
                                      (str "5") in
  let '(rc, fs2, _) := Persist.write_current_and_history env2 fs1 (str "7") in
  rc = 0 /\
  Persist.read_last_line (Persist.CURR fs2) 2048 = Some (str "7") /\
  Persist.DATA fs2 =
    Some (str "2024-01-02T03:04:05Z payload=5" ++ [LF] ++
          str "2024-01-02T03:04:06Z payload=7" ++ [LF]).
Proof. repeat split. Qed.


(** * Further properties of the decoder *)

Lemma land_3_range (x : Z) : 0 <= Z.land x 3 <= 3.
Proof.
  change 3 with (Z.ones 2) at 1 2. rewrite Z.land_ones by lia.
  pose proof (Z.mod_pos_bound x (2 ^ 2) eq_refl) as H.
  change (2 ^ 2) with 4 in *. lia.
Qed.

Lemma land_15_range (x : Z) : 0 <= Z.land x 15 <= 15.
Proof.
  change 15 with (Z.ones 4) at 1 2. rewrite Z.land_ones by lia.
  pose proof (Z.mod_pos_bound x (2 ^ 4) eq_refl) as H.
  change (2 ^ 4) with 16 in *. lia.
Qed.

Lemma firstn_add_split (n m : nat) (l : bytes) :
  firstn (n + m) l = firstn n l ++ firstn m (skipn n l).
Proof.
  rewrite <- (firstn_skipn n (firstn (n + m) l)) at 1.
  rewrite firstn_firstn, <- firstn_skipn_comm.
  now replace (Nat.min n (n + m)) with n by lia.
Qed.

Lemma read_nibble_ext_suffix (v : Z) (p p' : bytes) (x : Z) :
  read_nibble_ext v p = (x, p') -> exists pre, p = pre ++ p'.
Proof.
  unfold read_nibble_ext.
  destruct (v <? 13); [intros [= _ <-]; now exists []|].
  destruct (v =? 13).
  { destruct p as [|b p0]; intros [= _ <-]; [now exists [] | now exists [b]]. }
  destruct (v =? 14); [|intros [= _ <-]; now exists []].
  destruct p as [|b0 [|b1 p0]]; intros [= _ <-];
    [now exists [] | now exists [] | now exists [b0; b1]].
Qed.

Lemma read_option_header_suffix (b : byte) (p p2 : bytes) (d l : Z) :
  read_option_header b p = (d, l, p2) -> exists pre, p = pre ++ p2.
Proof.
  unfold read_option_header.
  destruct (read_nibble_ext _ p) as [d' p1] eqn:E1.
  destruct (read_nibble_ext _ p1) as [l' p2'] eqn:E2.
  intros [= _ _ <-].
  apply read_nibble_ext_suffix in E1, E2.
  destruct E1 as [a ->], E2 as [c ->].
  exists (a ++ c). now rewrite app_assoc.
Qed.

Section DecodedRequest.

Variable append_segment : bytes -> bytes -> option bytes.

(** Where the loop stops is a tail of where it started. *)
Lemma option_loop_suffix (fuel : nat) (p : bytes) (last : Z)
    (path path' p' : bytes) :
  option_loop append_segment fuel p last path = Ok (path', p') ->
  exists opts, p = opts ++ p'.
Proof.
  revert p last path.
  induction fuel as [|fuel IH]; intros p last path.
  - destruct p as [|b p0]; [rewrite option_loop_nil; intros [= _ <-]; now exists []|].
    cbn [option_loop].
    destruct (b =? PAYLOAD_MARKER); [|discriminate].
    intros [= _ <-]. now exists [].
  - destruct p as [|b p0]; [rewrite option_loop_nil; intros [= _ <-]; now exists []|].
    destruct (Z.eq_dec b PAYLOAD_MARKER) as [->|Hb].
    { rewrite option_loop_marker. intros [= _ <-]. now exists []. }
    rewrite option_loop_step by assumption.
    destruct (read_option_header b p0) as [[d l] p2] eqn:E.
    apply read_option_header_suffix in E. destruct E as [pre ->].
    destruct (_ || _); [discriminate|].
    destruct (len p2 <? l); [discriminate|].
    destruct (if last + d =? OPT_URI_PATH then _ else _); [|discriminate].
    intros H. apply IH in H. destruct H as [opts H].
    exists (b :: pre ++ firstn (Z.to_nat l) p2 ++ opts).
    cbn [app]. f_equal. rewrite <- !app_assoc. f_equal.
    rewrite <- H. now rewrite firstn_skipn.
Qed.

Lemma coap_parse_with_header_facts (buf : bytes) (r : coap_req_t) :
  coap_parse_with append_segment buf = Ok r ->
  Z.land (Z.shiftr (nth 0 buf 0) 6) 3 = COAP_VER /\
  type r = Z.land (Z.shiftr (nth 0 buf 0) 4) 3 /\
  tkl r = Z.land (nth 0 buf 0) 15 /\
  tkl r <= 8 /\ 4 + tkl r <= len buf /\
  code r = nth 1 buf 0 /\
  mid r = (Z.lor (Z.shiftl (nth 2 buf 0) 8) (nth 3 buf 0)) mod 65536 /\
  token r = firstn (Z.to_nat (tkl r)) (skipn 4 buf) /\
  exists p',
    option_loop append_segment
      (length (skipn (4 + Z.to_nat (tkl r)) buf))
      (skipn (4 + Z.to_nat (tkl r)) buf) 0 [] = Ok (uri_path r, p') /\
    payload r = match p' with
                | b :: rest => if b =? PAYLOAD_MARKER then Some rest else None
                | [] => None
                end.
Proof.
  unfold coap_parse_with.
  destruct (len buf <? 4); [discriminate|].
  destruct (Z.eqb_spec (Z.land (Z.shiftr (nth 0 buf 0) 6) 3) COAP_VER)
    as [Hv|]; [|discriminate].
  cbn [negb].
  set (k := Z.land (nth 0 buf 0) 15).
  destruct (Z.ltb_spec (len buf) (4 + k)); [discriminate|].
  destruct (Z.ltb_spec 8 k); [discriminate|].
  cbn [orb].
  destruct (option_loop _ _ _ _ _) as [[path p']| |] eqn:E; try discriminate.
  intros [= <-]. cbn [type tkl code mid token uri_path payload].
  repeat (split; [assumption || reflexivity || lia|]).
  exists p'. split; [exact E | reflexivity].
Qed.

(** The datagram is its 4-byte header, the token, the options that the
    loop went through, and the marker with the payload if there is one:
    nothing is read from elsewhere and nothing is left over. *)
Lemma coap_parse_with_layout (buf : bytes) (r : coap_req_t) :
  coap_parse_with append_segment buf = Ok r ->
  exists opts,
    buf = firstn 4 buf ++ token r ++ opts ++
          match payload r with
          | Some pl => PAYLOAD_MARKER :: pl
          | None => []
          end.
Proof.
  intros H. apply coap_parse_with_header_facts in H.
  destruct H as (_ & _ & _ & _ & _ & _ & _ & Htok & p' & Hloop & Hpl).
  pose proof Hloop as Hstop. apply option_loop_stops in Hstop.
  apply option_loop_suffix in Hloop. destruct Hloop as [opts Hopts].
  exists opts. rewrite Htok, Hpl.
  rewrite <- (firstn_skipn (4 + Z.to_nat (tkl r)) buf) at 1.
  rewrite firstn_add_split, <- app_assoc. do 2 f_equal.
  rewrite Hopts. f_equal.
  destruct Hstop as [->|[rest ->]]; reflexivity.
Qed.

(** The path that the loop returns fits [uri_path], if appending a segment
    keeps it so. *)
Hypothesis append_fits : forall path seg path',
  path_fits path -> append_segment path seg = Some path' -> path_fits path'.

Lemma option_loop_path_fits (fuel : nat) (p : bytes) (last : Z)
    (path path' p' : bytes) :
  path_fits path ->
  option_loop append_segment fuel p last path = Ok (path', p') ->
  path_fits path'.
Proof.
  revert p last path.
  induction fuel as [|fuel IH]; intros p last path Hfit.
  - destruct p as [|b p0]; [rewrite option_loop_nil; now intros [= <- _]|].
    cbn [option_loop].
    destruct (b =? PAYLOAD_MARKER); [|discriminate]. now intros [= <- _].
  - destruct p as [|b p0]; [rewrite option_loop_nil; now intros [= <- _]|].
    destruct (Z.eq_dec b PAYLOAD_MARKER) as [->|Hb].
    { rewrite option_loop_marker. now intros [= <- _]. }
    rewrite option_loop_step by assumption.
    destruct (read_option_header b p0) as [[d l] p2].
    destruct (_ || _); [discriminate|].
    destruct (len p2 <? l); [discriminate|].
    destruct (last + d =? OPT_URI_PATH).
    + destruct (append_segment path (firstn (Z.to_nat l) p2)) as [path1|] eqn:Ea;
        [|discriminate].
      apply IH. eapply append_fits; eassumption.
    + now apply IH.
Qed.

Lemma coap_parse_with_path_fits (buf : bytes) (r : coap_req_t) :
  coap_parse_with append_segment buf = Ok r -> path_fits (uri_path r).
Proof.
  intros H. apply coap_parse_with_header_facts in H.
  destruct H as (_ & _ & _ & _ & _ & _ & _ & _ & p' & Hloop & _).
  eapply option_loop_path_fits; [|exact Hloop].
  split; [simpl; lia | constructor].
Qed.

End DecodedRequest.

Lemma cstr_app_no_nul (a b : bytes) :
  Forall (fun c => c <> 0) a -> cstr (a ++ b) = a ++ cstr b.
Proof.
  induction 1 as [|c a Hc _ IH]; [reflexivity|].
  cbn [app cstr]. destruct (Z.eqb_spec c 0); [contradiction|]. now rewrite IH.
Qed.

Lemma cstr_firstn (n : nat) (s : bytes) :
  (length (cstr s) <= n)%nat -> cstr (firstn n s) = cstr s.
Proof.
  revert n. induction s as [|c s IH]; intros n H.
  - now rewrite firstn_nil.
  - cbn [cstr] in *. destruct (Z.eqb_spec c 0) as [->|Hc].
    + destruct n; reflexivity.
    + destruct n as [|n]; [simpl in H; lia|].
      cbn [firstn cstr]. destruct (Z.eqb_spec c 0); [contradiction|].
      rewrite IH; [reflexivity | simpl in H; lia].
Qed.

Lemma volatile_append_fits (path seg path' : bytes) :
  path_fits path -> Volatile.uri_path_append path seg = Some path' ->
  path_fits path'.
Proof.
  intros [Hlen Hnul]. unfold Volatile.uri_path_append.
  destruct (0 <? len seg); [|now intros [= <-]].
  assert (Hsl : Forall (fun c => c <> 0) (path ++ [SLASH])).
  { apply Forall_app. split; [assumption|]. repeat constructor. discriminate. }
  destruct (negb (bytes_eqb path []) && (len path <? 127));
    match goal with
    | |- context [len ?x <? 128] => destruct (Z.ltb_spec (len x) 128)
    end; try discriminate; intros [= <-];
    (split; [unfold len in *; lia|]);
    apply Forall_app; (split; [assumption | apply cstr_is_cstring]).
Qed.

Lemma persist_append_fits (dst seg : bytes) :
  path_fits dst -> path_fits (Persist.append_uri_segment dst seg).
Proof.
  intros [Hlen Hnul]. unfold Persist.append_uri_segment.
  destruct (len seg =? 0); [now split|].
  pose proof (len_nonneg seg) as Hs.
  destruct (negb (bytes_eqb dst []) && (len dst <? 128 - 1)) eqn:Esl.
  - apply andb_true_iff in Esl. destruct Esl as [_ Esl].
    apply Z.ltb_lt in Esl.
    split; [|apply cstr_is_cstring].
    match goal with |- (length (cstr ?x) <= _)%nat =>
      pose proof (cstr_length x) as Hc; rewrite !length_app, length_firstn in Hc
    end.
    cbn [length] in Hc. unfold len in *.
    destruct (Z.leb_spec 128 (Z.of_nat (length dst) + 1 + Z.of_nat (length seg)));
      lia.
  - split; [|apply cstr_is_cstring].
    match goal with |- (length (cstr ?x) <= _)%nat =>
      pose proof (cstr_length x) as Hc; rewrite length_app, length_firstn in Hc
    end.
    unfold len in *.
    destruct (Z.leb_spec 128 (Z.of_nat (length dst) + Z.of_nat (length seg)));
      lia.
Qed.

(** X1. What the decoders guarantee about a request they accept (for
    server.c: a request on which it returns 0 without its [strncat]s
    leaving [uri_path]): version 1, a type in 0..3, a token length in 0..8
    with exactly that many token bytes, the code byte as it came, and a
    16-bit message id.  And however long the segments of the datagram are,
    the Uri-Path that server_persist_clean.c decodes is a C string of at
    most 127 characters, which fits [uri_path[128]]: [append_uri_segment]
    cuts what does not fit. *)
Theorem decoded_request_invariants (buf : bytes) (r : coap_req_t) :
  (Volatile.coap_parse buf = Ok r \/ Persist.coap_parse buf = Ok r ->
   Z.land (Z.shiftr (nth 0 buf 0) 6) 3 = COAP_VER /\
   0 <= type r <= 3 /\
   0 <= tkl r <= 8 /\ len (token r) = tkl r /\
   code r = nth 1 buf 0 /\
   0 <= mid r < 65536) /\
  (Persist.coap_parse buf = Ok r -> path_fits (uri_path r)).
Proof.
  split.
  - intros H.
    assert (Hf : exists f, coap_parse_with f buf = Ok r)
      by (destruct H as [H|H]; eexists; exact H).
    destruct Hf as (f & Hp).
    apply coap_parse_with_header_facts in Hp.
    destruct Hp as (Hv & Hty & Hk & Hk8 & Hlen & Hc & Hm & Htok & _).
    split; [exact Hv|]. split; [rewrite Hty; apply land_3_range|].
    assert (Hk0 : 0 <= tkl r) by (rewrite Hk; apply land_15_range).
    split; [lia|]. split.
    + rewrite Htok. unfold len in *.
      rewrite length_firstn, length_skipn. lia.
    + split; [exact Hc|].
      rewrite Hm. apply Z.mod_pos_bound. reflexivity.
  - intros H. eapply coap_parse_with_path_fits; [|exact H].
    intros path seg path' Hp [= <-]. now apply persist_append_fits.
Qed.

Lemma decoded_request_invariants_witness :
  let buf := [82; 1; 18; 52; 170; 187; 189; 117] ++ repeat 97 130 in
  let r := mk_req 1 2 1 4660 [170; 187] (repeat 97 127) None in
  Persist.coap_parse buf = Ok r /\
  0 <= type r <= 3 /\ 0 <= tkl r <= 8 /\ len (token r) = tkl r /\
  0 <= mid r < 65536 /\ path_fits (uri_path r).
Proof.
  intros buf r.
  assert (H : Persist.coap_parse buf = Ok r) by (vm_compute; reflexivity).
  split; [exact H|].
  destruct (decoded_request_invariants buf r) as [Hh Hp].
  destruct (Hh (or_intror H)) as (_ & H1 & H2 & H3 & _ & H4).
  repeat split; try apply H1; try apply H2; try apply H4;
    try exact H3; apply (Hp H).
Defined.

(** X2. An accepted datagram is exactly its 4-byte header, the decoded
    token, a run of option bytes, and - when a payload was found - the
    marker 0xFF followed by that payload: the payload is the tail of the
    datagram, and no byte is read from outside it. *)
Theorem decoded_request_layout (buf : bytes) (r : coap_req_t) :
  Volatile.coap_parse buf = Ok r \/ Persist.coap_parse buf = Ok r ->
  exists opts,
    buf = firstn 4 buf ++ token r ++ opts ++
          match payload r with
          | Some pl => PAYLOAD_MARKER :: pl
          | None => []
          end.
Proof.
  intros [H|H]; eapply coap_parse_with_layout; exact H.
Qed.

Lemma decoded_request_layout_witness :
  let buf := [82; 1; 18; 52; 170; 187; 182] ++ str "sensor" ++ [255; 55] in
  let r := mk_req 1 2 1 4660 [170; 187] (str "sensor") (Some [55]) in
  Persist.coap_parse buf = Ok r /\
  exists opts,
    buf = firstn 4 buf ++ token r ++ opts ++ PAYLOAD_MARKER :: [55].
Proof.
  intros buf r.
  assert (H : Persist.coap_parse buf = Ok r) by reflexivity.
  split; [exact H|].
  exact (decoded_request_layout buf r (or_intror H)).
Defined.

(** ** The two decoders side by side *)

(** Where the [strncat]s of server.c stay inside [uri_path],
    [append_uri_segment] stores the same string. *)
Lemma append_segment_agree (path seg path' : bytes) :
  path_fits path -> Volatile.uri_path_append path seg = Some path' ->
  Persist.append_uri_segment path seg = path'.
Proof.
  intros [Hlen Hnul]. unfold Volatile.uri_path_append, Persist.append_uri_segment.
  pose proof (len_nonneg seg) as Hs.
  destruct (Z.ltb_spec 0 (len seg)) as [Hpos|Hz].
  2:{ intros [= <-]. destruct (Z.eqb_spec (len seg) 0); [reflexivity|lia]. }
  destruct (Z.eqb_spec (len seg) 0); [lia|].
  change (128 - 1) with 127.
  assert (Hsl : Forall (fun c => c <> 0) (path ++ [SLASH])).
  { apply Forall_app. split; [assumption|]. repeat constructor. discriminate. }
  pose proof (cstr_length seg) as Hcs.
  destruct (negb (bytes_eqb path []) && (len path <? 127));
    match goal with
    | |- context [len ?x <? 128] =>
        destruct (Z.ltb_spec (len x) 128) as [Hfit|]; [|discriminate]
    end; intros [= <-];
    rewrite !len_app in Hfit; try change (len [SLASH]) with 1 in Hfit;
    rewrite cstr_app_no_nul by assumption; f_equal;
    apply cstr_firstn; unfold len in *;
    match goal with
    | |- context [?a <=? ?b] => destruct (Z.leb_spec a b)
    end; lia.
Qed.

Section TwoAppends.

Variables f g : bytes -> bytes -> option bytes.

Hypothesis g_follows_f : forall path seg path',
  path_fits path -> f path seg = Some path' ->
  g path seg = Some path' /\ path_fits path'.

Lemma option_loop_follows (fuel : nat) (p : bytes) (last : Z) (path : bytes) :
  path_fits path ->
  option_loop f fuel p last path <> Undefined ->
  option_loop g fuel p last path = option_loop f fuel p last path.
Proof.
  revert p last path.
  induction fuel as [|fuel IH]; intros p last path Hfit.
  - destruct p as [|b p0]; [now rewrite !option_loop_nil|].
    cbn [option_loop]. destruct (b =? PAYLOAD_MARKER); [reflexivity|].
    intros H. now contradiction H.
  - destruct p as [|b p0]; [now rewrite !option_loop_nil|].
    destruct (Z.eq_dec b PAYLOAD_MARKER) as [->|Hb];
      [now rewrite !option_loop_marker|].
    rewrite !option_loop_step by assumption.
    destruct (read_option_header b p0) as [[d l] p2].
    destruct (_ || _); [reflexivity|].
    destruct (len p2 <? l); [reflexivity|].
    destruct (last + d =? OPT_URI_PATH).
    + destruct (f path (firstn (Z.to_nat l) p2)) as [path1|] eqn:Ef.
      * destruct (g_follows_f _ _ _ Hfit Ef) as [-> Hfit1]. now apply IH.
      * intros H. now contradiction H.
    + now apply IH.
Qed.

Lemma coap_parse_with_follows (buf : bytes) :
  coap_parse_with f buf <> Undefined ->
  coap_parse_with g buf = coap_parse_with f buf.
Proof.
  unfold coap_parse_with.
  destruct (len buf <? 4); [reflexivity|].
  destruct (negb _); [reflexivity|].
  destruct (_ || _); [reflexivity|].
  intros H.
  rewrite option_loop_follows; [reflexivity | split; [simpl; lia | constructor] |].
  intros E. apply H. now rewrite E.
Qed.

End TwoAppends.

(** X3. Whenever the decoder of server.c stays within defined behaviour
    (it returns 0 or -1), the decoder of server_persist_clean.c returns the
    same result on the same datagram: the same rejection, or the same type,
    token length, code, message id, token, path and payload. *)
Theorem decoders_agree (buf : bytes) :
  Volatile.coap_parse buf <> Undefined ->
  Persist.coap_parse buf = Volatile.coap_parse buf.
Proof.
  apply coap_parse_with_follows.
  intros path seg path' Hfit Hf. split.
  - f_equal. now apply append_segment_agree.
  - eapply volatile_append_fits; eassumption.
Qed.

Lemma decoders_agree_witness :
  let buf := [64; 2; 0; 1; 179] ++ str "api" ++ [9] ++ str "distancia"
             ++ [17; 50; 255] ++ str "{}" in
  Volatile.coap_parse buf <> Undefined /\
  Persist.coap_parse buf = Volatile.coap_parse buf.
Proof.
  intros buf.
  assert (H : Volatile.coap_parse buf <> Undefined) by discriminate.
  split; [exact H | exact (decoders_agree buf H)].
Defined.

(** ** C9: a marker with nothing behind it *)

(** What [add_option] stores for an option in range starts with a header
    byte that is not the marker, and the option header decoder reads the
    delta and the length back from it. *)
Lemma add_option_first_byte (cap last number : Z) (val : bytes) :
  0 <= number - last <= 65804 -> len val <= 65804 -> 5 + len val <= cap ->
  exists need b p0,
    add_option cap last number val = (need, b :: p0, number) /\
    b <> PAYLOAD_MARKER /\
    forall tail,
      read_option_header b (p0 ++ tail) =
        (number - last, len val, val ++ tail).
Proof.
  intros Hd Hl Hcap. rewrite add_option_tiers.
  rewrite to_int_small by (unfold INT_MIN, INT_MAX; lia).
  pose proof (len_nonneg val) as Hv.
  destruct (Z.ltb_spec cap 1); [lia|].
  pose proof (nibble_tier_decodes (number - last) Hd) as HD.
  pose proof (nibble_tier_decodes (len val) (conj Hv Hl)) as HL.
  destruct (nibble_tier (number - last)) as [dl dext].
  destruct (nibble_tier (len val)) as [ll lext].
  destruct HD as (Hdl & Hdn & HD), HL as (Hll & Hln & HL).
  cbv zeta.
  destruct (Z.ltb_spec cap (1 + len dext + len lext + len val)); [lia|].
  exists (1 + len dext + len lext + len val),
         ((Z.lor (Z.shiftl dl 4) ll) mod 256), (dext ++ lext ++ val).
  split; [reflexivity|].
  destruct (nibbles_of_header dl ll Hdl Hll) as [Hn1 Hn2].
  split.
  - intros Hb. rewrite Hb in Hn2.
    change (Z.land PAYLOAD_MARKER 15) with 15 in Hn2. subst ll.
    specialize (HL []).
    change (read_nibble_ext 15 (lext ++ [])) with (-1, lext ++ []) in HL.
    injection HL as HL _. lia.
  - intros tail. unfold read_option_header. rewrite Hn1, Hn2.
    rewrite <- !app_assoc, HD, HL. reflexivity.
Qed.

Section EncodedOptions.

Variable append_segment : bytes -> bytes -> option bytes.

(** The loop over encoded options, up to the marker behind them. *)
Lemma option_loop_options (os : list (Z * bytes)) :
  forall (last : Z) (path rest : bytes) (fuel : nat),
    options_in_range last os ->
    (length (options_bytes last os) <= fuel)%nat ->
    option_loop append_segment fuel
      (options_bytes last os ++ PAYLOAD_MARKER :: rest) last path =
    match path_after append_segment path os with
    | Some path' => Ok (path', PAYLOAD_MARKER :: rest)
    | None => Undefined
    end.
Proof.
  induction os as [|[number val] os IH]; intros last path rest fuel Hr Hfuel.
  - cbn [options_bytes app path_after]. apply option_loop_marker.
  - cbn [options_in_range] in Hr. destruct Hr as (Hd & Hl & Hr).
    cbn [options_bytes path_after] in *.
    destruct (add_option_first_byte (5 + len val) last number val Hd Hl
                                    (Z.le_refl _))
      as (need & b & p0 & E & Hb & Hdec).
    rewrite E in *. cbv beta iota in Hfuel. cbv beta iota.
    rewrite length_app in Hfuel. cbn [length] in Hfuel.
    destruct fuel as [|fuel]; [lia|].
    rewrite <- app_assoc.
    change ((b :: p0) ++ ?x) with (b :: p0 ++ x).
    rewrite option_loop_step by exact Hb.
    rewrite Hdec. cbv beta iota.
    pose proof (len_nonneg val) as Hv.
    destruct (Z.ltb_spec (number - last) 0); [lia|].
    destruct (Z.ltb_spec (len val) 0); [lia|].
    cbn [orb]. rewrite len_app.
    match goal with
    | |- context [len val + len ?t <? len val] =>
        destruct (Z.ltb_spec (len val + len t) (len val));
          [pose proof (len_nonneg t); lia|]
    end.
    rewrite !to_nat_len.
    rewrite firstn_app_front, firstn_all by lia.
    rewrite skipn_app, skipn_all, Nat.sub_diag. cbn [skipn app].
    replace (last + (number - last)) with number by lia.
    destruct (if number =? OPT_URI_PATH then append_segment path val
              else Some path) as [path'|]; [|reflexivity].
    apply IH; [assumption | lia].
Qed.

End EncodedOptions.

Lemma path_after_persist (os : list (Z * bytes)) (path : bytes) :
  path_after (fun dst seg => Some (Persist.append_uri_segment dst seg))
             path os =
  Some (fold_left (fun path o =>
                     if fst o =? OPT_URI_PATH
                     then Persist.append_uri_segment path (snd o) else path)
                  os path).
Proof.
  revert path. induction os as [|[number val] os IH]; intros path;
    [reflexivity|].
  cbn [path_after fold_left fst snd].
  destruct (number =? OPT_URI_PATH); apply IH.
Qed.

(** The [strncat]s of server.c stay inside [uri_path] as long as the
    path and the bytes still to decode hold no more than 127 bytes
    together: a segment is never longer than the bytes it came in. *)
Lemma volatile_append_short (path seg : bytes) :
  len path + 1 + len seg <= 127 ->
  exists path',
    Volatile.uri_path_append path seg = Some path' /\
    len path' <= len path + 1 + len seg.
Proof.
  intros H. unfold Volatile.uri_path_append.
  pose proof (len_nonneg path) as Hp. pose proof (len_nonneg seg) as Hs.
  destruct (0 <? len seg); [|exists path; split; [reflexivity|lia]].
  assert (Hc : len (cstr seg) <= len seg)
    by (pose proof (cstr_length seg); unfold len; lia).
  destruct (negb (bytes_eqb path []) && (len path <? 127)).
  - assert (Hlen : len ((path ++ [SLASH]) ++ cstr seg) <= len path + 1 + len seg)
      by (rewrite !len_app; change (len [SLASH]) with 1; lia).
    destruct (Z.ltb_spec (len ((path ++ [SLASH]) ++ cstr seg)) 128); [|lia].
    eexists. split; [reflexivity | exact Hlen].
  - assert (Hlen : len (path ++ cstr seg) <= len path + 1 + len seg)
      by (rewrite !len_app; lia).
    destruct (Z.ltb_spec (len (path ++ cstr seg)) 128); [|lia].
    eexists. split; [reflexivity | exact Hlen].
Qed.

Lemma volatile_loop_short (fuel : nat) :
  forall (p : bytes) (last : Z) (path : bytes),
    (length p <= fuel)%nat -> len path + len p <= 127 ->
    option_loop Volatile.uri_path_append fuel p last path <> Undefined.
Proof.
  induction fuel as [|fuel IH]; intros p last path Hfuel Hroom.
  - destruct p; [|simpl in Hfuel; lia]. now rewrite option_loop_nil.
  - destruct p as [|b p0]; [now rewrite option_loop_nil|].
    destruct (Z.eq_dec b PAYLOAD_MARKER) as [->|Hb];
      [now rewrite option_loop_marker|].
    rewrite option_loop_step by assumption.
    destruct (read_option_header b p0) as [[d l] p2] eqn:E.
    apply read_option_header_length in E.
    destruct (Z.ltb_spec d 0); [discriminate|].
    destruct (Z.ltb_spec l 0); [discriminate|].
    cbn [orb].
    destruct (Z.ltb_spec (len p2) l) as [|Hl]; [discriminate|].
    rewrite len_cons in Hroom. cbn [length] in Hfuel.
    assert (Hn : (Z.to_nat l <= length p2)%nat) by (unfold len in Hl; lia).
    assert (Hskip : len (skipn (Z.to_nat l) p2) = len p2 - l)
      by (unfold len in *; rewrite length_skipn; lia).
    assert (Hfirst : len (firstn (Z.to_nat l) p2) = l)
      by (unfold len in *; rewrite length_firstn; lia).
    assert (Hp2 : len p2 <= len p0) by (unfold len; lia).
    assert (Hfuel' : (length (skipn (Z.to_nat l) p2) <= fuel)%nat)
      by (rewrite length_skipn; lia).
    destruct (last + d =? OPT_URI_PATH).
    + destruct (volatile_append_short path (firstn (Z.to_nat l) p2))
        as (path' & -> & Hlen); [lia|].
      apply IH; [assumption | lia].
    + apply IH; [assumption | lia].
Qed.

(** A datagram of at most 131 bytes - 127 after the header - never drives
    server.c out of [uri_path]. *)
Lemma volatile_short_datagram (buf : bytes) :
  len buf <= 131 -> Volatile.coap_parse buf <> Undefined.
Proof.
  intros Hlen. unfold Volatile.coap_parse, coap_parse_with.
  destruct (Z.ltb_spec (len buf) 4); [discriminate|].
  destruct (negb _); [discriminate|].
  destruct (_ || _); [discriminate|].
  match goal with
  | |- context [option_loop ?a ?f ?p ?l ?q] =>
      pose proof (volatile_loop_short f p l q) as Hloop;
      destruct (option_loop a f p l q) as [[path p']| |]
  end; try discriminate.
  exfalso. apply Hloop; [apply Nat.le_refl | | reflexivity].
  change (len []) with 0. unfold len in *. rewrite length_skipn. lia.
Qed.

Lemma persist_append_follows (path seg path' : bytes) :
  path_fits path -> Volatile.uri_path_append path seg = Some path' ->
  Some (Persist.append_uri_segment path seg) = Some path' /\ path_fits path'.
Proof.
  intros Hfit Hf. split.
  - f_equal. now apply append_segment_agree.
  - eapply volatile_append_fits; eassumption.
Qed.



(** ** A segment longer than [uri_path] *)

Lemma read_nibble_ext_literal (v : Z) (p : bytes) :
  v < 13 -> read_nibble_ext v p = (v, p).
Proof.
  intros H. unfold read_nibble_ext.
  destruct (Z.ltb_spec v 13); [reflexivity|lia].
Qed.

(** X4. A datagram whose first option is a Uri-Path of 128 to 268
    characters without NUL drives the unchecked [strncat] of server.c past
    [uri_path[128]] (undefined behaviour), whatever follows the segment;
    server_persist_clean.c keeps the first 127 characters, and with nothing
    after the segment it accepts the datagram with that path. *)
Theorem long_segment_overflows_volatile
    (b0 b1 b2 b3 : byte) (tok seg rest : bytes) :
  Z.land (Z.shiftr b0 6) 3 = COAP_VER ->
  Z.land b0 15 = len tok -> len tok <= 8 ->
  128 <= len seg <= 268 -> Forall (fun c => c <> 0) seg ->
  let dgram tail :=
    b0 :: b1 :: b2 :: b3 :: tok ++ 189 :: (len seg - 13) :: seg ++ tail in
  Volatile.coap_parse (dgram rest) = Undefined /\
  Persist.coap_parse (dgram []) =
    Ok (mk_req (Z.land (Z.shiftr b0 4) 3) (len tok) b1
               ((Z.lor (Z.shiftl b2 8) b3) mod 65536) tok
               (firstn 127 seg) None).
Proof.
  intros Hv Hk Hk8 Hseg Hnul dgram. subst dgram. cbv beta.
  unfold Volatile.coap_parse, Persist.coap_parse.
  rewrite !coap_parse_with_frame by assumption.
  assert (Hhdr : forall tail,
             read_option_header 189 ((len seg - 13) :: seg ++ tail) =
             (11, len seg, seg ++ tail)).
  { intros tail. unfold read_option_header.
    change (Z.land (Z.shiftr 189 4) 15) with 11.
    change (Z.land 189 15) with 13.
    rewrite read_nibble_ext_literal by lia.
    rewrite read_nibble_ext_13. do 2 f_equal. lia. }
  assert (Hstep : forall f tail,
             option_loop f (length (189 :: (len seg - 13) :: seg ++ tail))
                         (189 :: (len seg - 13) :: seg ++ tail) 0 [] =
             match f [] seg with
             | None => Undefined
             | Some path' =>
                 option_loop f (S (length (seg ++ tail))) tail 11 path'
             end).
  { intros f tail. cbn [length].
    rewrite option_loop_step by discriminate.
    rewrite Hhdr. cbv zeta.
    destruct (Z.ltb_spec 11 0); [lia|].
    destruct (Z.ltb_spec (len seg) 0); [lia|]. cbn [orb].
    rewrite len_app. pose proof (len_nonneg tail).
    destruct (Z.ltb_spec (len seg + len tail) (len seg)); [lia|].
    change (0 + 11 =? OPT_URI_PATH) with true. cbv iota.
    rewrite to_nat_len, firstn_app_front, firstn_all by lia.
    rewrite skipn_app, skipn_all, Nat.sub_diag. reflexivity. }
  rewrite !Hstep. split.
  - unfold Volatile.uri_path_append.
    destruct (Z.ltb_spec 0 (len seg)); [|lia].
    change (negb (bytes_eqb [] []) && (len [] <? 127)) with false. cbv iota.
    cbn [app]. rewrite cstr_no_nul by assumption.
    destruct (Z.ltb_spec (len seg) 128); [lia|]. reflexivity.
  - unfold Persist.append_uri_segment.
    destruct (Z.eqb_spec (len seg) 0); [lia|].
    change (negb (bytes_eqb [] []) && (len [] <? 128 - 1)) with false.
    cbv iota. change (len []) with 0.
    destruct (Z.leb_spec 128 (0 + len seg)); [|lia].
    change (Z.to_nat (128 - 1 - 0)) with 127%nat. cbn [app].
    rewrite option_loop_nil.
    rewrite cstr_no_nul; [reflexivity|].
    rewrite <- (firstn_skipn 127 seg) in Hnul.
    now apply Forall_app in Hnul.
Qed.

Lemma long_segment_overflows_volatile_witness :
  let seg := repeat 97 128 in
  let dgram := [64; 1; 0; 7; 189; 115] ++ seg in
  Volatile.coap_parse dgram = Undefined /\
  Persist.coap_parse dgram =
    Ok (mk_req 0 0 1 7 [] (repeat 97 127) None).
Proof.
  intros seg dgram.
  assert (Hn : Forall (fun c => c <> 0) seg).
  { apply Forall_forall. intros x Hx. apply repeat_spec in Hx. now subst x. }
  refine (long_segment_overflows_volatile 64 1 0 7 [] seg [] _ _ _ _ Hn);
    try reflexivity; unfold len, seg; rewrite ?repeat_length; simpl; lia.
Defined.

(** ** Datagrams that are refused *)

(** X5. A datagram whose version field (the two top bits of byte 0) is not
    1 is rejected by both servers, whatever else it holds. *)
Theorem unsupported_version_rejected (buf : bytes) :
  Z.land (Z.shiftr (nth 0 buf 0) 6) 3 <> COAP_VER ->
  Volatile.coap_parse buf = Reject /\ Persist.coap_parse buf = Reject.
Proof.
  intros H. unfold Volatile.coap_parse, Persist.coap_parse, coap_parse_with.
  destruct (len buf <? 4); [now split|].
  destruct (Z.eqb_spec (Z.land (Z.shiftr (nth 0 buf 0) 6) 3) COAP_VER);
    [contradiction | now split].
Qed.

Lemma unsupported_version_rejected_witness :
  let buf := [128; 1; 0; 7; 182] ++ str "sensor" in
  Z.land (Z.shiftr (nth 0 buf 0) 6) 3 <> COAP_VER /\
  Volatile.coap_parse buf = Reject /\ Persist.coap_parse buf = Reject.
Proof.
  intros buf.
  assert (H : Z.land (Z.shiftr (nth 0 buf 0) 6) 3 <> COAP_VER) by discriminate.
  split; [exact H | exact (unsupported_version_rejected buf H)].
Defined.

Lemma read_nibble_ext_reserved (p : bytes) : read_nibble_ext 15 p = (-1, p).
Proof. reflexivity. Qed.

Lemma read_option_header_reserved (b : byte) (rest : bytes) :
  Z.land (Z.shiftr b 4) 15 = 15 \/ Z.land b 15 = 15 ->
  exists d l p2,
    read_option_header b rest = (d, l, p2) /\ (d <? 0) || (l <? 0) = true.
Proof.
  intros H. unfold read_option_header.
  destruct (read_nibble_ext (Z.land (Z.shiftr b 4) 15) rest) as [d p1] eqn:E1.
  destruct (read_nibble_ext (Z.land b 15) p1) as [l p2] eqn:E2.
  exists d, l, p2. split; [reflexivity|].
  destruct H as [H|H].
  - rewrite H, read_nibble_ext_reserved in E1. now inversion E1.
  - rewrite H, read_nibble_ext_reserved in E2. inversion E2.
    apply orb_true_r.
Qed.

Section FirstOption.

Variable append_segment : bytes -> bytes -> option bytes.

Lemma option_loop_first_option_rejected (b : byte) (rest : bytes) :
  ((Z.land (Z.shiftr b 4) 15 = 15 \/ Z.land b 15 = 15) /\
   b <> PAYLOAD_MARKER) \/
  (Z.land (Z.shiftr b 4) 15 < 13 /\ Z.land b 15 < 13 /\
   len rest < Z.land b 15) ->
  option_loop append_segment (length (b :: rest)) (b :: rest) 0 [] = Reject.
Proof.
  intros H. cbn [length].
  assert (Hb : b <> PAYLOAD_MARKER).
  { destruct H as [[_ H]|(_ & H & _)]; [exact H|].
    intros ->. change (Z.land PAYLOAD_MARKER 15) with 15 in H. lia. }
  rewrite option_loop_step by assumption.
  destruct H as [[H _]|(Hd & Hl & Hlen)].
  - destruct (read_option_header_reserved b rest H) as (d & l & p2 & -> & E).
    now rewrite E.
  - unfold read_option_header.
    rewrite !read_nibble_ext_literal by assumption.
    pose proof (land_15_range (Z.shiftr b 4)).
    pose proof (land_15_range b).
    destruct (Z.ltb_spec (Z.land (Z.shiftr b 4) 15) 0); [lia|].
    destruct (Z.ltb_spec (Z.land b 15) 0); [lia|]. cbn [orb].
    destruct (Z.ltb_spec (len rest) (Z.land b 15)); [reflexivity|lia].
Qed.

End FirstOption.

(** X6. After a valid header and token, a first option byte with the
    reserved nibble 15 as delta or as length (and which is not the marker
    0xFF), or one that announces more value bytes than the datagram has
    left, makes both servers reject the datagram. *)
Theorem malformed_first_option_rejected
    (b0 b1 b2 b3 : byte) (tok : bytes) (b : byte) (rest : bytes) :
  Z.land (Z.shiftr b0 6) 3 = COAP_VER ->
  Z.land b0 15 = len tok -> len tok <= 8 ->
  ((Z.land (Z.shiftr b 4) 15 = 15 \/ Z.land b 15 = 15) /\
   b <> PAYLOAD_MARKER) \/
  (Z.land (Z.shiftr b 4) 15 < 13 /\ Z.land b 15 < 13 /\
   len rest < Z.land b 15) ->
  Volatile.coap_parse (b0 :: b1 :: b2 :: b3 :: tok ++ b :: rest) = Reject /\
  Persist.coap_parse (b0 :: b1 :: b2 :: b3 :: tok ++ b :: rest) = Reject.
Proof.
  intros Hv Hk Hk8 H. unfold Volatile.coap_parse, Persist.coap_parse.
  rewrite !coap_parse_with_frame by assumption.
  now rewrite !option_loop_first_option_rejected.
Qed.

Lemma malformed_first_option_rejected_witness :
  Volatile.coap_parse ([65; 1; 0; 7; 9] ++ 240 :: [1; 2; 3]) = Reject /\
  Persist.coap_parse ([65; 1; 0; 7; 9] ++ 182 :: str "sens") = Reject.
Proof.
  split.
  - refine (proj1 (malformed_first_option_rejected
                     65 1 0 7 [9] 240 [1; 2; 3] _ _ _ _));
      try reflexivity; [unfold len; simpl; lia|].
    left. split; [left; reflexivity | discriminate].
  - refine (proj2 (malformed_first_option_rejected
                     65 1 0 7 [9] 182 (str "sens") _ _ _ _));
      try reflexivity; [unfold len; simpl; lia|].
    right. unfold len. simpl. lia.
Defined.

(** ** Responses *)

Lemma response_header_byte (rt k : Z) :
  rt = COAP_ACK \/ rt = COAP_NON -> 0 <= k <= 15 ->
  let b0 := (Z.lor (Z.lor (Z.shiftl COAP_VER 6) (Z.shiftl rt 4)) k) mod 256 in
  Z.land (Z.shiftr b0 6) 3 = COAP_VER /\
  Z.land (Z.shiftr b0 4) 3 = rt /\
  Z.land b0 15 = k.
Proof.
  intros Hrt Hk.
  assert (Hk' : In k (map Z.of_nat (seq 0 16))).
  { replace k with (Z.of_nat (Z.to_nat k)) by lia. apply in_map, in_seq. lia. }
  destruct Hrt as [-> | ->]; cbn [map seq] in Hk';
    repeat (destruct Hk' as [<-|Hk']; [repeat split; reflexivity|]);
    contradiction.
Qed.

Lemma response_type_cases (req_type : Z) :
  response_type req_type = COAP_ACK \/ response_type req_type = COAP_NON.
Proof. unfold response_type. destruct (req_type =? COAP_CON); auto. Qed.

(** What [build_response] stores when the capacity suffices. *)
Lemma build_response_full (cap req_type : Z) (tok : bytes) (r_mid r_code : Z)
    (payload : option bytes) :
  response_length (len tok) payload <= cap ->
  build_response cap req_type (len tok) tok r_mid r_code payload =
  (response_length (len tok) payload,
   (Z.lor (Z.lor (Z.shiftl COAP_VER 6) (Z.shiftl (response_type req_type) 4))
          (Z.land (len tok) 15)) mod 256
     :: r_code :: (Z.shiftr r_mid 8) mod 256 :: (Z.land r_mid 255) mod 256
     :: tok ++ 193 :: 0 ::
        match payload with
        | Some (c :: pl) => PAYLOAD_MARKER :: c :: pl
        | _ => []
        end).
Proof.
  intros Hcap. unfold build_response, response_length in *.
  pose proof (len_nonneg tok) as Ht.
  assert (Hp : 0 <= match payload with
                    | Some pl => if 0 <? len pl then 1 + len pl else 0
                    | None => 0
                    end).
  { destruct payload as [pl|]; [|lia]. pose proof (len_nonneg pl).
    destruct (0 <? len pl); lia. }
  destruct (Z.ltb_spec cap (4 + len tok)); [lia|].
  rewrite add_option_content_format.
  destruct (Z.ltb_spec (cap - (4 + len tok)) 2); [lia|].
  change (2 <? 0) with false. cbv iota.
  rewrite to_nat_len, firstn_all. fold (response_type req_type).
  destruct payload as [[|c pl]|].
  - change (0 <? len []) with false. cbv iota.
    cbn [app]. rewrite <- ?app_assoc. cbn [app]. f_equal. lia.
  - assert (Hpos : 0 < len (c :: pl))
      by (rewrite len_cons; pose proof (len_nonneg pl); lia).
    destruct (Z.ltb_spec 0 (len (c :: pl))); [|lia].
    destruct (Z.ltb_spec cap (4 + len tok + 2 + 1 + len (c :: pl))); [lia|].
    cbn [app]. rewrite <- ?app_assoc. cbn [app]. f_equal. lia.
  - cbn [app]. rewrite <- ?app_assoc. cbn [app]. f_equal. lia.
Qed.

Section ResponseDecoding.

Variable append_segment : bytes -> bytes -> option bytes.

Lemma option_loop_content_format (fuel : nat) (tail : bytes) :
  (S (S (length tail)) <= fuel)%nat ->
  option_loop append_segment fuel (193 :: 0 :: tail) 0 [] =
  option_loop append_segment (length tail) tail 12 [].
Proof.
  intros Hfuel.
  change (193 :: 0 :: tail)
    with ((Z.lor (Z.shiftl 12 4) (len [0])) mod 256 :: [0] ++ tail).
  rewrite option_loop_short_option; [reflexivity | lia | | ].
  - change (len [0]) with 1. lia.
  - cbn [length app]. lia.
Qed.

Lemma build_response_decodes (cap req_type : Z) (tok : bytes)
    (r_mid r_code : Z) (payload : option bytes) :
  len tok <= 8 -> 0 <= r_mid < 65536 ->
  response_length (len tok) payload <= cap ->
  coap_parse_with append_segment
    (snd (build_response cap req_type (len tok) tok r_mid r_code payload)) =
  Ok (mk_req (response_type req_type) (len tok) r_code r_mid tok []
             match payload with
             | Some (c :: pl) => Some (c :: pl)
             | _ => None
             end).
Proof.
  intros Hk Hm Hcap. rewrite build_response_full by assumption. cbn [snd].
  pose proof (len_nonneg tok) as Ht.
  destruct (response_header_byte (response_type req_type)
                                 (Z.land (len tok) 15))
    as (Hv & Hty & Hlow);
    [apply response_type_cases | apply land_15_range |].
  rewrite (land_15_small (len tok)) in * by lia.
  rewrite coap_parse_with_frame by assumption.
  rewrite option_loop_content_format by (cbn [length]; lia). rewrite Hty.
  destruct (be16_of_msgId r_mid Hm) as (-> & -> & ->).
  destruct payload as [[|c pl]|].
  - now rewrite option_loop_nil.
  - now rewrite option_loop_marker.
  - now rewrite option_loop_nil.
Qed.

End ResponseDecoding.

(** X7. A response that [build_response] was given room for decodes, with
    the decoder of either server, to the response type (ACK for a CON
    request, NON otherwise), the token, the message id, the code, an empty
    path, and the payload - absent when the body was empty; and the
    returned length is the number of bytes stored. *)
Theorem response_roundtrip (cap req_type : Z) (tok : bytes)
    (r_mid r_code : Z) (payload : option bytes) :
  len tok <= 8 -> 0 <= r_mid < 65536 ->
  response_length (len tok) payload <= cap ->
  let '(n, out) :=
    build_response cap req_type (len tok) tok r_mid r_code payload in
  let decoded :=
    mk_req (response_type req_type) (len tok) r_code r_mid tok []
           match payload with
           | Some (c :: pl) => Some (c :: pl)
           | _ => None
           end in
  n = len out /\
  Volatile.coap_parse out = Ok decoded /\
  Persist.coap_parse out = Ok decoded.
Proof.
  intros Hk Hm Hcap.
  pose proof (build_response_decodes Volatile.uri_path_append
                cap req_type tok r_mid r_code payload Hk Hm Hcap) as HV.
  pose proof (build_response_decodes
                (fun dst seg => Some (Persist.append_uri_segment dst seg))
                cap req_type tok r_mid r_code payload Hk Hm Hcap) as HP.
  pose proof (build_response_full cap req_type tok r_mid r_code payload Hcap)
    as E.
  destruct (build_response cap req_type (len tok) tok r_mid r_code payload)
    as [n out].
  cbn [snd] in HV, HP. injection E as -> ->.
  split; [|split; assumption].
  unfold response_length. pose proof (len_nonneg tok).
  destruct payload as [[|c pl]|];
    rewrite !len_cons, len_app, ?len_cons; change (len []) with 0;
    change (0 <? 0) with false; cbv iota; try lia.
  pose proof (len_nonneg pl).
  destruct (Z.ltb_spec 0 (1 + len pl)); lia.
Qed.

Lemma response_roundtrip_witness :
  let '(n, out) :=
    build_response 1500 COAP_CON (len [18; 52]) [18; 52] 4660
                   COAP_205_CONTENT (Some (str "23.5")) in
  n = len out /\
  Volatile.coap_parse out =
    Ok (mk_req COAP_ACK 2 COAP_205_CONTENT 4660 [18; 52] []
               (Some (str "23.5"))) /\
  Persist.coap_parse out =
    Ok (mk_req COAP_ACK 2 COAP_205_CONTENT 4660 [18; 52] []
               (Some (str "23.5"))).
Proof.
  apply (response_roundtrip 1500 COAP_CON [18; 52] 4660 COAP_205_CONTENT
                            (Some (str "23.5")));
    unfold len, response_length; simpl; lia.
Defined.

(** ** Every accepted request is answered *)

Lemma coap_parse_with_token_facts
    (f : bytes -> bytes -> option bytes) (buf : bytes) (r : coap_req_t) :
  coap_parse_with f buf = Ok r ->
  tkl r = len (token r) /\ len (token r) <= 8 /\ 0 <= mid r < 65536.
Proof.
  intros H. apply coap_parse_with_header_facts in H.
  destruct H as (_ & _ & Hk & Hk8 & Hlen & _ & Hm & Htok & _).
  assert (Hk0 : 0 <= tkl r) by (rewrite Hk; apply land_15_range).
  assert (E : len (token r) = tkl r).
  { rewrite Htok. unfold len in *. rewrite length_firstn, length_skipn. lia. }
  split; [now rewrite E|]. split; [lia|].
  rewrite Hm. apply Z.mod_pos_bound. reflexivity.
Qed.

Lemma snprintf_s_length (n : nat) (s : bytes) :
  (length (snprintf_s n s) <= n - 1)%nat.
Proof. unfold snprintf_s. apply firstn_le_length. Qed.

Lemma volatile_dispatch_resp_length (g : bytes) (req : coap_req_t) :
  (length (snd (Volatile.dispatch g req)) <= 1199)%nat.
Proof.
  unfold Volatile.dispatch.
  repeat match goal with
         | |- context [if ?c then _ else _] => destruct c
         end; cbn [snd]; apply (snprintf_s_length 1200).
Qed.

Lemma persist_dispatch_resp_length (env : Persist.io_env) (fs : Persist.files)
    (req : coap_req_t) :
  (length (snd (Persist.dispatch env fs req)) <= 1199)%nat.
Proof.
  unfold Persist.dispatch.
  destruct (_ && _).
  { destruct (Persist.read_last_line (Persist.CURR fs) 2048);
      [cbn [snd]; apply (snprintf_s_length 1200)|].
    destruct (Persist.read_last_line (Persist.DATA fs) 2048);
      cbn [snd]; apply (snprintf_s_length 1200). }
  destruct (_ && _).
  { destruct (Persist.write_current_and_history env fs (body_of req))
      as [[rc fs'] tr].
    destruct (rc =? 0); cbn [snd]; apply (snprintf_s_length 1200). }
  destruct (_ && _).
  { destruct (Persist.write_current_and_history env fs (body_of req))
      as [[rc fs'] tr].
    destruct (rc =? 0); cbn [snd]; apply (snprintf_s_length 1200). }
  cbn [snd]. apply (snprintf_s_length 1200).
Qed.

(** The response to a decoded request always fits [outbuf[1500]]. *)
Lemma response_fits_outbuf (tok resp : bytes) :
  len tok <= 8 -> (length resp <= 1199)%nat ->
  response_length (len tok) (Some resp) <= 1500 /\
  0 < response_length (len tok) (Some resp).
Proof.
  intros Hk Hr. unfold response_length. pose proof (len_nonneg tok).
  unfold len in *. destruct (0 <? Z.of_nat (length resp)); lia.
Qed.

Section ServeAnswers.

Variable f : bytes -> bytes -> option bytes.

Lemma answer_decodes (req : coap_req_t) (inbuf : bytes) (rcode : Z)
    (resp : bytes) :
  coap_parse_with f inbuf = Ok req ->
  (length resp <= 1199)%nat ->
  exists outlen out,
    build_response 1500 (type req) (tkl req) (token req) (mid req) rcode
                   (Some resp) = (outlen, out) /\
    (0 <? outlen) = true /\ len out <= 1500 /\
    coap_parse_with f out =
      Ok (mk_req (response_type (type req)) (tkl req) rcode (mid req)
                 (token req) [] (response_payload resp)).
Proof.
  intros Hp Hr.
  destruct (coap_parse_with_token_facts f inbuf req Hp) as (Hk & Hk8 & Hm).
  destruct (response_fits_outbuf (token req) resp Hk8 Hr) as [Hcap Hpos].
  rewrite Hk.
  pose proof (build_response_decodes f 1500 (type req) (token req) (mid req)
                                     rcode (Some resp) Hk8 Hm Hcap) as Hd.
  pose proof (build_response_full 1500 (type req) (token req) (mid req)
                                  rcode (Some resp) Hcap) as Hfull.
  destruct (build_response 1500 (type req) (len (token req)) (token req)
                           (mid req) rcode (Some resp)) as [outlen out].
  exists outlen, out. cbn [snd] in Hd.
  split; [reflexivity|]. injection Hfull as Hn Hout.
  split; [apply Z.ltb_lt; lia|]. split.
  - rewrite Hout, !len_cons, len_app, !len_cons.
    unfold response_length in Hcap.
    destruct resp as [|c pl].
    + change (len []) with 0 in *. change (0 <? 0) with false in Hcap. lia.
    + rewrite !len_cons in *. pose proof (len_nonneg pl).
      destruct (Z.ltb_spec 0 (1 + len pl)); lia.
  - rewrite Hd. unfold response_payload. now destruct resp.
Qed.

End ServeAnswers.

(** X8. Both servers answer every datagram that they decode: the response
    always fits the 1500-byte output buffer, so something is sent, and what
    is sent decodes to the response type (ACK for CON, NON otherwise), the
    token and message id of the request, the code and the body chosen by
    the dispatcher (no payload when the body is empty). *)
Theorem serve_answers_every_request :
  (forall g inbuf req,
      Volatile.coap_parse inbuf = Ok req ->
      exists g' rcode resp out,
        Volatile.dispatch g req = (g', rcode, resp) /\
        Volatile.serve g inbuf = Ok (g', Some out) /\
        len out <= 1500 /\
        Volatile.coap_parse out =
          Ok (mk_req (response_type (type req)) (tkl req) rcode (mid req)
                     (token req) [] (response_payload resp))) /\
  (forall env fs inbuf req,
      Persist.coap_parse inbuf = Ok req ->
      exists fs' rcode resp out,
        Persist.dispatch env fs req = (fs', rcode, resp) /\
        Persist.serve env fs inbuf = Ok (fs', Some out) /\
        len out <= 1500 /\
        Persist.coap_parse out =
          Ok (mk_req (response_type (type req)) (tkl req) rcode (mid req)
                     (token req) [] (response_payload resp))).
Proof.
  split.
  - intros g inbuf req Hp.
    pose proof (volatile_dispatch_resp_length g req) as Hr.
    destruct (Volatile.dispatch g req) as [[g' rcode] resp] eqn:Ed.
    cbn [snd] in Hr.
    destruct (answer_decodes _ req inbuf rcode resp Hp Hr)
      as (outlen & out & Eb & Hpos & Hlen & Hdec).
    exists g', rcode, resp, out. split; [reflexivity|].
    unfold Volatile.serve. rewrite Hp, Ed, Eb, Hpos. auto.
  - intros env fs inbuf req Hp.
    pose proof (persist_dispatch_resp_length env fs req) as Hr.
    destruct (Persist.dispatch env fs req) as [[fs' rcode] resp] eqn:Ed.
    cbn [snd] in Hr.
    destruct (answer_decodes _ req inbuf rcode resp Hp Hr)
      as (outlen & out & Eb & Hpos & Hlen & Hdec).
    exists fs', rcode, resp, out. split; [reflexivity|].
    unfold Persist.serve, Persist.build_resp. rewrite Hp, Ed, Eb, Hpos. auto.
Qed.

Lemma serve_answers_every_request_witness :
  let inbuf := [82; 1; 18; 52; 170; 187; 182] ++ str "sensor" in
  let req := mk_req 1 2 1 4660 [170; 187] (str "sensor") None in
  Volatile.coap_parse inbuf = Ok req /\
  exists g' rcode resp out,
    Volatile.dispatch (str "23.5") req = (g', rcode, resp) /\
    Volatile.serve (str "23.5") inbuf = Ok (g', Some out) /\
    len out <= 1500 /\
    Volatile.coap_parse out =
      Ok (mk_req COAP_NON 2 rcode 4660 [170; 187] []
                 (response_payload resp)).
Proof.
  intros inbuf req.
  assert (H : Volatile.coap_parse inbuf = Ok req) by reflexivity.
  split; [exact H|].
  exact (proj1 serve_answers_every_request (str "23.5") inbuf req H).
Defined.

(** ** The client's header parser *)

Lemma parseHeader_frame (b0 b1 b2 b3 : byte) (rest : bytes) :
  Z.land (Z.shiftr b0 6) 3 = 1 ->
  Client.parseHeader (b0 :: b1 :: b2 :: b3 :: rest) =
    Some (Z.land (Z.shiftr b0 4) 3, b1,
          (Z.lor (Z.shiftl b2 8) b3) mod 65536).
Proof.
  intros Hv. unfold Client.parseHeader.
  rewrite !len_cons. pose proof (len_nonneg rest).
  destruct (Z.ltb_spec (1 + (1 + (1 + (1 + len rest)))) 4); [lia|].
  cbn [nth]. rewrite Hv. reflexivity.
Qed.

(** X9. The client reads back the header of what it builds - type CON,
    code POST, its message id, whatever the paths and the payload are - and
    the header of every response that [build_response] had room for: the
    response type, the code and the message id. *)
Theorem client_reads_headers :
  (forall path1 path2 json msgId,
      0 <= msgId < 65536 ->
      Client.parseHeader (Client.buildPost path1 path2 json msgId) =
        Some (COAP_CON, COAP_POST, msgId)) /\
  (forall cap req_type tok r_mid r_code payload,
      0 <= r_mid < 65536 ->
      response_length (len tok) payload <= cap ->
      Client.parseHeader
        (snd (build_response cap req_type (len tok) tok r_mid r_code payload))
      = Some (response_type req_type, r_code, r_mid)).
Proof.
  split.
  - intros path1 path2 json msgId Hm.
    destruct (be16_of_msgId msgId Hm) as (Ehi & Elo & Emid).
    rewrite buildPost_unfold. cbv zeta. rewrite Ehi, Elo.
    rewrite parseHeader_frame by reflexivity. now rewrite Emid.
  - intros cap req_type tok r_mid r_code payload Hm Hcap.
    rewrite build_response_full by assumption. cbn [snd].
    destruct (response_header_byte (response_type req_type)
                                   (Z.land (len tok) 15))
      as (Hv & Hty & _);
      [apply response_type_cases | apply land_15_range |].
    rewrite parseHeader_frame by assumption. rewrite Hty.
    destruct (be16_of_msgId r_mid Hm) as (-> & -> & ->). reflexivity.
Qed.

Lemma client_reads_headers_witness :
  Client.parseHeader
    (Client.buildPost (Some (str "a-path-segment-of-more-than-12"))
                      None (str "{}") 4660) =
    Some (COAP_CON, COAP_POST, 4660) /\
  Client.parseHeader
    (snd (build_response 1500 COAP_CON (len [18; 52]) [18; 52] 4660
                         COAP_205_CONTENT (Some (str "echo: {}")))) =
    Some (COAP_ACK, COAP_205_CONTENT, 4660).
Proof.
  destruct client_reads_headers as [H1 H2]. split.
  - apply H1. lia.
  - apply (H2 1500 COAP_CON [18; 52] 4660 COAP_205_CONTENT
              (Some (str "echo: {}"))); unfold response_length, len;
      simpl; lia.
Defined.

Section SameHeader.

Variable f : bytes -> bytes -> option bytes.

Lemma parseHeader_of_accepted (buf : bytes) (r : coap_req_t) :
  coap_parse_with f buf = Ok r ->
  Client.parseHeader buf = Some (type r, code r, mid r).
Proof.
  intros H. unfold Client.parseHeader.
  pose proof H as H'. unfold coap_parse_with in H'.
  destruct (len buf <? 4); [discriminate|]. clear H'.
  apply coap_parse_with_header_facts in H.
  destruct H as (Hv & Hty & _ & _ & _ & Hc & Hm & _).
  rewrite Hv, Hty, Hc, Hm. reflexivity.
Qed.

Lemma parseHeader_none_rejected (buf : bytes) :
  Client.parseHeader buf = None -> coap_parse_with f buf = Reject.
Proof.
  unfold Client.parseHeader, coap_parse_with.
  destruct (len buf <? 4); [reflexivity|].
  change COAP_VER with 1.
  destruct (negb _); [reflexivity | discriminate].
Qed.

End SameHeader.

(** X10. The client's [parseHeader] and the servers' [coap_parse] read the
    same header: on a datagram that a server accepts, [parseHeader] returns
    the type, code and message id that the server decoded, and a datagram
    that [parseHeader] refuses is rejected by both servers. *)
Theorem parseHeader_matches_coap_parse (buf : bytes) :
  (forall r,
      Volatile.coap_parse buf = Ok r \/ Persist.coap_parse buf = Ok r ->
      Client.parseHeader buf = Some (type r, code r, mid r)) /\
  (Client.parseHeader buf = None ->
   Volatile.coap_parse buf = Reject /\ Persist.coap_parse buf = Reject).
Proof.
  split.
  - intros r [H|H]; eapply parseHeader_of_accepted; exact H.
  - intros H. split; now apply parseHeader_none_rejected.
Qed.

Lemma parseHeader_matches_coap_parse_witness :
  let buf := [82; 1; 18; 52; 170; 187; 182] ++ str "sensor" in
  Client.parseHeader buf = Some (COAP_NON, COAP_GET, 4660) /\
  (Client.parseHeader [64; 1; 0] = None /\
   Volatile.coap_parse [64; 1; 0] = Reject).
Proof.
  intros buf. split.
  - apply (proj1 (parseHeader_matches_coap_parse buf)
                 (mk_req 1 2 1 4660 [170; 187] (str "sensor") None)).
    left. reflexivity.
  - split; [reflexivity|].
    apply (proj2 (parseHeader_matches_coap_parse [64; 1; 0])). reflexivity.
Defined.

(** * Further properties of the text files *)

Lemma drop_crlf_split (x : bytes) :
  exists t, x = t ++ Persist.drop_crlf x /\ blank t.
Proof.
  induction x as [|c x IH]; [exists []; split; [reflexivity | constructor]|].
  cbn [Persist.drop_crlf]. destruct (Persist.is_crlf c) eqn:E.
  - destruct IH as (t & Ht & Hb). exists (c :: t). split.
    + cbn [app]. now f_equal.
    + constructor; [now apply is_crlf_true | assumption].
  - exists []. split; [reflexivity | constructor].
Qed.

Lemma drop_crlf_head (x y : bytes) (c : byte) :
  Persist.drop_crlf x = c :: y -> Persist.is_crlf c = false.
Proof.
  induction x as [|d x IH]; [discriminate|].
  cbn [Persist.drop_crlf]. destruct (Persist.is_crlf d) eqn:E; [exact IH|].
  now intros [= <- _].
Qed.

Lemma rstrip_split (s : bytes) :
  exists t, s = Persist.rstrip s ++ t /\ blank t.
Proof.
  unfold Persist.rstrip.
  destruct (drop_crlf_split (rev s)) as (t & Ht & Hb).
  exists (rev t). split; [|now apply blank_rev].
  rewrite <- rev_app_distr, <- Ht. now rewrite rev_involutive.
Qed.

Lemma rstrip_last (s u : bytes) (c : byte) :
  Persist.rstrip s = u ++ [c] -> c <> LF /\ c <> CR.
Proof.
  unfold Persist.rstrip. intros H.
  apply (f_equal (@rev byte)) in H.
  rewrite rev_involutive, rev_app_distr in H. cbn [rev app] in H.
  apply drop_crlf_head in H.
  split; intros ->; discriminate H.
Qed.

(** X11. [rstrip] removes exactly the line ends at the end of a string:
    the string is the result followed by CR and LF characters only, and the
    result does not end in CR or LF. *)
Theorem rstrip_removes_trailing_line_ends (s : bytes) :
  (exists t, s = Persist.rstrip s ++ t /\ blank t) /\
  (forall u c, Persist.rstrip s = u ++ [c] -> c <> LF /\ c <> CR) /\
  Persist.rstrip (Persist.rstrip s) = Persist.rstrip s.
Proof.
  split; [apply rstrip_split|]. split; [apply rstrip_last|].
  apply rstrip_id. apply rstrip_last.
Qed.

Lemma cstr_prefix (s : bytes) : exists t, s = cstr s ++ t.
Proof.
  induction s as [|c s IH]; [now exists []|].
  cbn [cstr]. destruct (c =? 0); [now exists (c :: s)|].
  destruct IH as [t Ht]. exists t. cbn [app]. now f_equal.
Qed.

Lemma fgets_chars_length (k : nat) (f ch r : bytes) :
  Persist.fgets_chars k f = (ch, r) -> (length ch <= k)%nat.
Proof.
  revert f ch r. induction k as [|k IH]; intros f ch r.
  - destruct f; intros [= <- _]; simpl; lia.
  - destruct f as [|c f]; [intros [= <- _]; simpl; lia|].
    cbn [Persist.fgets_chars].
    destruct (c =? LF); [intros [= <- _]; simpl; lia|].
    destruct (Persist.fgets_chars k f) as [l r'] eqn:E.
    intros [= <- _]. apply IH in E. simpl. lia.
Qed.

(** A line feed can only be the last character that [fgets] stores. *)
Lemma fgets_chars_lf_last (k : nat) (f ch r a b : bytes) :
  Persist.fgets_chars k f = (ch, r) -> ch = a ++ LF :: b -> b = [].
Proof.
  revert f ch r a. induction k as [|k IH]; intros f ch r a.
  - destruct f; intros [= <- _] E; now destruct a.
  - destruct f as [|c f]; [intros [= <- _] E; now destruct a|].
    cbn [Persist.fgets_chars].
    destruct (Z.eqb_spec c LF) as [->|Hc].
    + intros [= <- _] E. destruct a as [|x [|y a]]; try discriminate E.
      now injection E.
    + destruct (Persist.fgets_chars k f) as [l r'] eqn:El.
      intros [= <- _] E. destruct a as [|x a].
      * cbn [app] in E. injection E as E _. contradiction.
      * cbn [app] in E. injection E as _ E. exact (IH _ _ _ _ El E).
Qed.

(** What a line stored in [last] looks like, whatever the file holds. *)
Lemma chunk_line_is_stripped (k : nat) (f ch r : bytes) :
  Persist.fgets_chars k f = (ch, r) ->
  Persist.rstrip (cstr ch) <> [] ->
  stripped_line (Persist.rstrip (cstr ch)) /\
  (length (Persist.rstrip (cstr ch)) <= k)%nat /\
  exists t, f = Persist.rstrip (cstr ch) ++ t.
Proof.
  intros E Hne.
  destruct (rstrip_split (cstr ch)) as (t2 & Ht2 & _).
  destruct (cstr_prefix ch) as (t1 & Ht1).
  set (line := Persist.rstrip (cstr ch)) in *.
  assert (Hch : ch = line ++ t2 ++ t1)
    by (rewrite Ht1 at 1; rewrite Ht2 at 1; now rewrite <- app_assoc).
  split; [|split].
  - split; [assumption|]. split.
    + apply Forall_forall. intros x Hx. split.
      * intros ->. apply in_split in Hx. destruct Hx as (a & b & Hab).
        assert (Hb : b ++ t2 ++ t1 = []).
        { apply (fgets_chars_lf_last k f ch r a); [assumption|].
          rewrite Hch, Hab, <- app_assoc. reflexivity. }
        apply app_eq_nil in Hb. destruct Hb as [-> _].
        destruct (rstrip_last (cstr ch) a LF Hab) as [H _]. now apply H.
      * pose proof (cstr_is_cstring ch) as Hn. rewrite Ht2 in Hn.
        apply Forall_app in Hn. destruct Hn as [Hn _].
        rewrite Forall_forall in Hn. now apply Hn.
    + intros u Hu. destruct (rstrip_last (cstr ch) u CR Hu) as [_ H].
      now apply H.
  - apply fgets_chars_length in E. rewrite Hch, length_app in E. lia.
  - apply fgets_chars_split in E. exists ((t2 ++ t1) ++ r).
    rewrite E, Hch. now rewrite <- !app_assoc.
Qed.

Lemma read_lines_result (content : bytes) (fuel : nat) :
  forall pre f last,
    content = pre ++ f ->
    last = [] \/
      (stripped_line last /\ (length last <= 2047)%nat /\
       contains last content) ->
    Persist.read_lines fuel f last = [] \/
      (stripped_line (Persist.read_lines fuel f last) /\
       (length (Persist.read_lines fuel f last) <= 2047)%nat /\
       contains (Persist.read_lines fuel f last) content).
Proof.
  induction fuel as [|fuel IH]; intros pre f last Hc Hlast; [exact Hlast|].
  destruct f as [|c f]; [exact Hlast|].
  rewrite read_lines_cons.
  destruct (Persist.fgets_chars 2047 (c :: f)) as [ch r] eqn:E.
  cbv zeta.
  pose proof (fgets_chars_split _ _ _ _ E) as Hsplit.
  apply (IH (pre ++ ch) r).
  - now rewrite <- app_assoc, <- Hsplit.
  - destruct (list_eq_dec Z.eq_dec (Persist.rstrip (cstr ch)) []) as [Hz|Hnz].
    + rewrite Hz, bytes_eqb_refl. exact Hlast.
    + rewrite bytes_eqb_neq by assumption.
      destruct (chunk_line_is_stripped _ _ _ _ E Hnz) as (Hs & Hl & t & Ht).
      rewrite snprintf_s_fits by lia. right.
      split; [assumption|]. split; [assumption|].
      exists pre, t. now rewrite Hc, Ht.
Qed.

(** X12. Whatever the file holds - long lines, NUL bytes, no final line
    feed - a line that [read_last_line] returns is non-empty, has at most
    2047 characters (it fits the caller's [line[2048]]), contains no LF and
    no NUL, does not end in CR, and occurs in the file. *)
Theorem read_last_line_returns_clean_line (file : option bytes) (l : bytes) :
  Persist.read_last_line file 2048 = Some l ->
  stripped_line l /\ (length l <= 2047)%nat /\
  exists content, file = Some content /\ contains l content.
Proof.
  unfold Persist.read_last_line. destruct file as [content|]; [|discriminate].
  destruct (read_lines_result content (length content) [] content []
                              eq_refl (or_introl eq_refl)) as [Hz|H].
  - rewrite Hz, bytes_eqb_refl. discriminate.
  - destruct H as (Hs & Hl & Hc).
    pose proof Hs as (Hne & _).
    rewrite bytes_eqb_neq by assumption.
    rewrite snprintf_s_fits by lia. intros [= <-].
    split; [assumption|]. split; [assumption|]. now exists content.
Qed.

Lemma read_last_line_returns_clean_line_witness :
  let content := str "x" ++ [0] ++ str "hidden" ++ [LF] ++
                 str "23.5" ++ [CR; CR; LF] in
  Persist.read_last_line (Some content) 2048 = Some (str "23.5") /\
  stripped_line (str "23.5") /\ contains (str "23.5") content.
Proof.
  intros content.
  assert (H : Persist.read_last_line (Some content) 2048 = Some (str "23.5"))
    by reflexivity.
  split; [exact H|].
  destruct (read_last_line_returns_clean_line _ _ H)
    as (Hs & _ & c & [= <-] & Hc).
  split; assumption.
Defined.

(** ** [strstr] and [extract_state], in general *)

Lemma is_prefix_false_nil (needle : bytes) :
  Persist.is_prefix needle [] = false -> needle <> [].
Proof. now destruct needle. Qed.

Lemma strstr_some_first (hay needle r : bytes) :
  Persist.strstr hay needle = Some r ->
  exists a b,
    hay = a ++ r /\ r = needle ++ b /\
    forall a' b', hay = a' ++ needle ++ b' -> (length a <= length a')%nat.
Proof.
  revert r. induction hay as [|c hay IH]; intros r.
  - cbn [Persist.strstr].
    destruct (Persist.is_prefix needle []) eqn:E; [|discriminate].
    intros [= <-]. apply is_prefix_true in E. destruct E as [b E].
    exists [], b. repeat split; [exact E | simpl; lia].
  - cbn [Persist.strstr].
    destruct (Persist.is_prefix needle (c :: hay)) eqn:E.
    + intros [= <-]. apply is_prefix_true in E. destruct E as [b E].
      exists [], b. repeat split; [exact E | simpl; lia].
    + intros H. destruct (IH r H) as (a & b & Ha & Hb & Hfirst).
      exists (c :: a), b. split; [cbn [app]; now f_equal|].
      split; [exact Hb|].
      intros a' b' Hab. destruct a' as [|x a'].
      * cbn [app] in Hab. rewrite Hab, is_prefix_app in E. discriminate.
      * cbn [app] in Hab. injection Hab as _ Hab.
        specialize (Hfirst a' b' Hab). simpl. lia.
Qed.

Lemma strstr_contains (hay needle : bytes) :
  contains needle hay -> Persist.strstr hay needle <> None.
Proof.
  intros (a & b & ->). induction a as [|c a IH].
  - cbn [app]. destruct (needle ++ b) as [|x s] eqn:E.
    + apply app_eq_nil in E. destruct E as [-> _]. discriminate.
    + cbn [Persist.strstr]. rewrite <- E, is_prefix_app. discriminate.
  - cbn [app Persist.strstr].
    destruct (Persist.is_prefix needle (c :: a ++ needle ++ b));
      [discriminate | exact IH].
Qed.

(** X13. [strstr] finds the first occurrence: a result is a tail of the
    haystack that begins with the needle, with no occurrence of the needle
    starting before it; and the result is NULL exactly when the needle does
    not occur. *)
Theorem strstr_finds_first_occurrence (hay needle : bytes) :
  (forall r,
      Persist.strstr hay needle = Some r ->
      exists a b,
        hay = a ++ r /\ r = needle ++ b /\
        forall a' b', hay = a' ++ needle ++ b' ->
                      (length a <= length a')%nat) /\
  (Persist.strstr hay needle = None <-> ~ contains needle hay).
Proof.
  split; [intros r; apply strstr_some_first|].
  split; [|apply strstr_none].
  intros H Hc. now apply strstr_contains in Hc.
Qed.

Lemma strstr_finds_first_occurrence_witness :
  let hay := str "t payload=a payload=b" in
  Persist.strstr hay (str "payload=") = Some (str "payload=a payload=b") /\
  exists a b,
    hay = a ++ str "payload=a payload=b" /\
    str "payload=a payload=b" = str "payload=" ++ b /\
    forall a' b', hay = a' ++ str "payload=" ++ b' ->
                  (length a <= length a')%nat.
Proof.
  intros hay.
  assert (H : Persist.strstr hay (str "payload=")
              = Some (str "payload=a payload=b")) by reflexivity.
  split; [exact H|].
  exact (proj1 (strstr_finds_first_occurrence hay (str "payload=")) _ H).
Defined.

(** X14. For a line that fits the buffers, [extract_state] returns what
    follows the first "payload=" of the line, and the whole line when the
    tag does not occur. *)
Theorem extract_state_after_first_tag (line : bytes) :
  (length line < 2048)%nat ->
  (contains (str "payload=") line ->
   exists a,
     line = a ++ str "payload=" ++ Persist.extract_state line 2048 /\
     forall a' b', line = a' ++ str "payload=" ++ b' ->
                   (length a <= length a')%nat) /\
  (~ contains (str "payload=") line ->
   Persist.extract_state line 2048 = line).
Proof.
  intros Hlen. split; [|intros H; now apply extract_state_no_tag].
  intros Hc. unfold Persist.extract_state.
  change (2048 =? 0)%nat with false. cbv iota.
  destruct (Persist.strstr line (str "payload=")) as [r|] eqn:E;
    [|now apply strstr_contains in Hc].
  destruct (strstr_some_first _ _ _ E) as (a & b & Ha & Hb & Hfirst).
  exists a. split; [|exact Hfirst].
  rewrite Hb, skipn_app, skipn_all, Nat.sub_diag. cbn [skipn app].
  rewrite snprintf_s_fits; [now rewrite Ha, Hb|].
  rewrite Ha, Hb, !length_app in Hlen. lia.
Qed.

Lemma extract_state_after_first_tag_witness :
  let line := str "2024-01-02T03:04:05Z payload=a payload=b" in
  (length line < 2048)%nat /\
  Persist.extract_state line 2048 = str "a payload=b" /\
  exists a,
    line = a ++ str "payload=" ++ Persist.extract_state line 2048.
Proof.
  intros line.
  assert (Hlen : (length line < 2048)%nat) by (simpl; lia).
  split; [exact Hlen|]. split; [reflexivity|].
  destruct (proj1 (extract_state_after_first_tag line Hlen)) as (a & Ha & _).
  - exists (str "2024-01-02T03:04:05Z "), (str "a payload=b"). reflexivity.
  - now exists a.
Defined.

(** * Further properties of the stores *)

(** ** The history log only grows *)

Lemma extends_refl (f : option bytes) : extends f f.
Proof. exists []. now rewrite app_nil_r. Qed.

Lemma extends_trans (f g h : option bytes) :
  extends f g -> extends g h -> extends f h.
Proof.
  intros [a Ha] [b Hb]. exists (a ++ b). now rewrite Hb, Ha, app_assoc.
Qed.

Lemma write_extends_history (env : Persist.io_env) (fs : Persist.files)
    (value : bytes) :
  extends (Persist.DATA fs)
          (Persist.DATA
             (snd (fst (Persist.write_current_and_history env fs value)))).
Proof.
  unfold Persist.write_current_and_history.
  destruct (Persist.fopen_current env); cbn [negb]; [|apply extends_refl].
  destruct (Persist.printed (Persist.fprintf_current env)); cbn [negb];
    [|apply extends_refl].
  destruct (Persist.fopen_history env); cbn [negb]; [|apply extends_refl].
  destruct (Persist.printed (Persist.fprintf_history env)); cbn [negb];
    cbn [fst snd Persist.DATA Persist.CURR Persist.file_contents];
    eexists; reflexivity.
Qed.

Lemma dispatch_extends_history (env : Persist.io_env) (fs : Persist.files)
    (req : coap_req_t) :
  extends (Persist.DATA fs)
          (Persist.DATA (fst (fst (Persist.dispatch env fs req)))).
Proof.
  unfold Persist.dispatch.
  destruct (_ && _).
  { destruct (Persist.read_last_line (Persist.CURR fs) 2048);
      [apply extends_refl|].
    destruct (Persist.read_last_line (Persist.DATA fs) 2048);
      apply extends_refl. }
  pose proof (write_extends_history env fs (body_of req)) as H.
  destruct (Persist.write_current_and_history env fs (body_of req))
    as [[rc fs'] tr].
  cbn [fst snd] in H.
  destruct (_ && _); [destruct (rc =? 0); exact H|].
  destruct (_ && _); [destruct (rc =? 0); exact H|].
  apply extends_refl.
Qed.

(** X15. The persistent server never shortens or rewrites its history
    log: after any sequence of requests, with any failures of the file
    operations, the log is what it was followed by what was added. *)
Theorem history_only_grows (fs : Persist.files)
    (steps : list (Persist.io_env * coap_req_t)) :
  extends (Persist.DATA fs) (Persist.DATA (persist_run fs steps)).
Proof.
  unfold persist_run. revert fs.
  induction steps as [|step steps IH]; intros fs; [apply extends_refl|].
  cbn [fold_left].
  eapply extends_trans; [apply dispatch_extends_history | apply IH].
Qed.

(** ** Requests that only read *)

Lemma volatile_get_answer (g : bytes) (get : coap_req_t) :
  uri_path get = str "sensor" -> code get = COAP_GET ->
  Volatile.dispatch g get = (g, COAP_205_CONTENT, snprintf_s 1200 g).
Proof.
  intros Hp Hc. unfold Volatile.dispatch. rewrite Hp, Hc. reflexivity.
Qed.

(** X16. In both servers a request that is not one of the writes (PUT
    /sensor, and POST /echo in the persistent server) leaves the store as it
    was, and GET /sensor is answered from the store alone: a second GET
    /sensor, from any client and at any time, gets the answer of the
    first. *)
Theorem reads_leave_store_unchanged :
  (forall g req,
      volatile_writes req = false ->
      fst (fst (Volatile.dispatch g req)) = g) /\
  (forall env fs req,
      persist_writes req = false ->
      fst (fst (Persist.dispatch env fs req)) = fs) /\
  (forall g get1 get2,
      uri_path get1 = str "sensor" -> code get1 = COAP_GET ->
      uri_path get2 = str "sensor" -> code get2 = COAP_GET ->
      Volatile.dispatch (fst (fst (Volatile.dispatch g get1))) get2 =
      Volatile.dispatch g get1) /\
  (forall env1 env2 fs get1 get2,
      uri_path get1 = str "sensor" -> code get1 = COAP_GET ->
      uri_path get2 = str "sensor" -> code get2 = COAP_GET ->
      Persist.dispatch env2 (fst (fst (Persist.dispatch env1 fs get1))) get2 =
      Persist.dispatch env1 fs get1).
Proof.
  split; [exact volatile_readonly|]. split; [exact persist_readonly|]. split.
  - intros g get1 get2 Hp1 Hc1 Hp2 Hc2.
    now rewrite !volatile_get_answer.
  - intros env1 env2 fs get1 get2 Hp1 Hc1 Hp2 Hc2.
    destruct (persist_get_code env1 fs get1 Hc1 Hp1) as [_ ->].
    now rewrite !persist_get_unfold.
Qed.

Lemma reads_leave_store_unchanged_witness :
  let get1 := mk_req COAP_CON 0 COAP_GET 1 [] (str "sensor") None in
  let get2 := mk_req COAP_NON 2 COAP_GET 9 [7; 7] (str "sensor")
                     (Some (str "ignored")) in
  let env1 := Persist.mk_env (str "2024-01-02T03:04:05Z")
                             true Persist.Printed Persist.Closed
                             true Persist.Printed Persist.Closed in
  let env2 := Persist.mk_env (str "2031-12-31T23:59:59Z")
                             false Persist.Printed Persist.Closed
                             false Persist.Printed Persist.Closed in
  let fs := Persist.mk_files (Some (str "7" ++ [LF])) None in
  Persist.dispatch env2 (fst (fst (Persist.dispatch env1 fs get1))) get2 =
  Persist.dispatch env1 fs get1.
Proof.
  intros get1 get2 env1 env2 fs.
  destruct reads_leave_store_unchanged as (_ & _ & _ & H).
  apply H; reflexivity.
Defined.

(** ** The request body *)

(** X17. The body text that the handlers work with is a prefix of the
    payload, of at most 1023 characters and without NUL; it is the first
    1023 bytes of a payload that holds no NUL, and the whole payload when
    that is shorter than 1024 bytes. *)
Theorem body_is_truncated_payload (req : coap_req_t) (pl : bytes) :
  payload req = Some pl ->
  (exists t, pl = body_of req ++ t) /\
  (length (body_of req) <= 1023)%nat /\
  Forall (fun c => c <> 0) (body_of req) /\
  (Forall (fun c => c <> 0) pl -> body_of req = firstn 1023 pl) /\
  (Forall (fun c => c <> 0) pl -> (length pl < 1024)%nat ->
   body_of req = pl).
Proof.
  intros Hpl.
  split; [|split; [apply body_of_length|split; [apply body_of_is_cstring|]]].
  - unfold body_of. rewrite Hpl.
    destruct (0 <? len pl); [|now exists pl].
    destruct (cstr_prefix (firstn 1023 pl)) as [t Ht].
    exists (t ++ skipn 1023 pl).
    rewrite app_assoc, <- Ht. now rewrite firstn_skipn.
  - assert (E : Forall (fun c => c <> 0) pl -> body_of req = firstn 1023 pl).
    { intros Hn. unfold body_of. rewrite Hpl.
      destruct (Z.ltb_spec 0 (len pl)) as [|Hz].
      - apply cstr_no_nul.
        rewrite <- (firstn_skipn 1023 pl) in Hn. now apply Forall_app in Hn.
      - destruct pl; [reflexivity|].
        rewrite len_cons in Hz. pose proof (len_nonneg pl). lia. }
    split; [exact E|].
    intros Hn Hlen. rewrite (E Hn). apply firstn_all2. lia.
Qed.

Lemma body_is_truncated_payload_witness :
  let pl := repeat 120 1500 in
  let req := mk_req COAP_CON 0 COAP_PUT 1 [] (str "sensor") (Some pl) in
  Forall (fun c => c <> 0) pl /\ body_of req = firstn 1023 pl.
Proof.
  intros pl req.
  assert (Hn : Forall (fun c => c <> 0) pl).
  { apply Forall_forall. intros x Hx. apply repeat_spec in Hx. now subst x. }
  split; [exact Hn|].
  destruct (body_is_truncated_payload req pl eq_refl) as (_ & _ & _ & H & _).
  exact (H Hn).
Defined.

(** ** POST /echo, and writes that fail *)

Lemma echo_fits_resp (body : bytes) :
  (length body <= 1023)%nat ->
  snprintf_s 1200 (str "echo: " ++ body) = str "echo: " ++ body.
Proof.
  intros H. apply snprintf_s_fits. rewrite length_app.
  change (length (str "echo: ")) with 6%nat. lia.
Qed.

(** The call when every [fopen] and [fprintf] succeeds: it returns 0, and
    each file holds what its [fclose] wrote out. *)
Lemma write_succeeds (env : Persist.io_env) (fs : Persist.files)
    (value : bytes) :
  current_calls_ok env = true -> history_calls_ok env = true ->
  fst (Persist.write_current_and_history env fs value) =
  (0, Persist.mk_files
        (Some (Persist.stored (Persist.fprintf_current env)
                              (Persist.fclose_current env)
                              (value ++ [LF])))
        (Some (Persist.file_contents (Persist.DATA fs) ++
               Persist.stored (Persist.fprintf_history env)
                              (Persist.fclose_history env)
                              (Persist.iso env ++ str " payload=" ++
                               value ++ [LF])))).
Proof.
  unfold current_calls_ok, history_calls_ok,
    Persist.write_current_and_history.
  destruct (Persist.fopen_current env); [|discriminate].
  destruct (Persist.printed (Persist.fprintf_current env)); [|discriminate].
  destruct (Persist.fopen_history env); [|discriminate].
  destruct (Persist.printed (Persist.fprintf_history env)); [|discriminate].
  reflexivity.
Qed.

Lemma write_ok_split (env : Persist.io_env) :
  current_write_ok env = true ->
  current_calls_ok env = true /\
  Persist.printed (Persist.fprintf_current env) = true /\
  Persist.closed (Persist.fclose_current env) = true.
Proof.
  unfold current_write_ok, current_calls_ok. intros H.
  apply andb_prop in H. destruct H as [H1 H2].
  pose proof H1 as H3. apply andb_prop in H3. now destruct H3.
Qed.

Lemma history_write_ok_split (env : Persist.io_env) :
  history_write_ok env = true ->
  history_calls_ok env = true /\
  Persist.printed (Persist.fprintf_history env) = true /\
  Persist.closed (Persist.fclose_history env) = true.
Proof.
  unfold history_write_ok, history_calls_ok. intros H.
  apply andb_prop in H. destruct H as [H1 H2].
  pose proof H1 as H3. apply andb_prop in H3. now destruct H3.
Qed.

(** What is left when only the append is seen to fail. *)
Lemma write_history_fails (env : Persist.io_env) (fs : Persist.files)
    (value : bytes) :
  current_calls_ok env = true -> history_calls_ok env = false ->
  exists data,
    fst (Persist.write_current_and_history env fs value) =
    (-1, Persist.mk_files
           (Some (Persist.stored (Persist.fprintf_current env)
                                 (Persist.fclose_current env)
                                 (value ++ [LF])))
           data).
Proof.
  unfold current_calls_ok, history_calls_ok,
    Persist.write_current_and_history.
  destruct (Persist.fopen_current env); [|discriminate].
  destruct (Persist.printed (Persist.fprintf_current env)); [|discriminate].
  cbn [andb negb].
  destruct (Persist.fopen_history env);
    [|intros _ _; eexists; reflexivity].
  destruct (Persist.printed (Persist.fprintf_history env)); [discriminate|].
  intros _ _. eexists. reflexivity.
Qed.

Lemma write_current_fails (env : Persist.io_env) (fs : Persist.files)
    (value : bytes) :
  current_calls_ok env = false ->
  fst (fst (Persist.write_current_and_history env fs value)) = -1 /\
  (Persist.fopen_current env = false ->
   snd (fst (Persist.write_current_and_history env fs value)) = fs).
Proof.
  unfold current_calls_ok, Persist.write_current_and_history.
  destruct (Persist.fopen_current env); [|now split].
  destruct (Persist.printed (Persist.fprintf_current env)); [discriminate|].
  intros _. split; [reflexivity | discriminate].
Qed.

(** GET /sensor when the current-state file holds one clean line. *)
Lemma persist_get_current_value (env : Persist.io_env) (data : option bytes)
    (get : coap_req_t) (v : bytes) :
  code get = COAP_GET -> uri_path get = str "sensor" ->
  v <> [] -> Forall (fun c => c <> 0) v -> (length v <= 1023)%nat ->
  ~ In LF v -> (forall u, v <> u ++ [CR]) ->
  let fs := Persist.mk_files (Some (v ++ [LF])) data in
  Persist.dispatch env fs get = (fs, COAP_205_CONTENT, v).
Proof.
  intros Hg Hs Hne Hnul Hlen Hlf Hcr fs.
  apply (persist_get_current env fs get Hg Hs (v ++ [LF]) v);
    [reflexivity | | lia].
  exists [], [LF]. split; [reflexivity|]. split; [now left|]. split.
  - split; [assumption|]. split; [|assumption].
    rewrite Forall_forall in *. intros x Hx. split; [|now apply Hnul].
    intros ->. contradiction.
  - apply Forall_cons; [now left | apply Forall_nil].
Qed.

Lemma persist_write_request (env : Persist.io_env) (fs : Persist.files)
    (req : coap_req_t) (ok_code : Z) (ok_resp : bytes) :
  (code req = COAP_POST /\ uri_path req = str "echo" /\
   ok_code = COAP_205_CONTENT /\
   ok_resp = snprintf_s 1200 (str "echo: " ++ body_of req)) \/
  (code req = COAP_PUT /\ uri_path req = str "sensor" /\
   ok_code = COAP_204_CHANGED /\ ok_resp = str "UPDATED") ->
  Persist.dispatch env fs req =
  let '(rc, fs', _) :=
    Persist.write_current_and_history env fs (body_of req) in
  if rc =? 0 then (fs', ok_code, ok_resp)
  else (fs', COAP_500_INTERR, str "WRITE_FAIL").
Proof.
  unfold Persist.dispatch.
  intros [(Hc & Hp & -> & ->)|(Hc & Hp & -> & ->)]; rewrite Hc, Hp;
    reflexivity.
Qed.

(** X18. POST /echo is answered 2.05 with "echo: " and the whole body text
    (the answer is never cut): by server.c always, and by
    server_persist_clean.c whenever [fopen] and [fprintf] report success for
    both files.  server.c leaves the stored value alone;
    server_persist_clean.c stores the body as the new state, so that GET
    /sensor then returns it - when the line was written out completely as
    the current-state file was closed, and for a body that is one clean
    line. *)
Theorem post_echo_in_both_servers (post : coap_req_t) :
  code post = COAP_POST -> uri_path post = str "echo" ->
  let v := body_of post in
  (forall g,
      Volatile.dispatch g post = (g, COAP_205_CONTENT, str "echo: " ++ v)) /\
  (forall env fs,
      current_calls_ok env = true -> history_calls_ok env = true ->
      exists fs',
        Persist.dispatch env fs post =
          (fs', COAP_205_CONTENT, str "echo: " ++ v) /\
        (Persist.closed (Persist.fclose_current env) = true ->
         v <> [] -> ~ In LF v -> (forall u, v <> u ++ [CR]) ->
         forall env' get,
           code get = COAP_GET -> uri_path get = str "sensor" ->
           Persist.dispatch env' fs' get = (fs', COAP_205_CONTENT, v))).
Proof.
  intros Hc Hp v. split.
  - intros g. unfold Volatile.dispatch. rewrite Hc, Hp.
    change (bytes_eqb (str "echo") (str "echo") && (COAP_POST =? COAP_POST))
      with true. cbv iota.
    fold v. now rewrite echo_fits_resp by apply body_of_length.
  - intros env fs Hcur Hhist.
    rewrite (persist_write_request env fs post COAP_205_CONTENT
               (snprintf_s 1200 (str "echo: " ++ body_of post)))
      by (left; auto).
    pose proof (write_succeeds env fs (body_of post) Hcur Hhist) as E.
    destruct (Persist.write_current_and_history env fs (body_of post))
      as [[rc fs'] tr].
    cbn [fst] in E. injection E as -> ->.
    change (0 =? 0) with true. cbv iota.
    eexists. split; [now rewrite echo_fits_resp by apply body_of_length|].
    intros Hcl Hne Hlf Hcr env' get Hg Hs.
    unfold current_calls_ok in Hcur. apply andb_prop in Hcur.
    rewrite (stored_all _ _ (body_of post ++ [LF]) (proj2 Hcur) Hcl).
    apply persist_get_current_value; try assumption.
    + apply body_of_is_cstring.
    + apply body_of_length.
Qed.

Lemma post_echo_in_both_servers_witness :
  let post := mk_req COAP_CON 0 COAP_POST 1 [] (str "echo")
                     (Some (str "hi")) in
  let get := mk_req COAP_CON 0 COAP_GET 2 [] (str "sensor") None in
  let env := Persist.mk_env (str "2024-01-02T03:04:05Z")
                            true Persist.Printed Persist.Closed
                            true Persist.Printed Persist.Closed in
  let fs := Persist.mk_files (Some (str "7" ++ [LF])) None in
  Volatile.dispatch (str "7") post =
    (str "7", COAP_205_CONTENT, str "echo: hi") /\
  exists fs',
    Persist.dispatch env fs post = (fs', COAP_205_CONTENT, str "echo: hi") /\
    Persist.dispatch env fs' get = (fs', COAP_205_CONTENT, str "hi").
Proof.
  intros post get env fs.
  destruct (post_echo_in_both_servers post eq_refl eq_refl) as [HV HP].
  split; [exact (HV (str "7"))|].
  destruct (HP env fs eq_refl eq_refl) as (fs' & Hd & Hget).
  exists fs'. split; [exact Hd|].
  apply Hget; try reflexivity.
  - discriminate.
  - simpl. intros [H|[H|[]]]; discriminate H.
  - intros u E. apply (f_equal (fun l => last l 0)) in E.
    rewrite last_last in E. discriminate E.
Defined.

(** X19. A write request of the persistent server (PUT /sensor or POST
    /echo) is answered 5.00 exactly when [fopen] or [fprintf] reports a
    failure for one of the two files, and then with "WRITE_FAIL"; a failure
    that only [fclose] reports is not noticed.  When the current-state file
    cannot be opened, both files stay as they were.  When the current-state
    file was written and only the history append is seen to fail, the
    request is answered 5.00 and yet the value is stored: GET /sensor
    returns it from then on (a body that is one clean line).  And when
    every call but the [fclose] of the current-state file succeeds, and
    nothing of the line is written out, the request is answered as a
    success and the current-state file is empty. *)
Theorem write_failure_is_reported
    (env : Persist.io_env) (fs : Persist.files) (req : coap_req_t) :
  persist_writes req = true ->
  let v := body_of req in
  let '(fs', rcode, resp) := Persist.dispatch env fs req in
  (rcode = COAP_500_INTERR <->
     current_calls_ok env = false \/ history_calls_ok env = false) /\
  (rcode = COAP_500_INTERR -> resp = str "WRITE_FAIL") /\
  (Persist.fopen_current env = false -> fs' = fs) /\
  (current_write_ok env = true -> history_calls_ok env = false ->
   v <> [] -> ~ In LF v -> (forall u, v <> u ++ [CR]) ->
   forall env' get,
     code get = COAP_GET -> uri_path get = str "sensor" ->
     Persist.dispatch env' fs' get = (fs', COAP_205_CONTENT, v)) /\
  (current_calls_ok env = true -> history_calls_ok env = true ->
   Persist.fclose_current env = Persist.CloseFailed 0 ->
   rcode <> COAP_500_INTERR /\ Persist.CURR fs' = Some []).
Proof.
  intros Hw v.
  assert (Hreq : exists ok_code ok_resp,
             ok_code <> COAP_500_INTERR /\
             Persist.dispatch env fs req =
             let '(rc, fs', _) :=
               Persist.write_current_and_history env fs (body_of req) in
             if rc =? 0 then (fs', ok_code, ok_resp)
             else (fs', COAP_500_INTERR, str "WRITE_FAIL")).
  { unfold persist_writes in Hw. apply orb_true_iff in Hw.
    destruct Hw as [Hw|Hw]; apply andb_true_iff in Hw;
      destruct Hw as [Hc Hp]; apply Z.eqb_eq in Hc; apply bytes_eqb_eq in Hp.
    - exists COAP_205_CONTENT, (snprintf_s 1200 (str "echo: " ++ body_of req)).
      split; [discriminate|]. apply persist_write_request. left. auto.
    - exists COAP_204_CHANGED, (str "UPDATED").
      split; [discriminate|]. apply persist_write_request. right. auto. }
  destruct Hreq as (ok_code & ok_resp & Hok & ->).
  destruct (current_calls_ok env) eqn:Hcur.
  - destruct (history_calls_ok env) eqn:Hhist.
    + pose proof (write_succeeds env fs (body_of req) Hcur Hhist) as E.
      destruct (Persist.write_current_and_history env fs (body_of req))
        as [[rc fs'] tr].
      cbn [fst] in E. injection E as -> ->.
      change (0 =? 0) with true. cbv iota.
      split; [split; [contradiction | intros [H|H]; discriminate H]|].
      split; [contradiction|]. split; [|split; [discriminate|]].
      * unfold current_calls_ok in Hcur. intros H. rewrite H in Hcur.
        discriminate.
      * intros _ _ Hcl. split; [assumption|].
        cbn [Persist.CURR]. rewrite Hcl.
        destruct (Persist.fprintf_current env); reflexivity.
    + destruct (write_history_fails env fs (body_of req) Hcur Hhist)
        as [data E].
      destruct (Persist.write_current_and_history env fs (body_of req))
        as [[rc fs'] tr].
      cbn [fst] in E. injection E as -> ->.
      change (-1 =? 0) with false. cbv iota.
      split; [split; auto|]. split; [reflexivity|]. split.
      * unfold current_calls_ok in Hcur. intros H. rewrite H in Hcur.
        discriminate.
      * split; [|discriminate].
        intros Hcw _ Hne Hlf Hcr env' get Hg Hs.
        destruct (write_ok_split env Hcw) as (_ & Hp & Hcl).
        rewrite (stored_all _ _ (body_of req ++ [LF]) Hp Hcl).
        apply persist_get_current_value; try assumption.
        -- apply body_of_is_cstring.
        -- apply body_of_length.
  - destruct (write_current_fails env fs (body_of req) Hcur) as [Hrc Hfs].
    destruct (Persist.write_current_and_history env fs (body_of req))
      as [[rc fs'] tr].
    cbn [fst snd] in Hrc, Hfs. subst rc.
    change (-1 =? 0) with false. cbv iota.
    split; [split; auto|]. split; [reflexivity|].
    split; [exact Hfs|]. split; [|discriminate].
    intros Hcw. apply write_ok_split in Hcw. destruct Hcw as [Hcw _].
    rewrite Hcw in Hcur. discriminate.
Qed.

Lemma write_failure_is_reported_witness :
  let put := mk_req COAP_CON 0 COAP_PUT 1 [] (str "sensor")
                    (Some (str "23.5")) in
  let get := mk_req COAP_CON 0 COAP_GET 2 [] (str "sensor") None in
  let env := Persist.mk_env (str "2024-01-02T03:04:05Z")
                            true Persist.Printed Persist.Closed
                            false Persist.Printed Persist.Closed in
  let fs := Persist.mk_files (Some (str "7" ++ [LF])) None in
  let fs' := Persist.mk_files (Some (str "23.5" ++ [LF])) None in
  Persist.dispatch env fs put = (fs', COAP_500_INTERR, str "WRITE_FAIL") /\
  Persist.dispatch env fs' get = (fs', COAP_205_CONTENT, str "23.5").
Proof.
  intros put get env fs fs'.
  split; [reflexivity|].
  pose proof (write_failure_is_reported env fs put eq_refl) as H.
  change (Persist.dispatch env fs put)
    with (fs', COAP_500_INTERR, str "WRITE_FAIL") in H.
  cbv zeta iota beta in H.
  destruct H as (_ & _ & _ & H & _).
  apply H; try reflexivity.
  - discriminate.
  - simpl. intros [E|[E|[E|[E|[]]]]]; discriminate E.
  - intros u E. apply (f_equal (fun l => last l 0)) in E.
    rewrite last_last in E. discriminate E.
Defined.

(** A PUT whose two lines are lost as the files are closed is answered
    2.04 "UPDATED". *)
Example persist_put_lost_at_fclose :
  let put := mk_req COAP_CON 0 COAP_PUT 1 [] (str "sensor")
                    (Some (str "23.5")) in
  let env := Persist.mk_env (str "2024-01-02T03:04:05Z")
                            true Persist.Printed (Persist.CloseFailed 0)
                            true Persist.Printed (Persist.CloseFailed 0) in
  Persist.dispatch env (Persist.mk_files None None) put =
    (Persist.mk_files (Some []) (Some []), COAP_204_CHANGED, str "UPDATED").
Proof. reflexivity. Qed.

(** ** What the stores hold after any sequence of requests *)

Lemma volatile_dispatch_state (g : bytes) (req : coap_req_t) :
  fst (fst (Volatile.dispatch g req)) = g \/
  fst (fst (Volatile.dispatch g req)) = snprintf_s 1024 (body_of req).
Proof.
  unfold Volatile.dispatch.
  repeat match goal with
         | |- context [if ?c then _ else _] => destruct c
         end; cbn [fst]; auto.
Qed.

Lemma volatile_run_fits (g : bytes) (reqs : list coap_req_t) :
  (length g <= 1023)%nat /\ Forall (fun c => c <> 0) g ->
  (length (volatile_run g reqs) <= 1023)%nat /\
  Forall (fun c => c <> 0) (volatile_run g reqs).
Proof.
  unfold volatile_run. revert g.
  induction reqs as [|req reqs IH]; intros g Hg; [exact Hg|].
  cbn [fold_left]. apply IH.
  destruct (volatile_dispatch_state g req) as [-> | ->]; [exact Hg|].
  rewrite snprintf_s_fits by (pose proof (body_of_length req); lia).
  split; [apply body_of_length | apply body_of_is_cstring].
Qed.

(** X20. In server.c, after any sequence of requests from the initial
    state "NO_DATA", the stored value is a C string of at most 1023
    characters: it fits [g_state[1024]], and GET /sensor returns it whole. *)
Theorem volatile_state_always_fits (reqs : list coap_req_t) :
  let g := volatile_run Volatile.g_state_init reqs in
  (length g <= 1023)%nat /\ Forall (fun c => c <> 0) g /\
  forall get,
    uri_path get = str "sensor" -> code get = COAP_GET ->
    Volatile.dispatch g get = (g, COAP_205_CONTENT, g).
Proof.
  intros g.
  assert (H : (length g <= 1023)%nat /\ Forall (fun c => c <> 0) g).
  { apply volatile_run_fits. split; [simpl; lia|].
    unfold Volatile.g_state_init. simpl.
    repeat (apply Forall_cons; [discriminate|]). apply Forall_nil. }
  destruct H as [Hl Hn]. split; [exact Hl|]. split; [exact Hn|].
  intros get Hp Hc. apply volatile_get; [assumption | assumption | lia].
Qed.

Lemma volatile_state_always_fits_witness :
  let put := mk_req COAP_CON 0 COAP_PUT 1 [] (str "sensor")
                    (Some (repeat 120 1500)) in
  let get := mk_req COAP_CON 0 COAP_GET 2 [] (str "sensor") None in
  let g := volatile_run Volatile.g_state_init [get; put; get] in
  (length g <= 1023)%nat /\
  Volatile.dispatch g get = (g, COAP_205_CONTENT, g).
Proof.
  intros put get g.
  destruct (volatile_state_always_fits [get; put; get]) as (Hl & _ & Hg).
  split; [exact Hl|]. apply Hg; reflexivity.
Defined.

Lemma line_start_app_lf (old line : bytes) :
  line_start (old ++ line ++ [LF]).
Proof. right. exists (old ++ line). now rewrite app_assoc. Qed.

Lemma write_keeps_line_start (env : Persist.io_env) (fs : Persist.files)
    (value : bytes) :
  Persist.fprintf_history env = Persist.Printed /\
  Persist.fclose_history env = Persist.Closed ->
  line_start (Persist.file_contents (Persist.DATA fs)) ->
  line_start
    (Persist.file_contents
       (Persist.DATA
          (snd (fst (Persist.write_current_and_history env fs value))))).
Proof.
  intros [Hp Hcl] Hls. unfold Persist.write_current_and_history.
  destruct (Persist.fopen_current env); cbn [negb]; [|exact Hls].
  destruct (Persist.printed (Persist.fprintf_current env)); cbn [negb];
    [|exact Hls].
  destruct (Persist.fopen_history env); cbn [negb]; [|exact Hls].
  rewrite Hp, Hcl. cbn [Persist.printed negb fst snd Persist.DATA Persist.CURR
                   Persist.stored Persist.file_contents].
  replace (Persist.iso env ++ str " payload=" ++ value ++ [LF])
    with ((Persist.iso env ++ str " payload=" ++ value) ++ [LF])
    by now rewrite <- !app_assoc.
  apply line_start_app_lf.
Qed.

Lemma dispatch_keeps_line_start (env : Persist.io_env) (fs : Persist.files)
    (req : coap_req_t) :
  Persist.fprintf_history env = Persist.Printed /\
  Persist.fclose_history env = Persist.Closed ->
  line_start (Persist.file_contents (Persist.DATA fs)) ->
  line_start
    (Persist.file_contents
       (Persist.DATA (fst (fst (Persist.dispatch env fs req))))).
Proof.
  intros Hp Hls. unfold Persist.dispatch.
  destruct (_ && _).
  { destruct (Persist.read_last_line (Persist.CURR fs) 2048); [exact Hls|].
    destruct (Persist.read_last_line (Persist.DATA fs) 2048); exact Hls. }
  pose proof (write_keeps_line_start env fs (body_of req) Hp Hls) as H.
  destruct (Persist.write_current_and_history env fs (body_of req))
    as [[rc fs'] tr].
  cbn [fst snd] in H.
  destruct (_ && _); [destruct (rc =? 0); exact H|].
  destruct (_ && _); [destruct (rc =? 0); exact H|].
  exact Hls.
Qed.

(** X21. As long as no [fprintf] to the history log fails half-way and
    no [fclose] of the log fails to write out what was printed, a history
    log that is empty, missing, or ends with a line feed still ends with a
    line feed after any sequence of requests: the server only ever adds
    whole lines to it. *)
Theorem history_ends_at_line_end (fs : Persist.files)
    (steps : list (Persist.io_env * coap_req_t)) :
  line_start (Persist.file_contents (Persist.DATA fs)) ->
  Forall (fun step =>
            Persist.fprintf_history (fst step) = Persist.Printed /\
            Persist.fclose_history (fst step) = Persist.Closed)
         steps ->
  line_start (Persist.file_contents (Persist.DATA (persist_run fs steps))).
Proof.
  unfold persist_run. intros Hls Hsteps. revert fs Hls.
  induction Hsteps as [|step steps Hp _ IH]; intros fs Hls; [exact Hls|].
  cbn [fold_left]. apply IH. now apply dispatch_keeps_line_start.
Qed.

Lemma history_ends_at_line_end_witness :
  let env := Persist.mk_env (str "2024-01-02T03:04:05Z")
                            true Persist.Printed Persist.Closed
                            true Persist.Printed Persist.Closed in
  let put := mk_req COAP_CON 0 COAP_PUT 1 [] (str "sensor")
                    (Some (str "a" ++ [LF] ++ str "b")) in
  let echo := mk_req COAP_CON 0 COAP_POST 2 [] (str "echo") None in
  line_start
    (Persist.file_contents
       (Persist.DATA (persist_run (Persist.mk_files None None)
                                  [(env, put); (env, echo)]))).
Proof.
  intros env put echo.
  apply history_ends_at_line_end; [now left|].
  repeat (apply Forall_cons; [split; reflexivity|]). apply Forall_nil.
Defined.

(** * Further properties of the option encoder *)

Lemma nibble_tier_ext_length (x : Z) : 0 <= len (snd (nibble_tier x)) <= 2.
Proof.
  unfold nibble_tier.
  destruct (x <? 13); [cbn; lia|]. destruct (x <? 269); cbn; lia.
Qed.

(** X22. [add_option] stores a whole option or nothing: either it returns
    -1, stores nothing and leaves the running option number alone - which
    can only happen with less room than the largest encoding needs - or it
    returns the number of bytes stored, within the capacity, sets the
    running number, and what it stored is 1 to 5 header bytes followed by
    the value. *)
Theorem add_option_all_or_nothing (cap last number : Z) (val : bytes) :
  let '(ret, out, last') := add_option cap last number val in
  (ret = -1 /\ out = [] /\ last' = last /\ cap < 5 + len val) \/
  (ret = len out /\ ret <= cap /\ last' = number /\
   exists hdr, out = hdr ++ val /\ 1 <= len hdr <= 5).
Proof.
  rewrite add_option_tiers. pose proof (len_nonneg val) as Hv.
  pose proof (nibble_tier_ext_length (to_int (number - last))) as Hd.
  pose proof (nibble_tier_ext_length (len val)) as Hl.
  destruct (Z.ltb_spec cap 1); [left; repeat split; lia|].
  destruct (nibble_tier (to_int (number - last))) as [dl dext].
  destruct (nibble_tier (len val)) as [ll lext].
  cbn [snd] in Hd, Hl. cbv zeta.
  destruct (Z.ltb_spec cap (1 + len dext + len lext + len val));
    [left; repeat split; lia|].
  right. split; [rewrite !len_app; change (len [_]) with 1; lia|].
  split; [assumption|]. split; [reflexivity|].
  exists ([Z.lor (Z.shiftl dl 4) ll mod 256] ++ dext ++ lext).
  split; [now rewrite <- !app_assoc|].
  rewrite !len_app. change (len [_]) with 1. lia.
Qed.

(** X23. Over the whole range that the three encodings cover - deltas and
    value lengths from 0 to 65804 - what [add_option] stores is read back
    by the option header decoder of [coap_parse] as the same delta and the
    same length, positioned on the value. *)
Theorem add_option_roundtrip_in_range
    (cap last number : Z) (val tail : bytes) :
  0 <= number - last <= 65804 ->
  len val <= 65804 ->
  5 + len val <= cap ->
  let '(need, out, last') := add_option cap last number val in
  need = len out /\ last' = number /\
  decode_first_option (out ++ tail) =
    Some (number - last, len val, val ++ tail).
Proof. apply add_option_decodes. Qed.

Lemma add_option_roundtrip_in_range_witness :
  let '(need, out, last') := add_option 64 11 1000 (str "value") in
  need = len out /\ last' = 1000 /\
  decode_first_option (out ++ [255; 1]) =
    Some (1000 - 11, len (str "value"), str "value" ++ [255; 1]).
Proof.
  apply (add_option_roundtrip_in_range 64 11 1000 (str "value") [255; 1]);
    unfold len; simpl; lia.
Defined.

Lemma be16_bytes_mod (D : Z) :
  0 <= D ->
  Z.lor (Z.shiftl (Z.land (Z.shiftr D 8) 255) 8) (Z.land D 255) =
  D mod 65536.
Proof.
  intros HD. change 255 with (Z.ones 8). change 65536 with (2 ^ 16).
  apply Z.bits_inj'. intros n Hn.
  rewrite Z.lor_spec, Z.land_spec, Z.testbit_ones_nonneg by lia.
  destruct (Z.ltb_spec n 8) as [Hlt|Hge].
  - rewrite Z.shiftl_spec_low by lia.
    rewrite Z.mod_pow2_bits_low by lia. simpl. apply andb_true_r.
  - rewrite Z.shiftl_spec, Z.land_spec, Z.shiftr_spec by lia.
    rewrite Z.testbit_ones_nonneg by lia.
    replace (n - 8 + 8) with n by lia.
    rewrite andb_false_r, orb_false_r.
    destruct (Z.ltb_spec (n - 8) 8) as [Hlt|Hge2].
    + rewrite Z.mod_pow2_bits_low by lia. apply andb_true_r.
    + rewrite Z.mod_pow2_bits_high by lia. apply andb_false_r.
Qed.

(** X24. [add_option] does not refuse a delta above 65804, which the
    two-byte extension cannot hold.  For every such delta that an [int]
    holds (the difference [number - *last] does not overflow), it stores
    the low 16 bits of [delta - 269], and the decoder reads back 269 plus
    those bits - another option number than the one that was encoded. *)
Theorem add_option_wraps_beyond_range
    (cap last number : Z) (val tail : bytes) :
  65804 < number - last <= INT_MAX ->
  len val <= 65804 ->
  5 + len val <= cap ->
  let '(ret, out, _) := add_option cap last number val in
  ret <> -1 /\
  decode_first_option (out ++ tail) =
    Some (269 + (number - last - 269) mod 65536, len val, val ++ tail) /\
  269 + (number - last - 269) mod 65536 <> number - last.
Proof.
  intros Hd Hl Hcap. rewrite add_option_tiers.
  rewrite to_int_small by (unfold INT_MIN, INT_MAX in *; lia).
  unfold INT_MAX in Hd.
  pose proof (len_nonneg val) as Hv.
  destruct (Z.ltb_spec cap 1); [lia|].
  pose proof (nibble_tier_decodes (len val) (conj Hv Hl)) as HL.
  unfold nibble_tier at 1.
  destruct (Z.ltb_spec (number - last) 13); [lia|].
  destruct (Z.ltb_spec (number - last) 269); [lia|].
  cbv zeta.
  destruct (nibble_tier (len val)) as [ll lext].
  destruct HL as (Hll & Hln & HL).
  set (D := number - last - 269) in *.
  match goal with
  | |- context [cap <? ?n] => destruct (Z.ltb_spec cap n) as [Hc|_]
  end.
  { change (len [_; _]) with 2 in Hc. lia. }
  split; [change (len [_; _]) with 2; lia|]. split.
  - rewrite <- !app_assoc. cbn [app decode_first_option].
    unfold read_option_header.
    destruct (nibbles_of_header 14 ll) as [-> ->]; [lia | lia |].
    rewrite read_nibble_ext_14, be16_bytes_mod by (unfold D; lia).
    now rewrite HL.
  - pose proof (Z.mod_pos_bound D 65536 eq_refl). unfold D in *. lia.
Qed.

Lemma add_option_wraps_beyond_range_witness :
  let '(ret, out, _) := add_option 16 0 65805 [7] in
  ret <> -1 /\
  decode_first_option (out ++ []) = Some (269, 1, [7]).
Proof.
  pose proof (add_option_wraps_beyond_range 16 0 65805 [7] []) as H.
  destruct (add_option 16 0 65805 [7]) as [[ret out] last'].
  destruct H as (H1 & H2 & _); [unfold INT_MAX; lia | unfold len; simpl; lia
                               | unfold len; simpl; lia |].
  split; [exact H1 | exact H2].
Defined.

(** Where the difference [number - *last] does not fit an [int]: from
    [*last] = -5 to the number 2147483647 the stored delta nibble is 4. *)
Example add_option_delta_beyond_int :
  add_option 16 (-5) 2147483647 [7] = (2, [65; 7], 2147483647) /\
  decode_first_option [65; 7] = Some (4, 1, [7]).
Proof. split; reflexivity. Qed.

(** ** A sequence of writes *)

Lemma persist_write_step (env : Persist.io_env) (fs : Persist.files)
    (req : coap_req_t) :
  persist_writes req = true ->
  current_write_ok env = true -> history_write_ok env = true ->
  fst (fst (Persist.dispatch env fs req)) =
  Persist.mk_files
    (Some (body_of req ++ [LF]))
    (Some (Persist.file_contents (Persist.DATA fs) ++
           history_entry (Persist.iso env) (body_of req) ++ [LF])).
Proof.
  intros Hw Hcur Hhist.
  assert (Hreq : exists ok_code ok_resp,
             Persist.dispatch env fs req =
             let '(rc, fs', _) :=
               Persist.write_current_and_history env fs (body_of req) in
             if rc =? 0 then (fs', ok_code, ok_resp)
             else (fs', COAP_500_INTERR, str "WRITE_FAIL")).
  { unfold persist_writes in Hw. apply orb_true_iff in Hw.
    destruct Hw as [Hw|Hw]; apply andb_true_iff in Hw;
      destruct Hw as [Hc Hp]; apply Z.eqb_eq in Hc; apply bytes_eqb_eq in Hp;
      do 2 eexists; apply persist_write_request; [left|right]; eauto. }
  destruct Hreq as (ok_code & ok_resp & ->).
  destruct (write_ok_split env Hcur) as (Hcc & Hcp & Hccl).
  destruct (history_write_ok_split env Hhist) as (Hhc & Hhp & Hhcl).
  pose proof (write_succeeds env fs (body_of req) Hcc Hhc) as E.
  rewrite !stored_all in E by assumption.
  destruct (Persist.write_current_and_history env fs (body_of req))
    as [[rc fs'] tr].
  cbn [fst] in E. injection E as -> ->.
  change (0 =? 0) with true. cbv iota. cbn [fst].
  unfold history_entry. now rewrite <- !app_assoc.
Qed.

(** X25. A sequence of write requests (PUT /sensor or POST /echo) whose
    file operations all succeed - [fopen], [fprintf] and also [fclose], for
    both files - leaves the history log with one line
    "<timestamp> payload=<body>" per request added at its end, in the order
    of the requests, and the current-state file with the body of the last
    request and a line feed. *)
Theorem writes_accumulate (fs : Persist.files)
    (steps : list (Persist.io_env * coap_req_t)) :
  Forall (fun step =>
            persist_writes (snd step) = true /\
            current_write_ok (fst step) = true /\
            history_write_ok (fst step) = true) steps ->
  Persist.file_contents (Persist.DATA (persist_run fs steps)) =
    Persist.file_contents (Persist.DATA fs) ++
    flat_map (fun step =>
                history_entry (Persist.iso (fst step)) (body_of (snd step))
                  ++ [LF]) steps /\
  (forall env req,
      last steps (env, req) = (env, req) -> steps <> [] ->
      Persist.CURR (persist_run fs steps) = Some (body_of req ++ [LF])).
Proof.
  unfold persist_run. intros H. revert fs.
  induction H as [|step steps (Hw & Hcur & Hhist) Hrest IH]; intros fs.
  - cbn [fold_left flat_map]. split; [now rewrite app_nil_r|].
    intros env req _ Hne. now contradiction Hne.
  - cbn [fold_left flat_map].
    rewrite (persist_write_step (fst step) fs (snd step) Hw Hcur Hhist).
    destruct (IH (Persist.mk_files
                    (Some (body_of (snd step) ++ [LF]))
                    (Some (Persist.file_contents (Persist.DATA fs) ++
                           history_entry (Persist.iso (fst step))
                                         (body_of (snd step)) ++ [LF]))))
      as [Hd Hc].
    split.
    + rewrite Hd. cbn [Persist.DATA Persist.file_contents].
      now rewrite <- !app_assoc.
    + intros env req Hlast _. destruct steps as [|step2 steps].
      * cbn [last] in Hlast. subst step. reflexivity.
      * apply (Hc env req); [exact Hlast | discriminate].
Qed.

Lemma writes_accumulate_witness :
  let env1 := Persist.mk_env (str "2024-01-02T03:04:05Z")
                             true Persist.Printed Persist.Closed
                             true Persist.Printed Persist.Closed in
  let env2 := Persist.mk_env (str "2024-01-02T03:04:06Z")
                             true Persist.Printed Persist.Closed
                             true Persist.Printed Persist.Closed in
  let put5 := mk_req COAP_CON 0 COAP_PUT 1 [] (str "sensor")
                     (Some (str "5")) in
  let echo7 := mk_req COAP_CON 0 COAP_POST 2 [] (str "echo")
                      (Some (str "7")) in
  let fs := persist_run (Persist.mk_files None None)
                        [(env1, put5); (env2, echo7)] in
  Persist.file_contents (Persist.DATA fs) =
    str "2024-01-02T03:04:05Z payload=5" ++ [LF] ++
    str "2024-01-02T03:04:06Z payload=7" ++ [LF] /\
  Persist.CURR fs = Some (str "7" ++ [LF]).
Proof.
  intros env1 env2 put5 echo7 fs.
  destruct (writes_accumulate (Persist.mk_files None None)
                              [(env1, put5); (env2, echo7)]) as [Hd Hc].
  { repeat (apply Forall_cons; [repeat split|]). apply Forall_nil. }
  split; [exact Hd|].
  apply (Hc env2 echo7); [reflexivity | discriminate].
Defined.
